(** * Flowform core: validators, validation dispatcher and turn orchestrator

    A shallow embedding of [packages/core/src/validation/validators.ts],
    [packages/core/src/validation/validate-field.ts] and
    [packages/core/src/orchestrator/orchestrator.ts], together with the part
    of the JavaScript runtime those files call into (strings of UTF-16 code
    units, regular expressions, IEEE 754 numbers, [JSON.parse], [Object.keys],
    the calendar functions of [Date]). *)

From Stdlib Require Import ZArith NArith List Bool String Ascii Lia.
From Stdlib Require Import Permutation Sorted.
From Stdlib Require Import Floats.SpecFloat DecimalString.
Import ListNotations.

Set Implicit Arguments.
Set Warnings "-register-all".

(* ================================================================== *)
(** * Strings *)

(** A JavaScript string is a sequence of UTF-16 code units. *)
Definition JSString := list N.

Definition ch (a : ascii) : N := N_of_ascii a.

(** ASCII literals of the source, as code-unit sequences. *)
Definition str (s : string) : JSString := map ch (list_ascii_of_string s).

Fixpoint String_eqb (a b : JSString) : bool :=
  match a, b with
  | [], [] => true
  | x :: a', y :: b' => (x =? y)%N && String_eqb a' b'
  | _, _ => false
  end.

(** [\s] of a regular expression, which is also the set [trim] strips:
    WhiteSpace and LineTerminator of ECMAScript. *)
Definition isWhiteSpace (c : N) : bool :=
  ((c =? 9) || (c =? 10) || (c =? 11) || (c =? 12) || (c =? 13) || (c =? 32)
   || (c =? 160) || (c =? 5760) || ((8192 <=? c) && (c <=? 8202))
   || (c =? 8232) || (c =? 8233) || (c =? 8239) || (c =? 8287)
   || (c =? 12288) || (c =? 65279))%N.

(** [\d] *)
Definition isDigit (c : N) : bool := ((48 <=? c) && (c <=? 57))%N.

Fixpoint trimStart (s : JSString) : JSString :=
  match s with
  | [] => []
  | c :: s' => if isWhiteSpace c then trimStart s' else s
  end.

Definition trimEnd (s : JSString) : JSString := rev (trimStart (rev s)).

(** [String.prototype.trim] *)
Definition trim (s : JSString) : JSString := trimEnd (trimStart s).

(** [s.split(sep)] for a one-character separator; never the empty array. *)
Fixpoint split (sep : N) (s : JSString) : list JSString :=
  match s with
  | [] => [[]]
  | c :: s' =>
      if (c =? sep)%N then [] :: split sep s'
      else match split sep s' with
           | [] => [[c]]
           | p :: ps => (c :: p) :: ps
           end
  end.

(** [parts.join(sep)] *)
Fixpoint join (sep : JSString) (parts : list JSString) : JSString :=
  match parts with
  | [] => []
  | [p] => p
  | p :: ps => p ++ sep ++ join sep ps
  end.

(** Longest prefix whose characters satisfy [p], and the rest. *)
Fixpoint span (p : N -> bool) (s : JSString) : JSString * JSString :=
  match s with
  | [] => ([], [])
  | c :: s' =>
      if p c then let '(a, b) := span p s' in (c :: a, b) else ([], s)
  end.

Definition digitsValue (ds : JSString) : N :=
  fold_left (fun acc d => (10 * acc + (d - 48))%N) ds 0%N.

(** [parseInt(s, 10)]: leading white space, an optional sign, then the longest
    run of decimal digits; [None] is NaN.  The result is the integer before it
    is rounded to a double: the source only compares it with calendar fields,
    which are small integers, and rounding never maps another integer onto
    one of those. *)
Definition parseInt (s : JSString) : option Z :=
  let s1 := trimStart s in
  let '(neg, s2) :=
    match s1 with
    | c :: r => if (c =? ch "-")%N then (true, r)
                else if (c =? ch "+")%N then (false, r) else (false, s1)
    | [] => (false, s1)
    end in
  match fst (span isDigit s2) with
  | [] => None
  | ds => Some (if neg then - Z.of_N (digitsValue ds) else Z.of_N (digitsValue ds))%Z
  end.

(* ================================================================== *)
(** * Regular expressions

    The source's patterns use character classes, concatenation and [+]; they
    are matched on code units (no [u] flag) and kept no state (no [g] flag on
    a pattern that is tested).  [test] is decided by Brzozowski derivatives. *)

Module RegExp.

Inductive regex : Type :=
| Never
| Empty
| Class (p : N -> bool)
| Seq (r1 r2 : regex)
| Alt (r1 r2 : regex)
| Star (r : regex).

Definition Chr (c : N) : regex := Class (N.eqb c).
Definition Plus (r : regex) : regex := Seq r (Star r).

Fixpoint Times (n : nat) (r : regex) : regex :=
  match n with
  | O => Empty
  | S n' => Seq r (Times n' r)
  end.

Fixpoint SeqAll (rs : list regex) : regex :=
  match rs with
  | [] => Empty
  | [r] => r
  | r :: rs' => Seq r (SeqAll rs')
  end.

Fixpoint nullable (r : regex) : bool :=
  match r with
  | Never => false
  | Empty => true
  | Class _ => false
  | Seq r1 r2 => nullable r1 && nullable r2
  | Alt r1 r2 => nullable r1 || nullable r2
  | Star _ => true
  end.

Definition mkSeq (r1 r2 : regex) : regex :=
  match r1 with
  | Never => Never
  | Empty => r2
  | _ => Seq r1 r2
  end.

Definition mkAlt (r1 r2 : regex) : regex :=
  match r1, r2 with
  | Never, _ => r2
  | _, Never => r1
  | _, _ => Alt r1 r2
  end.

Fixpoint deriv (c : N) (r : regex) : regex :=
  match r with
  | Never => Never
  | Empty => Never
  | Class p => if p c then Empty else Never
  | Seq r1 r2 =>
      if nullable r1 then mkAlt (mkSeq (deriv c r1) r2) (deriv c r2)
      else mkSeq (deriv c r1) r2
  | Alt r1 r2 => mkAlt (deriv c r1) (deriv c r2)
  | Star r1 => mkSeq (deriv c r1) (Star r1)
  end.

(** [/^r$/.test(s)]: the whole input is in the language of [r]. *)
Fixpoint test_anchored (r : regex) (s : JSString) : bool :=
  match s with
  | [] => nullable r
  | c :: s' => test_anchored (deriv c r) s'
  end.

(** [/^r/.test(s)]: some prefix of the input is in the language of [r]. *)
Fixpoint test_prefix (r : regex) (s : JSString) : bool :=
  nullable r ||
  match s with
  | [] => false
  | c :: s' => test_prefix (deriv c r) s'
  end.

(** The language of a pattern. *)
Inductive matches : regex -> JSString -> Prop :=
| MEmpty : matches Empty []
| MClass p c : p c = true -> matches (Class p) [c]
| MSeq r1 r2 s1 s2 : matches r1 s1 -> matches r2 s2 -> matches (Seq r1 r2) (s1 ++ s2)
| MAltL r1 r2 s : matches r1 s -> matches (Alt r1 r2) s
| MAltR r1 r2 s : matches r2 s -> matches (Alt r1 r2) s
| MStar0 r : matches (Star r) []
| MStarS r s1 s2 : matches r s1 -> matches (Star r) s2 -> matches (Star r) (s1 ++ s2).

End RegExp.

(* ================================================================== *)
(** * Numbers

    A JavaScript number is an IEEE 754 binary64 value: [spec_float] at
    precision 53 and maximal exponent 1024, in its canonical representation
    (the conversions below produce no other). *)

Definition number := spec_float.
Definition NaN : number := S754_nan.

(** [a < b] and [a > b] on numbers: false as soon as one side is NaN. *)
Definition num_lt (a b : number) : bool := SFltb a b.
Definition num_gt (a b : number) : bool := SFltb b a.

Definition number_of_Z (z : Z) : number := binary_normalize 53 1024 z 0 false.

(** The double nearest to [m * 10^e] (ties to even), with sign [neg].  The
    first two tests only keep the powers of ten small: above [10^400] every
    non-zero value overflows, and [m < 10^(log2 m + 1)], so below the second
    bound the value is under half the least subnormal. *)
Definition number_of_decimal (neg : bool) (m : N) (e : Z) : number :=
  match m with
  | N0 => S754_zero neg
  | Npos p =>
      if (400 <? e)%Z then S754_infinity neg
      else if (e + Z.log2 (Zpos p) + 1 <? -400)%Z then S754_zero neg
      else if (0 <=? e)%Z then
        match (Zpos p * 10 ^ e)%Z with
        | Zpos q => binary_round 53 1024 neg q 0
        | _ => S754_zero neg
        end
      else
        match (10 ^ (- e))%Z with
        | Zpos d => SFdiv 53 1024 (S754_finite neg p 0) (S754_finite false d 0)
        | _ => NaN
        end
  end.

Definition radixDigit (c : N) : option N :=
  if isDigit c then Some (c - 48)%N
  else if ((97 <=? c) && (c <=? 102))%N then Some (c - 87)%N
  else if ((65 <=? c) && (c <=? 70))%N then Some (c - 55)%N
  else None.

(** Value of a non-empty run of digits of the given radix. *)
Definition radixValue (radix : N) (ds : JSString) : option N :=
  match ds with
  | [] => None
  | _ =>
      fold_left
        (fun acc c =>
           match acc, radixDigit c with
           | Some a, Some d => if (d <? radix)%N then Some (radix * a + d)%N else None
           | _, _ => None
           end) ds (Some 0%N)
  end.

(** [0x], [0o] and [0b] literals of StringNumericLiteral (they take no sign). *)
Definition nonDecimalLiteral (t : JSString) : option number :=
  match t with
  | 48%N :: p :: ds =>
      let radix :=
        if ((p =? ch "x") || (p =? ch "X"))%N then Some 16%N
        else if ((p =? ch "o") || (p =? ch "O"))%N then Some 8%N
        else if ((p =? ch "b") || (p =? ch "B"))%N then Some 2%N
        else None in
      match radix with
      | Some r =>
          match radixValue r ds with
          | Some v => Some (number_of_decimal false v 0)
          | None => Some NaN
          end
      | None => None
      end
  | _ => None
  end.

(** An optional exponent part that must reach the end of the literal. *)
Definition exponentPart (r : JSString) : option Z :=
  match r with
  | [] => Some 0%Z
  | c :: r1 =>
      if ((c =? ch "e") || (c =? ch "E"))%N then
        let '(eneg, r2) :=
          match r1 with
          | d :: r' => if (d =? ch "-")%N then (true, r')
                       else if (d =? ch "+")%N then (false, r') else (false, r1)
          | [] => (false, r1)
          end in
        match span isDigit r2 with
        | ([], _) => None
        | (ds, []) => Some (if eneg then - Z.of_N (digitsValue ds) else Z.of_N (digitsValue ds))%Z
        | (_, _ :: _) => None
        end
      else None
  end.

(** StrDecimalLiteral: sign, then [Infinity] or digits with an optional
    fraction and exponent. *)
Definition strDecimalLiteral (t : JSString) : number :=
  let '(neg, u) :=
    match t with
    | c :: r => if (c =? ch "-")%N then (true, r)
                else if (c =? ch "+")%N then (false, r) else (false, t)
    | [] => (false, t)
    end in
  if String_eqb u (str "Infinity") then S754_infinity neg
  else
    let '(ip, r1) := span isDigit u in
    let '(fp, r2) :=
      match r1 with
      | c :: r' => if (c =? ch ".")%N then span isDigit r' else ([], r1)
      | [] => ([], r1)
      end in
    match ip ++ fp with
    | [] => NaN
    | ds =>
        match exponentPart r2 with
        | Some e => number_of_decimal neg (digitsValue ds) (e - Z.of_nat (List.length fp))
        | None => NaN
        end
    end.

(** StringToNumber, the string case of [Number(value)]. *)
Definition StringToNumber (s : JSString) : number :=
  match trim s with
  | [] => S754_zero false
  | t =>
      match nonDecimalLiteral t with
      | Some n => n
      | None => strDecimalLiteral t
      end
  end.

(* ================================================================== *)
(** * Values *)

(** What a variable of the source can hold at run time.  [FieldValue] of
    [types/field.ts] is [string | number | Date | null]; a reply of the model
    that went through [JSON.parse] can also hold booleans, arrays and objects,
    and [validateField] tests for [undefined].  A [Date] is its time value in
    milliseconds, [None] when that is NaN.  An object is its own enumerable
    string-keyed properties in enumeration order; they hold data, never a
    function, and the object inherits from [Object.prototype] (an array from
    [Array.prototype]), as the values that [JSON.parse] builds do. *)
Inductive JSValue : Type :=
| VUndefined
| VNull
| VBool (b : bool)
| VNumber (n : number)
| VString (s : JSString)
| VDate (tv : option Z)
| VArray (elems : list JSValue)
| VObject (props : list (JSString * JSValue)).

(** Behaviour the language leaves to the engine or that depends on the host's
    time zone.  The source is embedded over any such engine. *)
Class Engine : Type := {
  (** [Date.parse]: the time value of a date string, [None] for NaN *)
  Date_parse : JSString -> option Z;
  (** [Number.prototype.toString] in radix 10 *)
  Number_toString : number -> JSString;
  (** [Date.prototype.toString], in the local time zone *)
  Date_toString : option Z -> JSString;
  (** the [message] of the SyntaxError that [JSON.parse] throws on a text *)
  SyntaxError_message : JSString -> JSString
}.

Section Conversions.
Context {engine : Engine}.

(** [String(value)]; [None] stands for the TypeError of the conversion.  An
    object is converted through its [toString] and [valueOf] methods.  For an
    array these are the inherited ones: [Array.prototype.toString] joins the
    elements, each converted in turn, [null] and [undefined] giving the empty
    string.  An ordinary object inherits [Object.prototype.toString], but an
    own property named [toString] shadows it; its value is data, not a
    function, and [valueOf] gives back the object (or is shadowed by data
    too), so no primitive is found and the conversion raises. *)
Fixpoint ToString (v : JSValue) : option JSString :=
  match v with
  | VUndefined => Some (str "undefined")
  | VNull => Some (str "null")
  | VBool true => Some (str "true")
  | VBool false => Some (str "false")
  | VNumber n => Some (Number_toString n)
  | VString s => Some s
  | VDate tv => Some (Date_toString tv)
  | VArray elems =>
      option_map (join (str ","))
        ((fix each (es : list JSValue) : option (list JSString) :=
            match es with
            | [] => Some []
            | e :: es' =>
                match match e with
                      | VUndefined | VNull => Some []
                      | _ => ToString e
                      end with
                | Some s =>
                    match each es' with
                    | Some ss => Some (s :: ss)
                    | None => None
                    end
                | None => None
                end
            end) elems)
  | VObject props =>
      if existsb (fun p => String_eqb (fst p) (str "toString")) props then None
      else Some (str "[object Object]")
  end.

(** [Number(value)]; [None] stands for the TypeError of the conversion.  An
    array or an object is converted to a primitive first: the inherited
    [valueOf] gives back the object, so the primitive is the one [toString]
    gives, or none. *)
Definition ToNumber (v : JSValue) : option number :=
  match v with
  | VUndefined => Some NaN
  | VNull => Some (S754_zero false)
  | VBool true => Some (number_of_Z 1)
  | VBool false => Some (S754_zero false)
  | VNumber n => Some n
  | VString s => Some (StringToNumber s)
  | VDate (Some t) => Some (number_of_Z t)
  | VDate None => Some NaN
  | VArray _ | VObject _ => option_map StringToNumber (ToString v)
  end.

End Conversions.

(** [Object.keys(value)]: [None] stands for the TypeError that [null] and
    [undefined] raise; primitives other than strings have no own keys. *)
Module Object.

Definition indexKey (i : nat) : JSString := str (NilEmpty.string_of_uint (Nat.to_uint i)).

Definition entries (v : JSValue) : option (list (JSString * JSValue)) :=
  match v with
  | VUndefined | VNull => None
  | VBool _ | VNumber _ | VDate _ => Some []
  | VString s => Some (combine (map indexKey (seq 0 (List.length s))) (map (fun c => VString [c]) s))
  | VArray elems => Some (combine (map indexKey (seq 0 (List.length elems))) elems)
  | VObject props => Some props
  end.

Definition keys (v : JSValue) : option (list JSString) :=
  option_map (map fst) (entries v).

End Object.

(* ================================================================== *)
(** * Dates: the calendar functions of ECMAScript on time values *)

Open Scope Z_scope.

Definition msPerDay : Z := 86400000.

Definition Day (t : Z) : Z := t / msPerDay.

Definition DayFromYear (y : Z) : Z :=
  365 * (y - 1970) + (y - 1969) / 4 - (y - 1901) / 100 + (y - 1601) / 400.

Definition DaysInYear (y : Z) : Z :=
  if (y mod 4 =? 0) && (negb (y mod 100 =? 0) || (y mod 400 =? 0)) then 366 else 365.

(** The year [y] with [DayFromYear y <= Day t < DayFromYear (y + 1)]: the
    mean-year estimate is off by one at most. *)
Definition YearFromTime (t : Z) : Z :=
  let d := Day t in
  let y := 1970 + (400 * d) / 146097 in
  if d <? DayFromYear y then y - 1
  else if DayFromYear (y + 1) <=? d then y + 1
  else y.

Definition InLeapYear (t : Z) : Z :=
  if DaysInYear (YearFromTime t) =? 366 then 1 else 0.

Definition DayWithinYear (t : Z) : Z := Day t - DayFromYear (YearFromTime t).

Definition MonthFromTime (t : Z) : Z :=
  let d := DayWithinYear t in
  let l := InLeapYear t in
  if d <? 31 then 0
  else if d <? 59 + l then 1
  else if d <? 90 + l then 2
  else if d <? 120 + l then 3
  else if d <? 151 + l then 4
  else if d <? 181 + l then 5
  else if d <? 212 + l then 6
  else if d <? 243 + l then 7
  else if d <? 273 + l then 8
  else if d <? 304 + l then 9
  else if d <? 334 + l then 10
  else 11.

Definition DateFromTime (t : Z) : Z :=
  let d := DayWithinYear t in
  let l := InLeapYear t in
  match MonthFromTime t with
  | 0 => d + 1
  | 1 => d - 30
  | 2 => d - 58 - l
  | 3 => d - 89 - l
  | 4 => d - 119 - l
  | 5 => d - 150 - l
  | 6 => d - 180 - l
  | 7 => d - 211 - l
  | 8 => d - 242 - l
  | 9 => d - 272 - l
  | 10 => d - 303 - l
  | _ => d - 333 - l
  end.

(** [MakeDay(year, month, date)] for a month in [0..11]: the day number of
    that calendar date. *)
Definition MakeDay (y m d : Z) : Z :=
  let leap := if DaysInYear y =? 366 then 1 else 0 in
  let before :=
    match m with
    | 0 => 0 | 1 => 31 | 2 => 59 + leap | 3 => 90 + leap | 4 => 120 + leap
    | 5 => 151 + leap | 6 => 181 + leap | 7 => 212 + leap | 8 => 243 + leap
    | 9 => 273 + leap | 10 => 304 + leap | _ => 334 + leap
    end in
  DayFromYear y + before + d - 1.

Definition TimeClip (t : Z) : option Z :=
  if Z.abs t <=? 8640000000000000 then Some t else None.

(** A [Date] object is its time value; the getters return NaN ([None]) on an
    invalid date. *)
Definition getTime (d : option Z) : option Z := d.
Definition getUTCFullYear (d : option Z) : option Z := option_map YearFromTime d.
Definition getUTCMonth (d : option Z) : option Z := option_map MonthFromTime d.
Definition getUTCDate (d : option Z) : option Z := option_map DateFromTime d.

Definition isNaN (n : option Z) : bool :=
  match n with None => true | Some _ => false end.

(** [a !== b] on numbers that are integers or NaN: NaN differs from everything. *)
Definition strict_neq (a b : option Z) : bool :=
  match a, b with
  | Some x, Some y => negb (x =? y)
  | _, _ => true
  end.

(** [new Date(s)] for a string [s] *)
Definition new_Date {engine : Engine} (s : JSString) : option Z :=
  match Date_parse s with
  | Some t => TimeClip t
  | None => None
  end.

Close Scope Z_scope.

(* ================================================================== *)
(** * The data model ([types/field.ts], [form.ts], [session.ts],
      [validation.ts], [llm.ts], [orchestrator.ts], [errors.ts]) *)

Inductive FieldType : Type :=
| TEXT | EMAIL | PHONE | NUMBER | DATE | ENUM | LONG_TEXT.

Module ValidationRule.
Record t : Type := mk {
  min : option number;
  max : option number;
  pattern : option JSString;
  options : option (list JSString)
}.
End ValidationRule.
Abbreviation ValidationRule := ValidationRule.t.

Module FormField.
Record t : Type := mk {
  id : JSString;
  name : JSString;
  label : JSString;
  type : FieldType;
  required : bool;
  validation : option ValidationRule;
  (** display order; an integer position *)
  order : Z;
  description : option JSString
}.
End FormField.
Abbreviation FormField := FormField.t.

Module FormDefinition.
Record t : Type := mk {
  id : JSString;
  name : JSString;
  description : option JSString;
  fields : list FormField;
  createdAt : option Z;
  updatedAt : option Z
}.
End FormDefinition.
Abbreviation FormDefinition := FormDefinition.t.

Inductive SessionStatus : Type := ACTIVE | COMPLETED | ABANDONED.

Inductive TurnRole : Type := USER | ASSISTANT.

Module SessionTurn.
Record t : Type := mk {
  role : TurnRole;
  content : JSString;
  timestamp : option Z
}.
End SessionTurn.
Abbreviation SessionTurn := SessionTurn.t.

Module SessionField.
Record t : Type := mk {
  fieldId : JSString;
  value : JSValue;
  collectedAt : option Z
}.
End SessionField.
Abbreviation SessionField := SessionField.t.

Module Session.
Record t : Type := mk {
  id : JSString;
  formId : JSString;
  status : SessionStatus;
  turns : list SessionTurn;
  fields : list SessionField;
  startedAt : option Z;
  completedAt : option (option Z)
}.
End Session.
Abbreviation Session := Session.t.

(** [{ valid: true } | { valid: false; error: string }] *)
Inductive ValidationResult : Type :=
| Valid
| Invalid (error : JSString).

Inductive LlmRole : Type := system | user | assistant.

Module LlmMessage.
Record t : Type := mk {
  role : LlmRole;
  content : JSString
}.
End LlmMessage.
Abbreviation LlmMessage := LlmMessage.t.

Module LlmResponse.
Record t : Type := mk {
  content : JSString
}.
End LlmResponse.
Abbreviation LlmResponse := LlmResponse.t.

Module OrchestratorResult.
Record t : Type := mk {
  botResponse : JSValue;
  extractedFields : JSValue;
  isComplete : bool;
  nextField : option JSString
}.
End OrchestratorResult.
Abbreviation OrchestratorResult := OrchestratorResult.t.

(** [class ClientError extends Error] *)
Module ClientError.
Record t : Type := mk {
  message : JSString;
  statusCode : Z;
  errorCode : JSString;
  context : list (JSString * JSValue)
}.
End ClientError.
Abbreviation ClientError := ClientError.t.

(* ================================================================== *)
(** * [validation/validators.ts] *)

Import RegExp.

Definition isEmpty (s : JSString) : bool :=
  match s with [] => true | _ => false end.

(** [[^\s@]] *)
Definition notSpaceNorAt (c : N) : bool :=
  negb (isWhiteSpace c) && negb (c =? ch "@")%N.

(** [/^[^\s@]+@[^\s@]+\.[^\s@]+$/] *)
Definition EMAIL_REGEX : regex :=
  SeqAll [Plus (Class notSpaceNorAt); Chr (ch "@"); Plus (Class notSpaceNorAt);
          Chr (ch "."); Plus (Class notSpaceNorAt)].

(** [[\d\s+\-()]] *)
Definition phoneChar (c : N) : bool :=
  (isDigit c || isWhiteSpace c || (c =? ch "+") || (c =? ch "-")
   || (c =? ch "(") || (c =? ch ")"))%N.

(** [/^[\d\s+\-()]+$/] *)
Definition PHONE_REGEX : regex := Plus (Class phoneChar).

Definition MIN_PHONE_DIGITS : nat := 10.

Definition validateEmail (value : JSString) : ValidationResult :=
  if isEmpty value || isEmpty (trim value) then
    Invalid (str "Invalid email format")
  else if negb (test_anchored EMAIL_REGEX value) then
    Invalid (str "Invalid email format")
  else Valid.

Definition validatePhone (value : JSString) : ValidationResult :=
  if isEmpty value || isEmpty (trim value) then
    Invalid (str "Invalid phone format")
  else
    (* value.replace(/\D/g, '') *)
    let digitsOnly := filter isDigit value in
    if (List.length digitsOnly <? MIN_PHONE_DIGITS)%nat then
      Invalid (str "Invalid phone format")
    else if negb (test_anchored PHONE_REGEX value) then
      Invalid (str "Invalid phone format")
    else Valid.

(** The [{ min?: number; max?: number }] argument of [validateNumber]. *)
Module Bounds.
Record t : Type := mk {
  min : option number;
  max : option number
}.
End Bounds.
Abbreviation Bounds := Bounds.t.

Definition validateNumber {engine : Engine} (value : number) (rules : Bounds)
  : ValidationResult :=
  let checkMax :=
    match Bounds.max rules with
    | Some hi =>
        if num_gt value hi then
          Invalid (str "Number must be at most " ++ Number_toString hi)
        else Valid
    | None => Valid
    end in
  match Bounds.min rules with
  | Some lo =>
      if num_lt value lo then
        Invalid (str "Number must be at least " ++ Number_toString lo)
      else checkMax
  | None => checkMax
  end.

(** [!x] for [x : string | undefined] *)
Definition falsy (x : option JSString) : bool :=
  match x with
  | None => true
  | Some s => isEmpty s
  end.

Definition validateIsoDateParts (dateString : JSString) (dateObj : option Z)
  : ValidationResult :=
  let datePart := nth_error (split (ch "T") dateString) 0 in
  if falsy datePart then Invalid (str "Invalid date format")
  else
    let parts := split (ch "-") (match datePart with Some p => p | None => [] end) in
    if (List.length parts <? 3)%nat || falsy (nth_error parts 0)
       || falsy (nth_error parts 1) || falsy (nth_error parts 2)
    then Invalid (str "Invalid date format")
    else
      let year := parseInt (nth 0 parts []) in
      let month := parseInt (nth 1 parts []) in
      let day := parseInt (nth 2 parts []) in
      (* Use UTC methods to avoid timezone issues *)
      if strict_neq (getUTCFullYear dateObj) year
         || strict_neq (option_map (Z.add 1) (getUTCMonth dateObj)) month
         || strict_neq (getUTCDate dateObj) day
      then Invalid (str "Invalid date format")
      else Valid.

(** [/^\d{4}-\d{2}-\d{2}/] *)
Definition isoFormat : regex :=
  SeqAll [Times 4 (Class isDigit); Chr (ch "-"); Times 2 (Class isDigit);
          Chr (ch "-"); Times 2 (Class isDigit)].

(** The argument type [Date | string] of [validateDate]. *)
Inductive DateOrString : Type :=
| IsDate (d : option Z)
| IsString (s : JSString).

Definition validateDate {engine : Engine} (value : DateOrString) : ValidationResult :=
  if match value with
     | IsString s => isEmpty s || isEmpty (trim s)
     | IsDate _ => false
     end
  then Invalid (str "Invalid date format")
  else
    let dateObj :=
      match value with
      | IsDate d => d
      | IsString s => new_Date s
      end in
    (* Check if date is valid (not NaN) *)
    if isNaN (getTime dateObj) then Invalid (str "Invalid date format")
    else
      match value with
      | IsString s =>
          if test_prefix isoFormat s then validateIsoDateParts s dateObj
          else Valid
      | IsDate _ => Valid
      end.

Definition validateEnum (value : JSString) (options : list JSString)
  : ValidationResult :=
  if negb (existsb (String_eqb value) options) then
    Invalid (str "Value must be one of: " ++ join (str ", ") options)
  else Valid.

(* ================================================================== *)
(** * Exceptions *)

(** What a call can throw: the categorized [ClientError], the TypeError the
    engine raises on a key enumeration of [null] or [undefined] or on a
    conversion that finds no primitive, or whatever the model client
    rejected with. *)
Inductive Thrown : Type :=
| ThrownClientError (e : ClientError)
| ThrownTypeError
| ThrownByClient (reason : JSValue).

Inductive Completion (A : Type) : Type :=
| Return (a : A)
| Throw (e : Thrown).
Arguments Return {A} a.
Arguments Throw {A} e.

Definition bind {A B : Type} (c : Completion A) (k : A -> Completion B)
  : Completion B :=
  match c with
  | Return a => k a
  | Throw e => Throw e
  end.

Notation "x <- c ;; k" := (bind c (fun x => k))
  (at level 61, c at next level, right associativity).

(** An operation of the engine that raises a TypeError where it has no
    result. *)
Definition orTypeError {A : Type} (x : option A) : Completion A :=
  match x with
  | Some a => Return a
  | None => Throw ThrownTypeError
  end.

(** [xs.map(f)] for a callback that can throw: the first element at which it
    throws ends the call. *)
Fixpoint mapM {A B : Type} (f : A -> Completion B) (xs : list A)
  : Completion (list B) :=
  match xs with
  | [] => Return []
  | x :: xs' =>
      y <- f x ;;
      ys <- mapM f xs' ;;
      Return (y :: ys)
  end.

(* ================================================================== *)
(** * [validation/validate-field.ts] *)

(** What the dispatcher imports from [./validators]. *)
Class TypeValidators : Type := {
  importedEmail : JSString -> ValidationResult;
  importedPhone : JSString -> ValidationResult;
  importedNumber : number -> Bounds -> ValidationResult;
  importedDate : DateOrString -> ValidationResult;
  importedEnum : JSString -> list JSString -> ValidationResult
}.

Section Dispatcher.
Context {engine : Engine} {validators : TypeValidators}.

Definition checkRequired (field : FormField) (value : JSValue)
  : option ValidationResult :=
  let isNull := match value with VNull | VUndefined => true | _ => false end in
  if FormField.required field && isNull then
    Some (Invalid (str "Field is required"))
  else if negb (FormField.required field) && isNull then
    Some Valid
  else None. (* Continue with type-specific validation *)

Definition validateNumberField (value : JSValue) (validation : option ValidationRule)
  : Completion ValidationResult :=
  numValue <- match value with
              | VNumber n => Return n
              | _ => orTypeError (ToNumber value)
              end ;;
  let rules :=
    match validation with
    | Some r => Bounds.mk (ValidationRule.min r) (ValidationRule.max r)
    | None => Bounds.mk None None
    end in
  Return (importedNumber numValue rules).

Definition validateDateField (value : JSValue) : ValidationResult :=
  match value with
  | VDate d => importedDate (IsDate d)
  | VString s => importedDate (IsString s)
  | _ => Invalid (str "Invalid date format")
  end.

Definition validateEnumField (value : JSValue) (validation : option ValidationRule)
  : Completion ValidationResult :=
  strValue <- orTypeError (ToString value) ;;
  let options :=
    match validation with
    | Some r => match ValidationRule.options r with Some o => o | None => [] end
    | None => []
    end in
  Return (importedEnum strValue options).

Definition validateFieldWith (field : FormField) (value : JSValue)
  : Completion ValidationResult :=
  (* Check required constraint *)
  match checkRequired field value with
  | Some requiredResult => Return requiredResult
  | None =>
      (* Dispatch to type-specific validators *)
      match FormField.type field with
      | EMAIL => strValue <- orTypeError (ToString value) ;;
                 Return (importedEmail strValue)
      | PHONE => strValue <- orTypeError (ToString value) ;;
                 Return (importedPhone strValue)
      | NUMBER => validateNumberField value (FormField.validation field)
      | DATE => Return (validateDateField value)
      | ENUM => validateEnumField value (FormField.validation field)
      | TEXT | LONG_TEXT => Return Valid
      end
  end.

End Dispatcher.

(** The module [./validators] as the dispatcher imports it. *)
Definition validators_ts {engine : Engine} : TypeValidators := {|
  importedEmail := validateEmail;
  importedPhone := validatePhone;
  importedNumber := validateNumber;
  importedDate := validateDate;
  importedEnum := validateEnum
|}.

(** [validateField] of the source. *)
Definition validateField {engine : Engine} (field : FormField) (value : JSValue)
  : Completion ValidationResult :=
  @validateFieldWith engine validators_ts field value.

(* ================================================================== *)
(** * [JSON.parse]

    A lexer and a stack parser, both by structural recursion on their input.
    Properties are created in the order of the text; [defineProperty] keeps
    the own-property order of an ordinary object: array indices in ascending
    order first, then the other names in creation order, a repeated name
    keeping its place and taking the last value. *)

Module JSON.

Inductive token : Type :=
| TLBrace | TRBrace | TLBracket | TRBracket | TColon | TComma
| TTrue | TFalse | TNull
| TNum (n : number)
| TStr (s : JSString).

Definition isJsonSpace (c : N) : bool :=
  ((c =? 32) || (c =? 9) || (c =? 10) || (c =? 13))%N.

Definition punctuation (c : N) : option token :=
  if (c =? ch "{")%N then Some TLBrace
  else if (c =? ch "}")%N then Some TRBrace
  else if (c =? ch "[")%N then Some TLBracket
  else if (c =? ch "]")%N then Some TRBracket
  else if (c =? ch ":")%N then Some TColon
  else if (c =? ch ",")%N then Some TComma
  else None.

(** A JSON number: an optional minus, an integer part without leading zero,
    an optional fraction with at least one digit, an optional exponent. *)
Definition jsonNumber (w : JSString) : option number :=
  let '(neg, u) :=
    match w with
    | c :: r => if (c =? ch "-")%N then (true, r) else (false, w)
    | [] => (false, w)
    end in
  let '(ip, r1) := span isDigit u in
  match ip with
  | [] => None
  | 48%N :: _ :: _ => None
  | _ =>
      let frac :=
        match r1 with
        | c :: r' =>
            if (c =? ch ".")%N then
              match span isDigit r' with
              | ([], _) => None
              | (fp, r2) => Some (fp, r2)
              end
            else Some ([], r1)
        | [] => Some ([], r1)
        end in
      match frac with
      | None => None
      | Some (fp, r2) =>
          match exponentPart r2 with
          | Some e =>
              Some (number_of_decimal neg (digitsValue (ip ++ fp))
                      (e - Z.of_nat (List.length fp)))
          | None => None
          end
      end
  end.

(** A maximal run of characters that are neither white space, punctuation
    nor a quote: a literal name or a number. *)
Definition wordToken (w : JSString) : option token :=
  if String_eqb w (str "true") then Some TTrue
  else if String_eqb w (str "false") then Some TFalse
  else if String_eqb w (str "null") then Some TNull
  else option_map TNum (jsonNumber w).

Inductive lexState : Type :=
| LStart
| LWord (acc : JSString)
| LString (acc : JSString).

Definition hex4 (a b c d : N) : option N :=
  match radixDigit a, radixDigit b, radixDigit c, radixDigit d with
  | Some x, Some y, Some z, Some t => Some (4096 * x + 256 * y + 16 * z + t)%N
  | _, _, _, _ => None
  end.

Definition simpleEscape (c : N) : option N :=
  if (c =? 34)%N then Some 34%N
  else if (c =? 92)%N then Some 92%N
  else if (c =? ch "/")%N then Some 47%N
  else if (c =? ch "b")%N then Some 8%N
  else if (c =? ch "f")%N then Some 12%N
  else if (c =? ch "n")%N then Some 10%N
  else if (c =? ch "r")%N then Some 13%N
  else if (c =? ch "t")%N then Some 9%N
  else None.

(** [toks] and the accumulators are kept in reverse. *)
Fixpoint lex (st : lexState) (toks : list token) (s : JSString)
  : option (list token) :=
  match st with
  | LStart =>
      match s with
      | [] => Some (rev toks)
      | c :: r =>
          if isJsonSpace c then lex LStart toks r
          else match punctuation c with
               | Some t => lex LStart (t :: toks) r
               | None =>
                   if (c =? 34)%N then lex (LString []) toks r
                   else lex (LWord [c]) toks r
               end
      end
  | LWord acc =>
      match s with
      | [] => option_map (fun t => rev (t :: toks)) (wordToken (rev acc))
      | c :: r =>
          if isJsonSpace c then
            match wordToken (rev acc) with
            | Some t => lex LStart (t :: toks) r
            | None => None
            end
          else match punctuation c with
               | Some p =>
                   match wordToken (rev acc) with
                   | Some t => lex LStart (p :: t :: toks) r
                   | None => None
                   end
               | None =>
                   if (c =? 34)%N then
                     match wordToken (rev acc) with
                     | Some t => lex (LString []) (t :: toks) r
                     | None => None
                     end
                   else lex (LWord (c :: acc)) toks r
               end
      end
  | LString acc =>
      match s with
      | [] => None
      | 34%N :: r => lex LStart (TStr (rev acc) :: toks) r
      | 92%N :: 117%N :: a :: b :: c :: d :: r =>
          match hex4 a b c d with
          | Some u => lex (LString (u :: acc)) toks r
          | None => None
          end
      | 92%N :: e :: r =>
          match simpleEscape e with
          | Some u => lex (LString (u :: acc)) toks r
          | None => None
          end
      | c :: r =>
          if (c <? 32)%N || (c =? 92)%N then None
          else lex (LString (c :: acc)) toks r
      end
  end.

(** A canonical array index: decimal digits without leading zero, below
    [2^32 - 1]. *)
Definition arrayIndex (k : JSString) : option N :=
  match k with
  | [] => None
  | 48%N :: _ :: _ => None
  | _ =>
      if forallb isDigit k && (List.length k <=? 10)%nat
         && (digitsValue k <? 4294967295)%N
      then Some (digitsValue k) else None
  end.

Fixpoint defineIndexed (i : N) (k : JSString) (v : JSValue)
  (props : list (JSString * JSValue)) : list (JSString * JSValue) :=
  match props with
  | [] => [(k, v)]
  | (k', v') :: rest =>
      match arrayIndex k' with
      | Some j =>
          if (j <? i)%N then (k', v') :: defineIndexed i k v rest
          else if (j =? i)%N then (k', v) :: rest
          else (k, v) :: props
      | None => (k, v) :: props
      end
  end.

Fixpoint defineNamed (k : JSString) (v : JSValue)
  (props : list (JSString * JSValue)) : list (JSString * JSValue) :=
  match props with
  | [] => [(k, v)]
  | (k', v') :: rest =>
      if String_eqb k' k then (k', v) :: rest
      else (k', v') :: defineNamed k v rest
  end.

Definition defineProperty (props : list (JSString * JSValue)) (k : JSString)
  (v : JSValue) : list (JSString * JSValue) :=
  match arrayIndex k with
  | Some i => defineIndexed i k v props
  | None => defineNamed k v props
  end.

(** The containers that are still open, innermost first. *)
Inductive frame : Type :=
| FArr (elems : list JSValue)
| FObj (props : list (JSString * JSValue)) (key : JSString).

Inductive parseState : Type :=
| PValue
| PArrStart
| PObjStart
| PObjKey (props : list (JSString * JSValue))
| PObjColon (props : list (JSString * JSValue)) (key : JSString)
| PDone (v : JSValue).

Definition scalar (t : token) : option JSValue :=
  match t with
  | TTrue => Some (VBool true)
  | TFalse => Some (VBool false)
  | TNull => Some VNull
  | TNum n => Some (VNumber n)
  | TStr s => Some (VString s)
  | _ => None
  end.

Fixpoint parseTokens (st : parseState) (stack : list frame) (toks : list token)
  : option JSValue :=
  match toks with
  | [] =>
      match st, stack with
      | PDone v, [] => Some v
      | _, _ => None
      end
  | t :: rest =>
      match st with
      | PValue | PArrStart =>
          match t with
          | TLBracket => parseTokens PArrStart (FArr [] :: stack) rest
          | TLBrace => parseTokens PObjStart stack rest
          | TRBracket =>
              match st, stack with
              | PArrStart, FArr [] :: stack' =>
                  parseTokens (PDone (VArray [])) stack' rest
              | _, _ => None
              end
          | _ =>
              match scalar t with
              | Some v => parseTokens (PDone v) stack rest
              | None => None
              end
          end
      | PObjStart =>
          match t with
          | TRBrace => parseTokens (PDone (VObject [])) stack rest
          | TStr k => parseTokens (PObjColon [] k) stack rest
          | _ => None
          end
      | PObjKey props =>
          match t with
          | TStr k => parseTokens (PObjColon props k) stack rest
          | _ => None
          end
      | PObjColon props k =>
          match t with
          | TColon => parseTokens PValue (FObj props k :: stack) rest
          | _ => None
          end
      | PDone v =>
          match stack, t with
          | FArr elems :: stack', TComma =>
              parseTokens PValue (FArr (v :: elems) :: stack') rest
          | FArr elems :: stack', TRBracket =>
              parseTokens (PDone (VArray (rev (v :: elems)))) stack' rest
          | FObj props k :: stack', TComma =>
              parseTokens (PObjKey (defineProperty props k v)) stack' rest
          | FObj props k :: stack', TRBrace =>
              parseTokens (PDone (VObject (defineProperty props k v))) stack' rest
          | _, _ => None
          end
      end
  end.

(** [JSON.parse(text)]; [None] is the SyntaxError. *)
Definition parse (text : JSString) : option JSValue :=
  match lex LStart [] text with
  | Some toks => parseTokens PValue [] toks
  | None => None
  end.

End JSON.

(** A literal in which ['] stands for the double quote. *)
Definition qstr (s : string) : JSString :=
  map (fun c => if (c =? 39)%N then 34%N else c) (str s).

(* ================================================================== *)
(** * The world outside the orchestrator *)

(** The injected model client.  It may keep state of its own between calls
    ([S]); a call settles with a response or a rejection. *)
Record LlmClient (S : Type) : Type := {
  complete : list LlmMessage -> S -> Completion LlmResponse * S
}.
Arguments complete {S} _ _ _.

(** What an invocation can observe besides its arguments: the state of the
    client and the clock read by [new Date()]. *)
Record World (S : Type) : Type := {
  clientState : S;
  clock : Z
}.
Arguments clientState {S} _.
Arguments clock {S} _.

(* ================================================================== *)
(** * [orchestrator/prompt-builder.ts] and [orchestrator/orchestrator.ts] *)

(** [new Set(xs)] with [has]; [new Map(entries)] with [get], where a later
    entry replaces an earlier one of the same key. *)
Definition Set_has (s : list JSString) (x : JSString) : bool :=
  existsb (String_eqb x) s.

Definition Map_get {V : Type} (m : list (JSString * V)) (k : JSString) : option V :=
  option_map snd (find (fun e => String_eqb (fst e) k) (rev m)).

Definition buildConversationHistory (session : Session) : list LlmMessage :=
  map (fun turn =>
         LlmMessage.mk
           (match SessionTurn.role turn with USER => user | ASSISTANT => assistant end)
           (SessionTurn.content turn))
      (Session.turns session).

(** [[...fields].sort((a, b) => a.order - b.order)]: the sort is stable. *)
Fixpoint insertByOrder (f : FormField) (l : list FormField) : list FormField :=
  match l with
  | [] => [f]
  | g :: l' =>
      if (FormField.order f <=? FormField.order g)%Z then f :: l
      else g :: insertByOrder f l'
  end.

Definition sortByOrder (l : list FormField) : list FormField :=
  fold_right insertByOrder [] l.

Definition determineNextField (form : FormDefinition) (session : Session)
  : option JSString :=
  let collectedFieldIds := map SessionField.fieldId (Session.fields session) in
  (* Find first required field not yet collected (respecting order) *)
  let sortedFields := sortByOrder (FormDefinition.fields form) in
  option_map FormField.name
    (find (fun field =>
             FormField.required field
             && negb (Set_has collectedFieldIds (FormField.id field)))
          sortedFields).

Definition FieldType_name (t : FieldType) : JSString :=
  match t with
  | TEXT => str "TEXT"
  | EMAIL => str "EMAIL"
  | PHONE => str "PHONE"
  | NUMBER => str "NUMBER"
  | DATE => str "DATE"
  | ENUM => str "ENUM"
  | LONG_TEXT => str "LONG_TEXT"
  end.

Definition nl : JSString := [10%N].

(** [x ? `...${x}` : ''] for an optional string [x] *)
Definition whenTruthy (x : option JSString) (k : JSString -> JSString) : JSString :=
  match x with
  | Some (c :: s) => k (c :: s)
  | _ => []
  end.

Definition buildSystemPrompt {engine : Engine} (form : FormDefinition)
  (session : Session) : Completion JSString :=
  let formInfo :=
    str "Form: " ++ FormDefinition.name form
    ++ whenTruthy (FormDefinition.description form)
         (fun d => nl ++ str "Description: " ++ d) in
  let fieldsInfo :=
    join nl
      (map (fun field =>
              str "- " ++ FormField.label field ++ str " ("
              ++ FormField.name field ++ str ", "
              ++ FieldType_name (FormField.type field) ++ str ")"
              ++ (if FormField.required field then str " [REQUIRED]"
                  else str " [OPTIONAL]")
              ++ whenTruthy (FormField.description field) (fun d => str ": " ++ d))
           (FormDefinition.fields form)) in
  collectedInfo <-
    match Session.fields session with
    | [] => Return []
    | fs =>
        collected <-
          mapM (fun sf =>
                  text <- match SessionField.value sf with
                          | VNull => Return (str "null")
                          | v => orTypeError (ToString v)
                          end ;;
                  Return (str "- " ++ SessionField.fieldId sf ++ str ": " ++ text))
               fs ;;
        Return (nl ++ nl ++ str "Already Collected:" ++ nl ++ join nl collected)
    end ;;
  Return (
  str "You are a conversational form assistant collecting information for the following form:"
  ++ nl ++ nl
  ++ formInfo ++ nl ++ nl
  ++ str "Fields to collect:" ++ nl
  ++ fieldsInfo ++ collectedInfo ++ nl ++ nl
  ++ str "Your task:" ++ nl
  ++ str "1. Extract any field values mentioned in the user's message" ++ nl
  ++ str "2. Respond naturally and ask for the next missing required field" ++ nl
  ++ str "3. Return your response in JSON format:" ++ nl ++ nl
  ++ str "{" ++ nl
  ++ qstr "  'botResponse': 'Your natural language response to the user'," ++ nl
  ++ qstr "  'extractedFields': {" ++ nl
  ++ qstr "    'fieldName': 'extractedValue'" ++ nl
  ++ str "  }" ++ nl
  ++ str "}" ++ nl ++ nl
  ++ str "Important:" ++ nl
  ++ str "- Only extract fields that are explicitly mentioned in the form definition" ++ nl
  ++ str "- Use exact field names from the form definition" ++ nl
  ++ str "- If no new fields can be extracted, return empty extractedFields object" ++ nl).

(** [!parsed] *)
Definition falsyValue (v : JSValue) : bool :=
  match v with
  | VUndefined | VNull => true
  | VBool b => negb b
  | VNumber (S754_zero _) | VNumber S754_nan => true
  | VString [] => true
  | _ => false
  end.

(** [typeof v === 'object'] *)
Definition typeofObject (v : JSValue) : bool :=
  match v with
  | VNull | VDate _ | VArray _ | VObject _ => true
  | _ => false
  end.

(** [v[k]] for a name [k] that no prototype defines and that is not an array
    index: an own property of an ordinary object, [undefined] elsewhere. *)
Definition getNamed (k : JSString) (v : JSValue) : JSValue :=
  match v with
  | VObject props =>
      match find (fun e => String_eqb (fst e) k) props with
      | Some (_, x) => x
      | None => VUndefined
      end
  | _ => VUndefined
  end.

(** [k in v], for the same names *)
Definition hasNamed (k : JSString) (v : JSValue) : bool :=
  match v with
  | VObject props => existsb (fun e => String_eqb (fst e) k) props
  | _ => false
  end.

(** The object [parseExtractedFields] returns, by its two properties. *)
Module ParsedResponse.
Record t : Type := mk {
  botResponse : JSValue;
  extractedFields : JSValue
}.
End ParsedResponse.
Abbreviation ParsedResponse := ParsedResponse.t.

Section Orchestrator.
Context {engine : Engine}.

Definition parseExtractedFields (llmResponse : JSString) (form : FormDefinition)
  : Completion ParsedResponse :=
  match JSON.parse llmResponse with
  | None =>
      Throw (ThrownClientError
               (ClientError.mk (str "LLM returned invalid JSON") 400
                  (str "INVALID_LLM_RESPONSE")
                  [(str "response", VString llmResponse);
                   (str "parseError", VString (SyntaxError_message llmResponse))]))
  | Some parsed =>
      (* Type guard for expected structure *)
      if falsyValue parsed
         || negb (typeofObject parsed)
         || negb (hasNamed (str "botResponse") parsed)
         || negb (hasNamed (str "extractedFields") parsed)
      then
        Throw (ThrownClientError
                 (ClientError.mk
                    (str "LLM response missing required fields (botResponse, extractedFields)")
                    400 (str "INVALID_LLM_RESPONSE")
                    [(str "response", VString llmResponse)]))
      else
        let response :=
          ParsedResponse.mk (getNamed (str "botResponse") parsed)
                            (getNamed (str "extractedFields") parsed) in
        (* Validate all extracted fields exist in form definition *)
        let validFieldNames := map FormField.name (FormDefinition.fields form) in
        match Object.keys (ParsedResponse.extractedFields response) with
        | None => Throw ThrownTypeError
        | Some names =>
            match find (fun fieldName => negb (Set_has validFieldNames fieldName)) names with
            | Some fieldName =>
                Throw (ThrownClientError
                         (ClientError.mk (str "Field not in form definition") 400
                            (str "UNKNOWN_FIELD")
                            [(str "fieldName", VString fieldName);
                             (str "formId", VString (FormDefinition.id form))]))
            | None => Return response
            end
        end
  end.

(** [form.fields.find((f) => f.name === name)] *)
Definition findByName (form : FormDefinition) (name : JSString) : option FormField :=
  find (fun f => String_eqb (FormField.name f) name) (FormDefinition.fields form).

(** [names.map(...?.id).filter(id => id !== undefined)] *)
Definition idsOfNames (form : FormDefinition) (names : list JSString) : list JSString :=
  flat_map (fun name =>
              match findByName form name with
              | Some f => [FormField.id f]
              | None => []
              end) names.

Definition isFormComplete (form : FormDefinition) (session : Session)
  (extractedFields : JSValue) : Completion bool :=
  let existingFieldIds := map SessionField.fieldId (Session.fields session) in
  match Object.keys extractedFields with
  | None => Throw ThrownTypeError
  | Some names =>
      let newFieldIds := idsOfNames form names in
      let allCollectedFieldIds := existingFieldIds ++ newFieldIds in
      let requiredFields := filter FormField.required (FormDefinition.fields form) in
      Return (forallb (fun f => Set_has allCollectedFieldIds (FormField.id f))
                      requiredFields)
  end.

(** [new Map(form.fields.map((f) => [f.name, f]))] *)
Definition fieldMap (form : FormDefinition) : list (JSString * FormField) :=
  map (fun f => (FormField.name f, f)) (FormDefinition.fields form).

(** The loop of [runLlmStep] over [Object.entries(extractedFields)]. *)
Fixpoint validateExtracted (form : FormDefinition)
  (fieldMap : list (JSString * FormField))
  (entries : list (JSString * JSValue)) : Completion unit :=
  match entries with
  | [] => Return tt
  | (fieldName, fieldValue) :: rest =>
      match Map_get fieldMap fieldName with
      | None => Throw ThrownTypeError
      | Some fieldDef =>
          validationResult <- validateField fieldDef fieldValue ;;
          match validationResult with
          | Invalid error =>
              Throw (ThrownClientError
                       (ClientError.mk error 400 (str "VALIDATION_ERROR")
                          [(str "fieldName", VString fieldName);
                           (str "value", fieldValue);
                           (str "formId", VString (FormDefinition.id form))]))
          | Valid => validateExtracted form fieldMap rest
          end
      end
  end.

(** [Object.entries(extractedFields).map(([name, value]) => ({ fieldId:
    form.fields.find((f) => f.name === name)!.id, value, collectedAt: new
    Date() }))] *)
Fixpoint hypotheticalFields (form : FormDefinition) (now : Z)
  (entries : list (JSString * JSValue)) : Completion (list SessionField) :=
  match entries with
  | [] => Return []
  | (name, value) :: rest =>
      match findByName form name with
      | None => Throw ThrownTypeError
      | Some f =>
          more <- hypotheticalFields form now rest ;;
          Return (SessionField.mk (FormField.id f) value (Some now) :: more)
      end
  end.

Definition entriesOf (v : JSValue) : Completion (list (JSString * JSValue)) :=
  match Object.entries v with
  | Some es => Return es
  | None => Throw ThrownTypeError
  end.

(** Everything [runLlmStep] does once the model client has answered. *)
Definition afterCompletion (form : FormDefinition) (session : Session)
  (now : Z) (llmResponse : LlmResponse) : Completion OrchestratorResult :=
  (* Parse and validate response *)
  response <- parseExtractedFields (LlmResponse.content llmResponse) form ;;
  let botResponse := ParsedResponse.botResponse response in
  let extractedFields := ParsedResponse.extractedFields response in
  (* Validate extracted field values *)
  entries <- entriesOf extractedFields ;;
  _ <- validateExtracted form (fieldMap form) entries ;;
  (* Determine if form is complete *)
  complete <- isFormComplete form session extractedFields ;;
  (* Determine next field *)
  added <- (es <- entriesOf extractedFields ;; hypotheticalFields form now es) ;;
  let hypotheticalSession :=
    Session.mk (Session.id session) (Session.formId session)
      (Session.status session) (Session.turns session)
      (Session.fields session ++ added)
      (Session.startedAt session) (Session.completedAt session) in
  let nextField :=
    if complete then None else determineNextField form hypotheticalSession in
  Return (OrchestratorResult.mk botResponse extractedFields complete nextField).

(** The [messages] array that [runLlmStep] builds for the model client. *)
Definition messages (form : FormDefinition) (session : Session)
  (userMessage : JSString) : Completion (list LlmMessage) :=
  (* Build system prompt with form context *)
  systemPrompt <- buildSystemPrompt form session ;;
  (* Build conversation history from session turns *)
  let conversationHistory := buildConversationHistory session in
  (* Build complete message array for LLM *)
  Return ([LlmMessage.mk system systemPrompt]
          ++ conversationHistory
          ++ [LlmMessage.mk user userMessage]).

Definition runLlmStep {S : Type} (form : FormDefinition) (session : Session)
  (userMessage : JSString) (llmClient : LlmClient S) (w : World S)
  : Completion OrchestratorResult * World S :=
  match messages form session userMessage with
  | Throw e => (Throw e, w)
  | Return msgs =>
      (* Call LLM *)
      let '(settled, s') := complete llmClient msgs (clientState w) in
      let w' := {| clientState := s'; clock := clock w |} in
      (llmResponse <- settled ;; afterCompletion form session (clock w) llmResponse, w')
  end.

End Orchestrator.

(* ================================================================== *)
(** * Vocabulary of the statements *)

(** The part of [s] before the first [sep]. *)
Definition upto (sep : N) (s : JSString) : JSString :=
  fst (span (fun c => negb (c =? sep)%N) s).

(** A character that is neither white space nor [@]. *)
Definition plainChar (c : N) : Prop := isWhiteSpace c = false /\ c <> ch "@".

(** The shape [local-part@domain.tld]: a non-empty run of plain characters,
    an [@], and a domain portion made of two non-empty runs of plain
    characters around a [.]. *)
Definition emailShape (value : JSString) : Prop :=
  exists localPart domain tld : JSString,
    value = localPart ++ [ch "@"] ++ domain ++ [ch "."] ++ tld
    /\ localPart <> [] /\ domain <> [] /\ tld <> []
    /\ Forall plainChar localPart /\ Forall plainChar domain /\ Forall plainChar tld.

(** The shape [YYYY-MM-DD...]: what [/^\d{4}-\d{2}-\d{2}/] tests. *)
Definition isoShaped (s : JSString) : Prop :=
  exists y1 y2 y3 y4 m1 m2 d1 d2 rest,
    s = [y1; y2; y3; y4; ch "-"; m1; m2; ch "-"; d1; d2] ++ rest
    /\ forallb isDigit [y1; y2; y3; y4; m1; m2; d1; d2] = true.

(** The year, month and day digits of a string of that shape, as numbers:
    four digits, two digits, and the two day digits with any digits that
    follow them. *)
Definition isoYear (y1 y2 y3 y4 : N) : Z := Z.of_N (digitsValue [y1; y2; y3; y4]).
Definition isoMonth (m1 m2 : N) : Z := Z.of_N (digitsValue [m1; m2]).
Definition isoDay (d1 d2 : N) (rest : JSString) : Z :=
  Z.of_N (digitsValue ([d1; d2] ++ fst (span isDigit rest))).

(** The completion union: the identifiers of the session's collected fields
    together with the identifiers of the fields that the extracted names
    designate in the form. *)
Definition collectedOrExtracted (form : FormDefinition) (session : Session)
  (names : list JSString) (fid : JSString) : Prop :=
  In fid (map SessionField.fieldId (Session.fields session))
  \/ exists (name : JSString) (g : FormField),
       In name names /\ findByName form name = Some g /\ FormField.id g = fid.

(** [a] does not come after [b] by [order]. *)
Definition orderLe (a b : FormField) : Prop :=
  (FormField.order a <= FormField.order b)%Z.

(** The fields of a form in display order: sorted by [order], fields of equal
    [order] in the order of their declaration. *)
Definition inDisplayOrder (fields sorted : list FormField) : Prop :=
  Permutation sorted fields
  /\ Sorted orderLe sorted
  /\ forall k : Z,
       filter (fun f => (FormField.order f =? k)%Z) sorted
       = filter (fun f => (FormField.order f =? k)%Z) fields.

(** A required field whose identifier is absent from the completion union. *)
Definition stillMissing (form : FormDefinition) (session : Session)
  (names : list JSString) (f : FormField) : Prop :=
  FormField.required f = true
  /\ ~ collectedOrExtracted form session names (FormField.id f).

(** The four client errors of the orchestrator, as the source builds them. *)
Definition invalidJsonError {engine : Engine} (llmResponse : JSString) : ClientError :=
  ClientError.mk (str "LLM returned invalid JSON") 400 (str "INVALID_LLM_RESPONSE")
    [(str "response", VString llmResponse);
     (str "parseError", VString (SyntaxError_message llmResponse))].

Definition missingKeysError (llmResponse : JSString) : ClientError :=
  ClientError.mk
    (str "LLM response missing required fields (botResponse, extractedFields)")
    400 (str "INVALID_LLM_RESPONSE") [(str "response", VString llmResponse)].

Definition unknownFieldError (fieldName : JSString) (form : FormDefinition) : ClientError :=
  ClientError.mk (str "Field not in form definition") 400 (str "UNKNOWN_FIELD")
    [(str "fieldName", VString fieldName);
     (str "formId", VString (FormDefinition.id form))].

Definition validationError (reason fieldName : JSString) (value : JSValue)
  (form : FormDefinition) : ClientError :=
  ClientError.mk reason 400 (str "VALIDATION_ERROR")
    [(str "fieldName", VString fieldName);
     (str "value", value);
     (str "formId", VString (FormDefinition.id form))].

(** A model client is deterministic when what it settles with depends on
    the messages only, not on its own state. *)
Definition deterministic {S : Type} (llmClient : LlmClient S) : Prop :=
  forall (msgs : list LlmMessage) (s1 s2 : S),
    fst (complete llmClient msgs s1) = fst (complete llmClient msgs s2).

(* ================================================================== *)
(** * A sample engine and a sample client, for closed examples *)

(** Date-only strings [YYYY-MM-DD], read as UTC midnight; like V8, a day up
    to 31 is accepted in every month and rolls over into the next one. *)
Definition sampleDateParse (s : JSString) : option Z :=
  match s with
  | [y1; y2; y3; y4; 45%N; m1; m2; 45%N; d1; d2] =>
      if forallb isDigit [y1; y2; y3; y4; m1; m2; d1; d2] then
        let y := Z.of_N (digitsValue [y1; y2; y3; y4]) in
        let m := Z.of_N (digitsValue [m1; m2]) in
        let d := Z.of_N (digitsValue [d1; d2]) in
        if ((1 <=? m) && (m <=? 12) && (1 <=? d) && (d <=? 31))%Z
        then Some (MakeDay y (m - 1) d * msPerDay)%Z else None
      else None
  | _ => None
  end.

Definition decimalOfN (n : N) : JSString := str (NilEmpty.string_of_uint (N.to_uint n)).

(** The exact decimal expansion of a double. *)
Definition sampleNumberToString (x : number) : JSString :=
  match x with
  | S754_nan => str "NaN"
  | S754_infinity s => (if s then str "-" else []) ++ str "Infinity"
  | S754_zero _ => str "0"
  | S754_finite s m e =>
      (if s then str "-" else []) ++
      match e with
      | Zneg k =>
          let scaled := (Npos m * 5 ^ Npos k)%N in
          let unit := (10 ^ Npos k)%N in
          let frac := decimalOfN (scaled mod unit) in
          let padded := repeat 48%N (Pos.to_nat k - List.length frac) ++ frac in
          let digits := rev (snd (span (N.eqb 48) (rev padded))) in
          decimalOfN (scaled / unit)
          ++ (match digits with [] => [] | _ => str "." ++ digits end)
      | _ => decimalOfN (Npos m * 2 ^ Z.to_N e)%N
      end
  end.

Definition sampleEngine : Engine := {|
  Date_parse := sampleDateParse;
  Number_toString := sampleNumberToString;
  Date_toString := fun d =>
    match d with
    | None => str "Invalid Date"
    | Some t => str "Date(" ++ sampleNumberToString (number_of_Z t) ++ str ")"
    end;
  SyntaxError_message := fun _ => str "Unexpected token"
|}.

(** A client without state that always answers with the same text. *)
Definition constantClient (text : JSString) : LlmClient unit := {|
  complete := fun _ s => (Return (LlmResponse.mk text), s)
|}.

Definition sampleWorld : World unit := {| clientState := tt; clock := 1705276800000 |}.

(** A field whose label is its name and that has no constraints. *)
Definition plainField (id name : string) (type : FieldType) (required : bool)
  (order : Z) : FormField :=
  FormField.mk (str id) (str name) (str name) type required None order None.

(** A form with two required fields and an optional one, declared out of
    display order. *)
Definition contactForm : FormDefinition :=
  FormDefinition.mk (str "form1") (str "Contact Form") None
    [plainField "f-email" "email" EMAIL true 1;
     plainField "f-name" "name" TEXT true 0;
     plainField "f-notes" "notes" LONG_TEXT false 2]
    None None.

Definition emptyForm : FormDefinition :=
  FormDefinition.mk (str "empty-form") (str "Empty Form") None [] None None.

Definition optionalForm : FormDefinition :=
  FormDefinition.mk (str "optional-form") (str "Optional Fields Form") None
    [plainField "f-notes" "notes" TEXT false 0] None None.

Definition ageField : FormField :=
  FormField.mk (str "f-age") (str "age") (str "Age") NUMBER true
    (Some (ValidationRule.mk (Some (number_of_Z 18)) (Some (number_of_Z 120)) None None))
    0 None.

Definition emailField : FormField := plainField "f-email" "email" EMAIL true 1.

Definition signupForm : FormDefinition :=
  FormDefinition.mk (str "form2") (str "Signup Form") None
    [ageField; emailField] None None.

Definition newSession : Session :=
  Session.mk (str "session1") (str "form1") ACTIVE [] [] None None.

Definition sessionWithName : Session :=
  Session.mk (str "session1") (str "form1") ACTIVE
    [SessionTurn.mk USER (str "My name is John") None;
     SessionTurn.mk ASSISTANT (str "Thanks John! What is your email?") None]
    [SessionField.mk (str "f-name") (VString (str "John")) None]
    None None.

(* ================================================================== *)
(** * Vocabulary of further statements *)

(** A character a phone number may hold: a digit, white space, or one of
    [+], [-], [(] and [)]. *)
Definition phoneCharacter (c : N) : Prop :=
  isDigit c = true \/ isWhiteSpace c = true
  \/ c = ch "+" \/ c = ch "-" \/ c = ch "(" \/ c = ch ")".

(** The bounds and the options a field declares, as the dispatcher reads
    them: an absent rule set declares none. *)
Definition numberBounds (field : FormField) : option number * option number :=
  match FormField.validation field with
  | Some r => (ValidationRule.min r, ValidationRule.max r)
  | None => (None, None)
  end.

Definition enumOptions (field : FormField) : list JSString :=
  match FormField.validation field with
  | Some r => match ValidationRule.options r with Some o => o | None => [] end
  | None => []
  end.

(** The failure reasons a field of a given type can produce for a value that
    is present. *)
Definition typeReason {engine : Engine} (field : FormField) (reason : JSString) : Prop :=
  match FormField.type field with
  | TEXT | LONG_TEXT => False
  | EMAIL => reason = str "Invalid email format"
  | PHONE => reason = str "Invalid phone format"
  | NUMBER =>
      (exists lo, fst (numberBounds field) = Some lo
                  /\ reason = str "Number must be at least " ++ Number_toString lo)
      \/ (exists hi, snd (numberBounds field) = Some hi
                     /\ reason = str "Number must be at most " ++ Number_toString hi)
  | DATE => reason = str "Invalid date format"
  | ENUM => reason = str "Value must be one of: " ++ join (str ", ") (enumOptions field)
  end.

(** The number of days of month [m] (1 to 12) of year [y]. *)
Definition daysInMonth (y m : Z) : Z :=
  match m with
  | 2 => if (DaysInYear y =? 366)%Z then 29 else 28
  | 4 | 6 | 9 | 11 => 30
  | _ => 31
  end%Z.

(** The required fields of the form that a session has not collected. *)
Definition missingFields (form : FormDefinition) (session : Session) : list FormField :=
  filter (fun f =>
            FormField.required f
            && negb (Set_has (map SessionField.fieldId (Session.fields session))
                             (FormField.id f)))
         (FormDefinition.fields form).

(** The session with one more collected field, as a caller appends it. *)
Definition collect (session : Session) (added : SessionField) : Session :=
  Session.mk (Session.id session) (Session.formId session) (Session.status session)
    (Session.turns session) (Session.fields session ++ [added])
    (Session.startedAt session) (Session.completedAt session).

(** [a] occurs in [s] as a run of consecutive characters. *)
Definition isInfix (a s : JSString) : Prop :=
  exists before after : JSString, s = before ++ a ++ after.

(** How the prompt presents a field: its name and type in parentheses, then
    the required marker. *)
Definition fieldDescriptor (field : FormField) : JSString :=
  str " (" ++ FormField.name field ++ str ", "
  ++ FieldType_name (FormField.type field) ++ str ")"
  ++ (if FormField.required field then str " [REQUIRED]" else str " [OPTIONAL]").

(** Further sample data. *)
Definition sizeField : FormField :=
  FormField.mk (str "f-size") (str "size") (str "Size") ENUM true
    (Some (ValidationRule.mk None None None
             (Some [str "S"; str "M"; str "L"; str "XL"])))
    0 None.

(** The contact form with its fields declared in another order. *)
Definition contactFormReordered : FormDefinition :=
  FormDefinition.mk (str "form1") (str "Contact Form") None
    [plainField "f-notes" "notes" LONG_TEXT false 2;
     plainField "f-name" "name" TEXT true 0;
     plainField "f-email" "email" EMAIL true 1]
    None None.

(* ================================================================== *)
(** * Facts about the runtime model *)

Module RegExpFacts.
Import RegExp.

Lemma matches_Never_inv s : ~ matches Never s.
Proof. intro H; inversion H. Qed.

Lemma matches_Empty_inv s : matches Empty s -> s = [].
Proof. intro H; inversion H; reflexivity. Qed.

Lemma matches_Class_inv p s : matches (Class p) s -> exists c, s = [c] /\ p c = true.
Proof. intro H; inversion H; subst; eauto. Qed.

Lemma matches_Seq_inv r1 r2 s :
  matches (Seq r1 r2) s ->
  exists s1 s2, s = s1 ++ s2 /\ matches r1 s1 /\ matches r2 s2.
Proof. intro H; inversion H; subst; eauto. Qed.

Lemma matches_Alt_inv r1 r2 s :
  matches (Alt r1 r2) s -> matches r1 s \/ matches r2 s.
Proof. intro H; inversion H; subst; auto. Qed.

Lemma matches_nullable r : matches r [] <-> nullable r = true.
Proof.
  induction r; simpl.
  - split; [intro H; inversion H | discriminate].
  - split; [reflexivity | constructor].
  - split; [intro H; inversion H | discriminate].
  - rewrite andb_true_iff, <- IHr1, <- IHr2. split.
    + intro H. apply matches_Seq_inv in H as (s1 & s2 & E & H1 & H2).
      symmetry in E. apply app_eq_nil in E as [-> ->]. auto.
    + intros [H1 H2]. exact (MSeq H1 H2).
  - rewrite orb_true_iff, <- IHr1, <- IHr2. split.
    + apply matches_Alt_inv.
    + intros [H | H]; [apply MAltL | apply MAltR]; exact H.
  - split; [reflexivity | constructor].
Qed.

Lemma matches_mkSeq a b s : matches (mkSeq a b) s <-> matches (Seq a b) s.
Proof.
  destruct a; simpl; try tauto.
  - split; intro H.
    + inversion H.
    + apply matches_Seq_inv in H as (s1 & s2 & _ & H1 & _). inversion H1.
  - split; intro H.
    + exact (MSeq MEmpty H).
    + apply matches_Seq_inv in H as (s1 & s2 & -> & H1 & H2).
      apply matches_Empty_inv in H1. subst. exact H2.
Qed.

Lemma matches_mkAlt a b s : matches (mkAlt a b) s <-> matches (Alt a b) s.
Proof.
  assert (L : matches b s <-> matches (Alt Never b) s).
  { split; [apply MAltR | intro H; apply matches_Alt_inv in H as [H | H];
                          [inversion H | exact H]]. }
  assert (R : matches a s <-> matches (Alt a Never) s).
  { split; [apply MAltL | intro H; apply matches_Alt_inv in H as [H | H];
                          [exact H | inversion H]]. }
  destruct a; simpl; try exact L; destruct b; simpl; try exact R; tauto.
Qed.

Lemma matches_Star_cons r c s :
  matches (Star r) (c :: s) ->
  exists s1 s2, s = s1 ++ s2 /\ matches r (c :: s1) /\ matches (Star r) s2.
Proof.
  intro H. remember (Star r) as r0 eqn:Er. remember (c :: s) as w eqn:Ew.
  revert r c s Er Ew.
  induction H; intros r' c' s' Er Ew; try discriminate.
  injection Er as ->.
  destruct s1 as [| x s1].
  - simpl in Ew. eapply IHmatches2; eauto.
  - simpl in Ew. injection Ew as -> <-. eauto.
Qed.

Lemma matches_deriv c r s : matches (deriv c r) s <-> matches r (c :: s).
Proof.
  revert s. induction r; intro s; simpl.
  - split; intro H; inversion H.
  - split; intro H; inversion H.
  - destruct (p c) eqn:Ep.
    + split; intro H.
      * apply matches_Empty_inv in H. subst. constructor. exact Ep.
      * apply matches_Class_inv in H as (x & E & _). injection E as _ ->. constructor.
    + split; intro H.
      * inversion H.
      * apply matches_Class_inv in H as (x & E & Hx). injection E as -> _. congruence.
  - assert (Hl : forall t, matches (mkSeq (deriv c r1) r2) t ->
                           matches (Seq r1 r2) (c :: t)).
    { intros t H. apply matches_mkSeq in H.
      apply matches_Seq_inv in H as (s1 & s2 & -> & H1 & H2).
      apply IHr1 in H1. exact (MSeq H1 H2). }
    assert (Hr : forall t, matches (Seq r1 r2) (c :: t) ->
                           matches (mkSeq (deriv c r1) r2) t
                           \/ (nullable r1 = true /\ matches (deriv c r2) t)).
    { intros t H. apply matches_Seq_inv in H as (s1 & s2 & E & H1 & H2).
      destruct s1 as [| x s1]; simpl in E.
      - right. subst s2. split; [apply matches_nullable; exact H1 | apply IHr2; exact H2].
      - injection E as <- ->. left. apply matches_mkSeq.
        apply MSeq; [apply IHr1; exact H1 | exact H2]. }
    destruct (nullable r1) eqn:En.
    + rewrite matches_mkAlt. split; intro H.
      * apply matches_Alt_inv in H as [H | H]; [exact (Hl _ H) |].
        apply IHr2 in H. apply matches_nullable in En.
        exact (MSeq En H).
      * apply Hr in H as [H | [_ H]]; [apply MAltL | apply MAltR]; exact H.
    + split; intro H; [exact (Hl _ H) |].
      apply Hr in H as [H | [E _]]; [exact H | discriminate].
  - rewrite matches_mkAlt. split; intro H.
    + apply matches_Alt_inv in H as [H | H];
        [apply MAltL; apply IHr1 | apply MAltR; apply IHr2]; exact H.
    + apply matches_Alt_inv in H as [H | H];
        [apply MAltL; apply IHr1 | apply MAltR; apply IHr2]; exact H.
  - rewrite matches_mkSeq. split; intro H.
    + apply matches_Seq_inv in H as (s1 & s2 & -> & H1 & H2).
      apply IHr in H1. exact (MStarS H1 H2).
    + apply matches_Star_cons in H as (s1 & s2 & -> & H1 & H2).
      apply MSeq; [apply IHr; exact H1 | exact H2].
Qed.

Lemma test_anchored_spec r s : test_anchored r s = true <-> matches r s.
Proof.
  revert r. induction s as [| c s IH]; intro r; simpl.
  - symmetry. apply matches_nullable.
  - rewrite IH. apply matches_deriv.
Qed.

Lemma test_prefix_spec r s :
  test_prefix r s = true <-> exists p q, s = p ++ q /\ matches r p.
Proof.
  revert r. induction s as [| c s IH]; intro r; simpl.
  - rewrite orb_false_r, <- matches_nullable. split.
    + intro H. exists [], []. auto.
    + intros (p & q & E & H). symmetry in E. apply app_eq_nil in E as [-> _]. exact H.
  - rewrite orb_true_iff, <- matches_nullable, IH. split.
    + intros [H | (p & q & -> & H)].
      * exists [], (c :: s). auto.
      * exists (c :: p), q. split; [reflexivity | apply matches_deriv; exact H].
    + intros (p & q & E & H). destruct p as [| x p]; [left; exact H |].
      simpl in E. injection E as <- ->. right.
      exists p, q. split; [reflexivity | apply matches_deriv; exact H].
Qed.

(** One or more characters of a class. *)
Lemma matches_Star_Class p s : matches (Star (Class p)) s <-> Forall (fun c => p c = true) s.
Proof.
  split.
  - induction s as [| c s IH]; intro H; [constructor |].
    apply matches_Star_cons in H as (s1 & s2 & -> & H1 & H2).
    apply matches_Class_inv in H1 as (x & E & Hx).
    injection E as -> E. symmetry in E. subst s1. simpl in *.
    constructor; auto.
  - induction 1 as [| c s Hc _ IH]; [constructor |].
    exact (MStarS (MClass p c Hc) IH).
Qed.

Lemma matches_Plus_Class p s :
  matches (Plus (Class p)) s <-> s <> [] /\ Forall (fun c => p c = true) s.
Proof.
  unfold Plus. split.
  - intro H. apply matches_Seq_inv in H as (s1 & s2 & -> & H1 & H2).
    apply matches_Class_inv in H1 as (x & -> & Hx).
    apply matches_Star_Class in H2. split; [discriminate | constructor; assumption].
  - intros [Hne H]. destruct s as [| c s]; [contradiction |].
    inversion H; subst.
    exact (MSeq (MClass p c H2) (proj2 (matches_Star_Class p s) H3)).
Qed.

Lemma matches_Chr c s : matches (Chr c) s <-> s = [c].
Proof.
  unfold Chr. split.
  - intro H. apply matches_Class_inv in H as (x & -> & Hx).
    apply N.eqb_eq in Hx. subst. reflexivity.
  - intros ->. constructor. apply N.eqb_refl.
Qed.

End RegExpFacts.

Lemma isEmpty_true (s : JSString) : isEmpty s = true <-> s = [].
Proof. destruct s; simpl; split; congruence. Qed.

Lemma isEmpty_false (s : JSString) : isEmpty s = false <-> s <> [].
Proof. destruct s; simpl; split; congruence. Qed.

Lemma String_eqb_eq (a b : JSString) : String_eqb a b = true <-> a = b.
Proof.
  revert b. induction a as [| x a IH]; intros [| y b]; simpl;
    try (split; congruence).
  rewrite andb_true_iff, N.eqb_eq, IH. split.
  - intros [-> ->]. reflexivity.
  - intro E. injection E as -> ->. auto.
Qed.

Lemma String_eqb_refl (a : JSString) : String_eqb a a = true.
Proof. apply String_eqb_eq. reflexivity. Qed.

Lemma String_eqb_neq (a b : JSString) : String_eqb a b = false <-> a <> b.
Proof.
  rewrite <- String_eqb_eq. destruct (String_eqb a b); split; congruence.
Qed.

Lemma Set_has_In (s : list JSString) (x : JSString) : Set_has s x = true <-> In x s.
Proof.
  unfold Set_has. rewrite existsb_exists. split.
  - intros (y & Hy & E). apply String_eqb_eq in E. subst. exact Hy.
  - intro H. exists x. split; [exact H | apply String_eqb_refl].
Qed.

(* ================================================================== *)
(** * The email validator *)

Lemma notSpaceNorAt_plain (c : N) : notSpaceNorAt c = true <-> plainChar c.
Proof.
  unfold notSpaceNorAt, plainChar.
  rewrite andb_true_iff, !negb_true_iff, N.eqb_neq. tauto.
Qed.

Lemma Forall_notSpaceNorAt (s : JSString) :
  Forall (fun c => notSpaceNorAt c = true) s <-> Forall plainChar s.
Proof.
  split; intro H; eapply Forall_impl; try exact H;
    intros c Hc; apply notSpaceNorAt_plain; exact Hc.
Qed.

Lemma EMAIL_REGEX_shape (value : JSString) :
  RegExp.matches EMAIL_REGEX value <-> emailShape value.
Proof.
  unfold EMAIL_REGEX, emailShape. simpl RegExp.SeqAll. split.
  - intro H.
    apply RegExpFacts.matches_Seq_inv in H as (a & r1 & -> & Ha & H).
    apply RegExpFacts.matches_Seq_inv in H as (at_ & r2 & -> & Hat & H).
    apply RegExpFacts.matches_Seq_inv in H as (b & r3 & -> & Hb & H).
    apply RegExpFacts.matches_Seq_inv in H as (dot & c & -> & Hdot & Hc).
    apply RegExpFacts.matches_Chr in Hat, Hdot. subst.
    apply RegExpFacts.matches_Plus_Class in Ha as [Ha1 Ha2].
    apply RegExpFacts.matches_Plus_Class in Hb as [Hb1 Hb2].
    apply RegExpFacts.matches_Plus_Class in Hc as [Hc1 Hc2].
    exists a, b, c. rewrite <- !Forall_notSpaceNorAt. auto 10.
  - intros (a & b & c & -> & Ha & Hb & Hc & Fa & Fb & Fc).
    rewrite <- Forall_notSpaceNorAt in Fa, Fb, Fc.
    repeat apply RegExp.MSeq;
      try (apply RegExpFacts.matches_Chr; reflexivity);
      apply RegExpFacts.matches_Plus_Class; auto.
Qed.

Lemma trim_nil : trim [] = [].
Proof. reflexivity. Qed.

(** C7. For every string, the email validator succeeds exactly when the
    trimmed value is non-empty and the value has the shape
    local-part@domain.tld (a non-empty run of characters that are neither
    white space nor [@] before the [@], and after it two such runs around a
    [.]); every other string fails with exactly "Invalid email format".  The
    strings "user@example.com" and "user+tag@example.com" succeed, and
    "userexample.com", "user@", "@example.com" and the empty string fail with
    that message. *)
Theorem validateEmail_exact :
  forall value : JSString,
    (validateEmail value = Valid <-> (trim value <> [] /\ emailShape value))
    /\ (validateEmail value = Valid
        \/ validateEmail value = Invalid (str "Invalid email format"))
    /\ validateEmail (str "user@example.com") = Valid
    /\ validateEmail (str "user+tag@example.com") = Valid
    /\ validateEmail (str "userexample.com") = Invalid (str "Invalid email format")
    /\ validateEmail (str "user@") = Invalid (str "Invalid email format")
    /\ validateEmail (str "@example.com") = Invalid (str "Invalid email format")
    /\ validateEmail (str "") = Invalid (str "Invalid email format").
Proof.
  intro value.
  split; [| split; [| repeat split; vm_compute; reflexivity]].
  - unfold validateEmail.
    destruct (isEmpty value) eqn:E1; simpl.
    + apply isEmpty_true in E1. subst. rewrite trim_nil.
      split; [discriminate | intros [H _]; contradiction].
    + destruct (isEmpty (trim value)) eqn:E2; simpl.
      * apply isEmpty_true in E2. split; [discriminate | intros [H _]; contradiction].
      * apply isEmpty_false in E2.
        destruct (RegExp.test_anchored EMAIL_REGEX value) eqn:E3; simpl.
        -- apply RegExpFacts.test_anchored_spec, EMAIL_REGEX_shape in E3. tauto.
        -- split; [discriminate |]. intros [_ H].
           apply EMAIL_REGEX_shape, RegExpFacts.test_anchored_spec in H. congruence.
  - unfold validateEmail.
    destruct (isEmpty value || isEmpty (trim value)); [right; reflexivity |].
    destruct (RegExp.test_anchored EMAIL_REGEX value); simpl; auto.
Qed.

(* ================================================================== *)
(** * The validation dispatcher *)

Lemma checkRequired_absent (field : FormField) (value : JSValue) :
  value = VNull \/ value = VUndefined ->
  checkRequired field value =
  Some (if FormField.required field then Invalid (str "Field is required") else Valid).
Proof.
  intros [-> | ->]; unfold checkRequired; destruct (FormField.required field);
    reflexivity.
Qed.

Lemma checkRequired_present (field : FormField) (value : JSValue) :
  value <> VNull -> value <> VUndefined -> checkRequired field value = None.
Proof.
  intros H1 H2. unfold checkRequired.
  destruct value; try contradiction; rewrite !andb_false_r; reflexivity.
Qed.

(** C5. For every field, the dispatcher applied to an absent value ([null] or
    [undefined]) fails with exactly "Field is required" when the field is
    required and succeeds when it is optional; this holds whatever the
    type-specific validators are (so none of them is consulted and none of
    their failure reasons can come out), and in particular for the
    dispatcher wired to the validators of the source. *)
Theorem validateField_absent_value :
  forall (engine : Engine) (validators : TypeValidators) (field : FormField),
    let expected :=
      if FormField.required field then Invalid (str "Field is required") else Valid in
    validateFieldWith field VNull = Return expected
    /\ validateFieldWith field VUndefined = Return expected
    /\ validateField field VNull = Return expected
    /\ validateField field VUndefined = Return expected.
Proof.
  intros engine validators field expected.
  unfold validateField, validateFieldWith.
  rewrite !checkRequired_absent by auto.
  repeat split; reflexivity.
Qed.

(* ================================================================== *)
(** * NUMBER fields and values that do not coerce to a number *)

Lemma num_lt_NaN_l (x : number) : num_lt NaN x = false.
Proof. destruct x; reflexivity. Qed.

Lemma num_gt_NaN_l (x : number) : num_gt NaN x = false.
Proof. destruct x; reflexivity. Qed.

Lemma validateNumber_NaN (engine : Engine) (rules : Bounds) :
  validateNumber NaN rules = Valid.
Proof.
  unfold validateNumber.
  destruct (Bounds.min rules), (Bounds.max rules);
    rewrite ?num_lt_NaN_l, ?num_gt_NaN_l; reflexivity.
Qed.

(** C9. For every NUMBER field, whatever its min/max constraints, a string
    value whose numeric coercion is NaN validates successfully: the bound
    comparisons against NaN are all false.  "abc" is such a string. *)
Theorem validateField_NUMBER_non_numeric_string :
  forall (engine : Engine) (field : FormField) (s : JSString),
    FormField.type field = NUMBER ->
    StringToNumber s = NaN ->
    validateField field (VString s) = Return Valid
    /\ ToNumber (VString (str "abc")) = Some NaN.
Proof.
  intros engine field s Ht Hs. split; [| reflexivity].
  unfold validateField, validateFieldWith.
  rewrite checkRequired_present by discriminate.
  rewrite Ht. unfold validateNumberField. cbn [ToNumber orTypeError bind]. rewrite Hs.
  f_equal. apply validateNumber_NaN.
Qed.

(* ================================================================== *)
(** * Splitting and reading numbers out of a string *)

Lemma split_head (sep : N) (s : JSString) :
  exists tl, split sep s = upto sep s :: tl.
Proof.
  unfold upto. induction s as [| c s (tl & IH)]; simpl.
  - eauto.
  - destruct (c =? sep)%N; simpl; [eauto |].
    rewrite IH. destruct (span _ s). simpl. eauto.
Qed.

Lemma split_app_sep (sep : N) (a b : JSString) :
  Forall (fun c => c <> sep) a ->
  split sep (a ++ sep :: b) = a :: split sep b.
Proof.
  induction 1 as [| c a Hc _ IH]; simpl.
  - rewrite N.eqb_refl. reflexivity.
  - apply N.eqb_neq in Hc. rewrite Hc, IH. reflexivity.
Qed.

Lemma upto_app (sep : N) (a b : JSString) :
  Forall (fun c => c <> sep) a -> upto sep (a ++ b) = a ++ upto sep b.
Proof.
  unfold upto. induction 1 as [| c a Hc _ IH]; simpl; [reflexivity |].
  apply N.eqb_neq in Hc. rewrite Hc. simpl.
  destruct (span _ (a ++ b)). simpl in *. rewrite IH. reflexivity.
Qed.

Lemma span_app_all (p : N -> bool) (a b : JSString) :
  forallb p a = true -> fst (span p (a ++ b)) = a ++ fst (span p b).
Proof.
  induction a as [| c a IH]; simpl; [reflexivity |].
  rewrite andb_true_iff. intros [-> H].
  destruct (span p (a ++ b)) eqn:E. simpl. rewrite <- (IH H). reflexivity.
Qed.

(** A run of [p]-characters stops before any separator that is not one. *)
Lemma span_upto (p : N -> bool) (sep : N) (s : JSString) :
  p sep = false -> fst (span p (upto sep s)) = fst (span p s).
Proof.
  intro Hsep. unfold upto. induction s as [| c s IH]; simpl; [reflexivity |].
  destruct (c =? sep)%N eqn:Ec; simpl.
  - apply N.eqb_eq in Ec. subst. rewrite Hsep. reflexivity.
  - destruct (span (fun c0 => negb (c0 =? sep)%N) s) as [u v] eqn:E1. simpl in *.
    destruct (p c); [| reflexivity].
    destruct (span p u) eqn:E2, (span p s) eqn:E3. simpl in *. congruence.
Qed.

Lemma span_nil_r (p : N -> bool) (a : JSString) :
  forallb p a = true -> span p a = (a, []).
Proof.
  induction a as [| c a IH]; simpl; [reflexivity |].
  rewrite andb_true_iff. intros [-> H]. rewrite (IH H). reflexivity.
Qed.

Lemma isDigit_range (c : N) : isDigit c = true <-> (48 <= c <= 57)%N.
Proof. unfold isDigit. rewrite andb_true_iff, !N.leb_le. tauto. Qed.

Lemma isDigit_not_space (c : N) : isDigit c = true -> isWhiteSpace c = false.
Proof.
  rewrite isDigit_range. intro H. unfold isWhiteSpace.
  repeat (apply orb_false_intro); try (apply N.eqb_neq; lia).
  apply andb_false_intro1. apply N.leb_gt. lia.
Qed.

Lemma isDigit_neq (c x : N) : isDigit c = true -> (x < 48 \/ 57 < x)%N -> c <> x.
Proof. rewrite isDigit_range. lia. Qed.

(** [parseInt] on a string that starts with a digit reads its leading digits. *)
Lemma parseInt_digits (c : N) (s : JSString) :
  isDigit c = true ->
  parseInt (c :: s) = Some (Z.of_N (digitsValue (fst (span isDigit (c :: s))))).
Proof.
  intro Hc. unfold parseInt. simpl trimStart.
  rewrite (isDigit_not_space _ Hc).
  assert (E1 : (c =? ch "-")%N = false).
  { apply N.eqb_neq, isDigit_neq; [exact Hc | vm_compute; left; reflexivity]. }
  assert (E2 : (c =? ch "+")%N = false).
  { apply N.eqb_neq, isDigit_neq; [exact Hc | vm_compute; left; reflexivity]. }
  rewrite E1, E2. simpl. rewrite Hc.
  destruct (span isDigit s). reflexivity.
Qed.

Lemma trimStart_nil (s : JSString) :
  trimStart s = [] -> forallb isWhiteSpace s = true.
Proof.
  induction s as [| c s IH]; simpl; [reflexivity |].
  destruct (isWhiteSpace c); [exact IH | discriminate].
Qed.

(** A string with a character that is not white space does not trim to the
    empty string. *)
Lemma trim_not_empty (s : JSString) (c : N) :
  In c s -> isWhiteSpace c = false -> trim s <> [].
Proof.
  intros Hin Hc E. unfold trim, trimEnd in E.
  assert (E' : trimStart (rev (trimStart s)) = []).
  { destruct (trimStart (rev (trimStart s))) as [| x l]; [reflexivity |].
    simpl in E. destruct (rev l); discriminate. }
  apply trimStart_nil in E'. rewrite forallb_forall in E'.
  assert (Hin' : In c (trimStart s)).
  { clear E E'. induction s as [| x s IH]; simpl in *; [contradiction |].
    destruct Hin as [-> | Hin].
    - rewrite Hc. left. reflexivity.
    - destruct (isWhiteSpace x); [apply IH; exact Hin | right; exact Hin]. }
  apply in_rev in Hin'. apply E' in Hin'. congruence.
Qed.

(* ================================================================== *)
(** * The date validator *)

Lemma isoFormat_shaped (s : JSString) :
  RegExp.test_prefix isoFormat s = true <-> isoShaped s.
Proof.
  rewrite RegExpFacts.test_prefix_spec. unfold isoFormat, isoShaped.
  simpl RegExp.SeqAll. simpl RegExp.Times. split.
  - intros (p & q & -> & H).
    repeat match goal with
           | H : RegExp.matches (RegExp.Seq _ _) _ |- _ =>
               apply RegExpFacts.matches_Seq_inv in H as (? & ? & -> & ? & ?)
           | H : RegExp.matches (RegExp.Class _) _ |- _ =>
               apply RegExpFacts.matches_Class_inv in H as (? & -> & ?)
           | H : RegExp.matches (RegExp.Chr _) _ |- _ =>
               apply RegExpFacts.matches_Chr in H; subst
           | H : RegExp.matches RegExp.Empty _ |- _ =>
               apply RegExpFacts.matches_Empty_inv in H; subst
           end.
    simpl. do 8 eexists. exists q. split; [reflexivity |].
    cbn [forallb].
    repeat match goal with H : isDigit _ = true |- _ => rewrite H; clear H end.
    reflexivity.
  - intros (y1 & y2 & y3 & y4 & m1 & m2 & d1 & d2 & rest & -> & H).
    simpl in H. rewrite !andb_true_iff in H.
    destruct H as (Hy1 & Hy2 & Hy3 & Hy4 & Hm1 & Hm2 & Hd1 & Hd2 & _).
    exists [y1; y2; y3; y4; ch "-"; m1; m2; ch "-"; d1; d2], rest.
    split; [reflexivity |].
    change [y1; y2; y3; y4; ch "-"; m1; m2; ch "-"; d1; d2]
      with (([y1] ++ [y2] ++ [y3] ++ [y4] ++ []) ++ [ch "-"]
            ++ ([m1] ++ [m2] ++ []) ++ [ch "-"] ++ ([d1] ++ [d2] ++ [])).
    repeat first
      [ apply RegExp.MSeq
      | apply RegExp.MEmpty
      | apply RegExpFacts.matches_Chr; reflexivity
      | apply RegExp.MClass; assumption ].
Qed.

Section IsoParts.
Variables y1 y2 y3 y4 m1 m2 d1 d2 : N.
Variable rest : JSString.
Hypothesis digits : forallb isDigit [y1; y2; y3; y4; m1; m2; d1; d2] = true.

Lemma validateIsoDateParts_shaped (dateObj : option Z) :
  validateIsoDateParts
    ([y1; y2; y3; y4; ch "-"; m1; m2; ch "-"; d1; d2] ++ rest) dateObj
  = if strict_neq (getUTCFullYear dateObj) (Some (isoYear y1 y2 y3 y4))
       || strict_neq (option_map (Z.add 1) (getUTCMonth dateObj)) (Some (isoMonth m1 m2))
       || strict_neq (getUTCDate dateObj) (Some (isoDay d1 d2 rest))
    then Invalid (str "Invalid date format") else Valid.
Proof.
  simpl in digits. rewrite !andb_true_iff in digits.
  destruct digits as (Hy1 & Hy2 & Hy3 & Hy4 & Hm1 & Hm2 & Hd1 & Hd2 & _).
  assert (NT : forall c, isDigit c = true -> c <> ch "T").
  { intros c Hc. apply isDigit_neq; [exact Hc | vm_compute; right; reflexivity]. }
  assert (ND : forall c, isDigit c = true -> c <> ch "-").
  { intros c Hc. apply isDigit_neq; [exact Hc | vm_compute; left; reflexivity]. }
  unfold validateIsoDateParts.
  destruct (split_head (ch "T") ([y1; y2; y3; y4; ch "-"; m1; m2; ch "-"; d1; d2] ++ rest))
    as (tl & ->).
  rewrite upto_app.
  2:{ repeat constructor; auto; vm_compute; discriminate. }
  cbn [nth_error falsy app isEmpty].
  change (y1 :: y2 :: y3 :: y4 :: ch "-" :: m1 :: m2 :: ch "-" :: d1 :: d2 :: upto (ch "T") rest)
    with ([y1; y2; y3; y4] ++ ch "-" :: [m1; m2] ++ ch "-" :: [d1; d2] ++ upto (ch "T") rest).
  rewrite !split_app_sep by (repeat constructor; auto).
  destruct (split_head (ch "-") ([d1; d2] ++ upto (ch "T") rest)) as (tl' & ->).
  rewrite upto_app by (repeat constructor; auto).
  cbn [List.length Nat.ltb Nat.leb nth_error falsy app isEmpty orb nth].
  rewrite !parseInt_digits by assumption.
  rewrite (span_nil_r isDigit [y1; y2; y3; y4]) by (simpl; rewrite Hy1, Hy2, Hy3, Hy4; reflexivity).
  rewrite (span_nil_r isDigit [m1; m2]) by (simpl; rewrite Hm1, Hm2; reflexivity).
  change (d1 :: d2 :: upto (ch "-") (upto (ch "T") rest))
    with ([d1; d2] ++ upto (ch "-") (upto (ch "T") rest)).
  rewrite span_app_all by (simpl; rewrite Hd1, Hd2; reflexivity).
  rewrite !span_upto by reflexivity.
  reflexivity.
Qed.

Lemma validateDate_shaped (engine : Engine) :
  let s := [y1; y2; y3; y4; ch "-"; m1; m2; ch "-"; d1; d2] ++ rest in
  validateDate (IsString s) =
  match new_Date s with
  | None => Invalid (str "Invalid date format")
  | Some t =>
      if ((YearFromTime t =? isoYear y1 y2 y3 y4) && (MonthFromTime t + 1 =? isoMonth m1 m2)
          && (DateFromTime t =? isoDay d1 d2 rest))%Z
      then Valid else Invalid (str "Invalid date format")
  end.
Proof.
  intro s. unfold validateDate.
  assert (Hy1 : isDigit y1 = true).
  { simpl in digits. apply andb_true_iff in digits. tauto. }
  assert (E : isEmpty (trim s) = false).
  { apply isEmpty_false. apply trim_not_empty with (c := y1).
    - left. reflexivity.
    - apply isDigit_not_space. exact Hy1. }
  assert (E0 : isEmpty s = false) by reflexivity.
  rewrite E, E0. cbn [orb].
  destruct (new_Date s) as [t |] eqn:Ed; [| reflexivity].
  cbn [isNaN getTime].
  rewrite (proj2 (isoFormat_shaped s)).
  2:{ unfold isoShaped. do 8 eexists. exists rest. split; [reflexivity | exact digits]. }
  unfold s. rewrite validateIsoDateParts_shaped.
  cbn [getUTCFullYear getUTCMonth getUTCDate option_map strict_neq].
  destruct (YearFromTime t =? _)%Z, (1 + MonthFromTime t =? _)%Z eqn:Em,
    (DateFromTime t =? _)%Z; rewrite Z.add_comm, Em; reflexivity.
Qed.

End IsoParts.

Lemma validateDate_unparsed (engine : Engine) (s : JSString) :
  new_Date s = None -> validateDate (IsString s) = Invalid (str "Invalid date format").
Proof.
  intro H. unfold validateDate.
  destruct (isEmpty s || isEmpty (trim s)); [reflexivity |].
  rewrite H. reflexivity.
Qed.

(** February has 29 days at most, whatever the time value. *)
Lemma February_at_most_29 (t : Z) :
  MonthFromTime t = 1%Z -> (DateFromTime t <= 29)%Z.
Proof.
  unfold DateFromTime. intro H. rewrite H. revert H.
  unfold MonthFromTime.
  assert (L : (0 <= InLeapYear t <= 1)%Z).
  { unfold InLeapYear. destruct (DaysInYear _ =? 366)%Z; lia. }
  repeat match goal with
         | |- context [(?a <? ?b)%Z] => destruct (Z.ltb_spec a b)
         end; intro Hm; try discriminate; lia.
Qed.

(** C6. For every string of the shape YYYY-MM-DD followed by anything, the
    date validator succeeds exactly when the string parses to a date whose
    UTC year, month and day equal the year, month and day digits read back
    from the string, and otherwise fails with "Invalid date format"; a string
    that does not parse to a date fails with the same message.  "2024-02-30"
    fails on every engine (whether it is refused or rolled forward into
    March), "not-a-date" fails when the engine does not parse it, and
    "2024-01-15" succeeds when the engine reads it as midnight UTC of that
    day. *)
Theorem validateDate_iso_parts :
  forall engine : Engine,
    (forall (y1 y2 y3 y4 m1 m2 d1 d2 : N) (rest : JSString),
        forallb isDigit [y1; y2; y3; y4; m1; m2; d1; d2] = true ->
        let s := [y1; y2; y3; y4; ch "-"; m1; m2; ch "-"; d1; d2] ++ rest in
        (validateDate (IsString s) = Valid <->
         exists t : Z,
           new_Date s = Some t
           /\ YearFromTime t = isoYear y1 y2 y3 y4
           /\ (MonthFromTime t + 1)%Z = isoMonth m1 m2
           /\ DateFromTime t = isoDay d1 d2 rest)
        /\ (validateDate (IsString s) = Valid
            \/ validateDate (IsString s) = Invalid (str "Invalid date format")))
    /\ (forall s : JSString,
          new_Date s = None ->
          validateDate (IsString s) = Invalid (str "Invalid date format"))
    /\ validateDate (IsString (str "2024-02-30")) = Invalid (str "Invalid date format")
    /\ (Date_parse (str "not-a-date") = None ->
        validateDate (IsString (str "not-a-date")) = Invalid (str "Invalid date format"))
    /\ (Date_parse (str "2024-01-15") = Some (MakeDay 2024 0 15 * msPerDay)%Z ->
        validateDate (IsString (str "2024-01-15")) = Valid).
Proof.
  intro engine. repeat split.
  - rewrite validateDate_shaped by assumption.
    destruct (new_Date _) as [t |]; [| discriminate].
    destruct (YearFromTime t =? _)%Z eqn:E1; [| discriminate].
    destruct (MonthFromTime t + 1 =? _)%Z eqn:E2; [| discriminate].
    destruct (DateFromTime t =? _)%Z eqn:E3; [| discriminate].
    intros _. exists t. rewrite Z.eqb_eq in E1, E2, E3. auto.
  - intros (t & Ht & E1 & E2 & E3).
    rewrite validateDate_shaped by assumption. rewrite Ht.
    rewrite <- Z.eqb_eq in E1, E2, E3. rewrite E1, E2, E3. reflexivity.
  - rewrite validateDate_shaped by assumption.
    destruct (new_Date _) as [t |]; [| right; reflexivity].
    destruct (_ && _)%bool; auto.
  - apply validateDate_unparsed.
  - change (str "2024-02-30")
      with ([50; 48; 50; 52; ch "-"; 48; 50; ch "-"; 51; 48] ++ [])%N.
    rewrite validateDate_shaped by reflexivity.
    destruct (new_Date _) as [t |]; [| reflexivity].
    destruct (MonthFromTime t + 1 =? isoMonth 48 50)%Z eqn:E2;
      [| rewrite andb_false_r; reflexivity].
    destruct (DateFromTime t =? isoDay 51 48 [])%Z eqn:E3;
      [| rewrite andb_false_r; reflexivity].
    exfalso. apply Z.eqb_eq in E2, E3.
    assert (Hm : MonthFromTime t = 1%Z) by (change (isoMonth 48 50) with 2%Z in E2; lia).
    apply February_at_most_29 in Hm.
    change (isoDay 51 48 []) with 30%Z in E3. lia.
  - intro H. apply validateDate_unparsed. unfold new_Date. rewrite H. reflexivity.
  - intro H. unfold validateDate, new_Date. rewrite H. reflexivity.
Qed.

(* ================================================================== *)
(** * Completion and the next field *)

Lemma In_idsOfNames (form : FormDefinition) (names : list JSString) (fid : JSString) :
  In fid (idsOfNames form names) <->
  exists (name : JSString) (g : FormField),
    In name names /\ findByName form name = Some g /\ FormField.id g = fid.
Proof.
  unfold idsOfNames. rewrite in_flat_map. split.
  - intros (name & Hin & H). destruct (findByName form name) as [g |] eqn:E.
    + destruct H as [<- | []]. eauto.
    + destruct H.
  - intros (name & g & Hin & E & <-). exists name. rewrite E. simpl. auto.
Qed.

Lemma Set_has_union (form : FormDefinition) (session : Session)
  (names : list JSString) (fid : JSString) :
  Set_has (map SessionField.fieldId (Session.fields session) ++ idsOfNames form names) fid = true
  <-> collectedOrExtracted form session names fid.
Proof.
  rewrite Set_has_In, in_app_iff, In_idsOfNames. reflexivity.
Qed.

(** Under the data model's invariant that names are unique within a form, the
    field a name designates is the field of the form that bears it. *)
Lemma findByName_unique (form : FormDefinition) (name : JSString) (g : FormField) :
  NoDup (map FormField.name (FormDefinition.fields form)) ->
  (findByName form name = Some g <->
   In g (FormDefinition.fields form) /\ FormField.name g = name).
Proof.
  unfold findByName. induction (FormDefinition.fields form) as [| f l IH];
    simpl; intro ND.
  - split; [discriminate | tauto].
  - inversion ND as [| ? ? Hnot ND']; subst.
    destruct (String_eqb (FormField.name f) name) eqn:E.
    + apply String_eqb_eq in E. split.
      * intro H. injection H as <-. auto.
      * intros [[-> | Hin] Hn]; [reflexivity |].
        exfalso. apply Hnot. rewrite E, <- Hn. apply in_map. exact Hin.
    + apply String_eqb_neq in E. rewrite (IH ND'). split.
      * tauto.
      * intros [[-> | Hin] Hn]; [contradiction | auto].
Qed.

(** C1. For every form, session and map of extracted values, the completion
    flag is computed (no exception), and it is true if and only if the
    identifier of every required field lies in the completion union; a form
    with no fields, or with optional fields only, is complete whatever the
    session and the extraction.  When the names are unique within the form,
    the fields that the extracted names designate are the fields of the form
    whose name is a key of the map. *)
Theorem isFormComplete_iff_required_in_union :
  forall (form : FormDefinition) (session : Session)
         (extracted : list (JSString * JSValue)),
    let flag := isFormComplete form session (VObject extracted) in
    (flag = Return true \/ flag = Return false)
    /\ (flag = Return true <->
        forall f : FormField,
          In f (FormDefinition.fields form) ->
          FormField.required f = true ->
          collectedOrExtracted form session (map fst extracted) (FormField.id f))
    /\ (FormDefinition.fields form = [] -> flag = Return true)
    /\ ((forall f : FormField,
            In f (FormDefinition.fields form) -> FormField.required f = false) ->
        flag = Return true)
    /\ (NoDup (map FormField.name (FormDefinition.fields form)) ->
        (flag = Return true <->
         forall f : FormField,
           In f (FormDefinition.fields form) ->
           FormField.required f = true ->
           In (FormField.id f) (map SessionField.fieldId (Session.fields session))
           \/ exists g : FormField,
                In g (FormDefinition.fields form)
                /\ In (FormField.name g) (map fst extracted)
                /\ FormField.id g = FormField.id f)).
Proof.
  intros form session extracted flag.
  unfold flag, isFormComplete.
  change (Object.keys (VObject extracted)) with (Some (map fst extracted)).
  cbv beta iota zeta.
  set (all := map SessionField.fieldId (Session.fields session)
              ++ idsOfNames form (map fst extracted)).
  assert (Hiff : forallb (fun f => Set_has all (FormField.id f))
                         (filter FormField.required (FormDefinition.fields form)) = true
                 <-> forall f, In f (FormDefinition.fields form) ->
                               FormField.required f = true ->
                               collectedOrExtracted form session (map fst extracted)
                                                    (FormField.id f)).
  { rewrite forallb_forall. split.
    - intros H f Hin Hreq. apply Set_has_union. apply H.
      apply filter_In. auto.
    - intros H f Hin. apply filter_In in Hin as [Hin Hreq].
      apply Set_has_union. auto. }
  assert (Hflag : forall b : bool, Return b = Return true <-> b = true).
  { intro b. split; [intro H; injection H as H; exact H | intros ->; reflexivity]. }
  split; [destruct (forallb _ _); auto |].
  split; [rewrite Hflag; exact Hiff |].
  split; [intro E; rewrite E; reflexivity |].
  split.
  - intro Hopt. f_equal. apply Hiff. intros f Hin Hreq.
    rewrite (Hopt f Hin) in Hreq. discriminate.
  - intro ND. rewrite Hflag, Hiff. unfold collectedOrExtracted.
    split; intros H f Hin Hreq; destruct (H f Hin Hreq) as [Hs | Hx]; auto; right.
    + destruct Hx as (name & g & Hname & Hfind & Hid).
      apply (findByName_unique form name g ND) in Hfind as [Hg <-]. eauto.
    + destruct Hx as (g & Hg & Hname & Hid).
      exists (FormField.name g), g. repeat split; auto.
      apply (findByName_unique form (FormField.name g) g ND). auto.
Qed.

(** ** The stable sort by display order *)

Lemma insertByOrder_perm (f : FormField) (l : list FormField) :
  Permutation (insertByOrder f l) (f :: l).
Proof.
  induction l as [| g l IH]; simpl; [reflexivity |].
  destruct (FormField.order f <=? FormField.order g)%Z; [reflexivity |].
  rewrite IH. apply perm_swap.
Qed.

Lemma sortByOrder_perm (l : list FormField) : Permutation (sortByOrder l) l.
Proof.
  induction l as [| f l IH]; simpl; [reflexivity |].
  rewrite insertByOrder_perm. apply perm_skip. exact IH.
Qed.

Lemma insertByOrder_sorted (f : FormField) (l : list FormField) :
  Sorted orderLe l -> Sorted orderLe (insertByOrder f l).
Proof.
  induction 1 as [| g l Hs IH Hhd]; simpl.
  - repeat constructor.
  - destruct (Z.leb_spec (FormField.order f) (FormField.order g)) as [Hle | Hlt].
    + constructor; [constructor; assumption | constructor; exact Hle].
    + constructor; [exact IH |].
      destruct l as [| h l]; simpl.
      * constructor. unfold orderLe. lia.
      * destruct (FormField.order f <=? FormField.order h)%Z;
          constructor; unfold orderLe; [lia |].
        inversion Hhd; assumption.
Qed.

Lemma sortByOrder_sorted (l : list FormField) : Sorted orderLe (sortByOrder l).
Proof.
  induction l as [| f l IH]; simpl; [constructor |].
  apply insertByOrder_sorted. exact IH.
Qed.

(** Stability: fields of equal order keep the order of the declaration. *)
Lemma sortByOrder_stable (k : Z) (l : list FormField) :
  filter (fun f => (FormField.order f =? k)%Z) (sortByOrder l)
  = filter (fun f => (FormField.order f =? k)%Z) l.
Proof.
  induction l as [| f l IH]; simpl; [reflexivity |].
  rewrite <- IH. generalize (sortByOrder l) as s. clear IH.
  induction s as [| g s IHs]; simpl; [reflexivity |].
  destruct (Z.leb_spec (FormField.order f) (FormField.order g)) as [Hle | Hlt].
  - reflexivity.
  - simpl. rewrite IHs.
    destruct (Z.eqb_spec (FormField.order f) k) as [Ef | Ef];
      destruct (Z.eqb_spec (FormField.order g) k) as [Eg | Eg];
      try reflexivity; lia.
Qed.

(** [find] returns the first element that satisfies the test. *)
Lemma find_first {A : Type} (p : A -> bool) (l : list A) (x : A) :
  find p l = Some x ->
  exists before after,
    l = before ++ x :: after /\ p x = true
    /\ forall y, In y before -> p y = false.
Proof.
  induction l as [| a l IH]; simpl; [discriminate |].
  destruct (p a) eqn:Ea.
  - intro H. injection H as ->. exists [], l. simpl. tauto.
  - intro H. destruct (IH H) as (before & after & -> & Hx & Hb).
    exists (a :: before), after. simpl. repeat split; auto.
    intros y [<- | Hy]; auto.
Qed.

(** ** What a successful turn went through *)

Lemma bind_Return {A B : Type} (c : Completion A) (k : A -> Completion B) (b : B) :
  bind c k = Return b -> exists a, c = Return a /\ k a = Return b.
Proof. destruct c; simpl; [eauto | discriminate]. Qed.

Lemma entries_keys (v : JSValue) (es : list (JSString * JSValue)) :
  Object.entries v = Some es -> Object.keys v = Some (map fst es).
Proof. unfold Object.keys. intros ->. reflexivity. Qed.

Lemma hypotheticalFields_ids (form : FormDefinition) (now : Z)
  (es : list (JSString * JSValue)) (added : list SessionField) :
  hypotheticalFields form now es = Return added ->
  map SessionField.fieldId added = idsOfNames form (map fst es).
Proof.
  revert added. induction es as [| [name value] es IH]; simpl; intros added H.
  - injection H as <-. reflexivity.
  - destruct (findByName form name) as [f |]; [| discriminate].
    apply bind_Return in H as (more & Hmore & H). injection H as <-.
    simpl. rewrite (IH _ Hmore). reflexivity.
Qed.

(** A successful turn, step by step. *)
Lemma afterCompletion_Return (engine : Engine) (form : FormDefinition)
  (session : Session) (now : Z) (llmResponse : LlmResponse)
  (result : OrchestratorResult) :
  afterCompletion form session now llmResponse = Return result ->
  exists (response : ParsedResponse) (es : list (JSString * JSValue)),
    parseExtractedFields (LlmResponse.content llmResponse) form = Return response
    /\ Object.entries (ParsedResponse.extractedFields response) = Some es
    /\ validateExtracted form (fieldMap form) es = Return tt
    /\ let all := map SessionField.fieldId (Session.fields session)
                  ++ idsOfNames form (map fst es) in
       let missing := fun f =>
         FormField.required f && negb (Set_has all (FormField.id f)) in
       result =
       OrchestratorResult.mk
         (ParsedResponse.botResponse response)
         (ParsedResponse.extractedFields response)
         (forallb (fun f => Set_has all (FormField.id f))
                  (filter FormField.required (FormDefinition.fields form)))
         (if forallb (fun f => Set_has all (FormField.id f))
                     (filter FormField.required (FormDefinition.fields form))
          then None
          else option_map FormField.name
                 (find missing (sortByOrder (FormDefinition.fields form)))).
Proof.
  unfold afterCompletion. intro H.
  apply bind_Return in H as (response & Hparse & H).
  apply bind_Return in H as (es & Hes & H).
  apply bind_Return in H as ([] & Hval & H).
  apply bind_Return in H as (complete & Hcomplete & H).
  apply bind_Return in H as (added & Hadded & H).
  unfold entriesOf in Hes.
  destruct (Object.entries (ParsedResponse.extractedFields response)) as [es' |] eqn:Ees;
    [| discriminate].
  injection Hes as ->.
  unfold entriesOf in Hadded. rewrite Ees in Hadded. simpl in Hadded.
  unfold isFormComplete in Hcomplete. rewrite (entries_keys _ Ees) in Hcomplete.
  injection Hcomplete as <-.
  apply hypotheticalFields_ids in Hadded.
  exists response, es. repeat split; try assumption.
  injection H as <-. cbv zeta.
  unfold determineNextField. cbn [Session.fields FormDefinition.fields].
  rewrite map_app, Hadded. reflexivity.
Qed.

Lemma runLlmStep_Return (engine : Engine) (S : Type) (form : FormDefinition)
  (session : Session) (userMessage : JSString) (llmClient : LlmClient S)
  (w : World S) (result : OrchestratorResult) :
  fst (runLlmStep form session userMessage llmClient w) = Return result ->
  exists llmResponse : LlmResponse,
    afterCompletion form session (clock w) llmResponse = Return result.
Proof.
  unfold runLlmStep.
  destruct (messages form session userMessage) as [msgs | e]; [| discriminate].
  destruct (complete llmClient msgs (clientState w)) as [settled s']. simpl.
  intro H. apply bind_Return in H as (llmResponse & _ & H). eauto.
Qed.

(** The completion flag of a returned result is [isFormComplete] on the
    extracted values the result carries. *)
Lemma runLlmStep_isComplete (engine : Engine) (S : Type) (form : FormDefinition)
  (session : Session) (userMessage : JSString) (llmClient : LlmClient S)
  (w : World S) (result : OrchestratorResult) :
  fst (runLlmStep form session userMessage llmClient w) = Return result ->
  isFormComplete form session (OrchestratorResult.extractedFields result)
  = Return (OrchestratorResult.isComplete result).
Proof.
  intro H. apply runLlmStep_Return in H as (llmResponse & H).
  apply afterCompletion_Return in H as (response & es & _ & Hes & _ & ->).
  cbv zeta. cbn [OrchestratorResult.extractedFields OrchestratorResult.isComplete].
  unfold isFormComplete. rewrite (entries_keys _ Hes). reflexivity.
Qed.

Lemma sortByOrder_inDisplayOrder (l : list FormField) :
  inDisplayOrder l (sortByOrder l).
Proof.
  repeat split.
  - apply sortByOrder_perm.
  - apply sortByOrder_sorted.
  - intro k. apply sortByOrder_stable.
Qed.

(** C2. For every turn that returns a result: when the completion flag is
    false, the result carries a next-field name, the programmatic name of the
    first field, in the form's display order, that is required and whose
    identifier is absent from the union of the collected and the newly
    extracted field identifiers; when the flag is true it carries none. *)
Theorem runLlmStep_nextField :
  forall (engine : Engine) (S : Type) (form : FormDefinition) (session : Session)
         (userMessage : JSString) (llmClient : LlmClient S) (w : World S)
         (result : OrchestratorResult),
    fst (runLlmStep form session userMessage llmClient w) = Return result ->
    exists names : list JSString,
      Object.keys (OrchestratorResult.extractedFields result) = Some names
      /\ (OrchestratorResult.isComplete result = false ->
          exists (sorted before after : list FormField) (f : FormField),
            inDisplayOrder (FormDefinition.fields form) sorted
            /\ sorted = before ++ f :: after
            /\ stillMissing form session names f
            /\ (forall g, In g before -> ~ stillMissing form session names g)
            /\ OrchestratorResult.nextField result = Some (FormField.name f))
      /\ (OrchestratorResult.isComplete result = true ->
          OrchestratorResult.nextField result = None).
Proof.
  intros engine S form session userMessage llmClient w result H.
  apply runLlmStep_Return in H as (llmResponse & H).
  apply afterCompletion_Return in H as (response & es & _ & Hes & _ & ->).
  exists (map fst es). cbv zeta. cbn [OrchestratorResult.extractedFields
    OrchestratorResult.isComplete OrchestratorResult.nextField].
  split; [apply entries_keys; exact Hes |].
  set (all := map SessionField.fieldId (Session.fields session)
              ++ idsOfNames form (map fst es)).
  set (missing := fun f => FormField.required f && negb (Set_has all (FormField.id f))).
  assert (Hmiss : forall f, missing f = true <-> stillMissing form session (map fst es) f).
  { intro f. unfold missing, stillMissing.
    rewrite andb_true_iff, negb_true_iff, <- Set_has_union. fold all.
    destruct (Set_has all (FormField.id f)); intuition congruence. }
  split.
  - intro Hc. rewrite Hc.
    destruct (find missing (sortByOrder (FormDefinition.fields form))) as [f |] eqn:Ef.
    + apply find_first in Ef as (before & after & Hsplit & Hf & Hbefore).
      exists (sortByOrder (FormDefinition.fields form)), before, after, f.
      repeat split.
      * apply sortByOrder_perm.
      * apply sortByOrder_sorted.
      * intro k. apply sortByOrder_stable.
      * exact Hsplit.
      * apply Hmiss in Hf. apply Hf.
      * apply Hmiss in Hf. apply Hf.
      * intros g Hg Hm. apply Hmiss in Hm. rewrite (Hbefore g Hg) in Hm. discriminate.
    + exfalso.
      assert (Hall : forallb (fun f => Set_has all (FormField.id f))
                       (filter FormField.required (FormDefinition.fields form)) = true).
      { apply forallb_forall. intros f Hin. apply filter_In in Hin as [Hin Hreq].
        assert (Hin' : In f (sortByOrder (FormDefinition.fields form))).
        { eapply Permutation_in; [symmetry; apply sortByOrder_perm | exact Hin]. }
        pose proof (find_none _ _ Ef f Hin') as Hn. unfold missing in Hn.
        rewrite Hreq in Hn. simpl in Hn. apply negb_false_iff in Hn. exact Hn. }
      congruence.
  - intro Hc. rewrite Hc. reflexivity.
Qed.

(* ================================================================== *)
(** * The response interpreter *)

Lemma hasNamed_object (k : JSString) (v : JSValue) :
  hasNamed k v = true -> falsyValue v = false /\ typeofObject v = true.
Proof. destruct v; simpl; try discriminate. auto. Qed.

(** What the interpreter does, by the parsed reply: the shape check passes
    exactly when both keys are present, and nothing is asked of their values
    before [Object.keys] enumerates the second one. *)
Lemma parseExtractedFields_outcomes (engine : Engine) (llmResponse : JSString)
  (form : FormDefinition) :
  parseExtractedFields llmResponse form =
  match JSON.parse llmResponse with
  | None => Throw (ThrownClientError (invalidJsonError llmResponse))
  | Some parsed =>
      if hasNamed (str "botResponse") parsed && hasNamed (str "extractedFields") parsed
      then
        match Object.keys (getNamed (str "extractedFields") parsed) with
        | None => Throw ThrownTypeError
        | Some names =>
            match find (fun n => negb (Set_has (map FormField.name (FormDefinition.fields form)) n))
                       names with
            | Some fieldName => Throw (ThrownClientError (unknownFieldError fieldName form))
            | None =>
                Return (ParsedResponse.mk (getNamed (str "botResponse") parsed)
                                          (getNamed (str "extractedFields") parsed))
            end
        end
      else Throw (ThrownClientError (missingKeysError llmResponse))
  end.
Proof.
  unfold parseExtractedFields.
  destruct (JSON.parse llmResponse) as [parsed |]; [| reflexivity].
  destruct (hasNamed (str "botResponse") parsed) eqn:Hb.
  - destruct (hasNamed_object _ _ Hb) as [-> ->].
    destruct (hasNamed (str "extractedFields") parsed); reflexivity.
  - rewrite orb_true_r. reflexivity.
Qed.

Lemma parseExtractedFields_null_mapping (engine : Engine) (llmResponse : JSString)
  (form : FormDefinition) (parsed : JSValue) :
  JSON.parse llmResponse = Some parsed ->
  hasNamed (str "botResponse") parsed = true ->
  hasNamed (str "extractedFields") parsed = true ->
  getNamed (str "extractedFields") parsed = VNull ->
  parseExtractedFields llmResponse form = Throw ThrownTypeError.
Proof.
  intros Hp Hb He Hn. rewrite parseExtractedFields_outcomes, Hp, Hb, He, Hn.
  reflexivity.
Qed.

(** C3, at the reply [{"botResponse": "hi", "extractedFields": null}]: the
    text parses, both keys are present, and the interpreter raises a
    TypeError, none of the four categorized outcomes, for every form. *)
Theorem parseExtractedFields_fifth_outcome :
  forall (engine : Engine) (form : FormDefinition),
    let reply := qstr "{'botResponse': 'hi', 'extractedFields': null}" in
    JSON.parse reply
    = Some (VObject [(str "botResponse", VString (str "hi"));
                     (str "extractedFields", VNull)])
    /\ parseExtractedFields reply form = Throw ThrownTypeError.
Proof.
  intros engine form reply. split; [vm_compute; reflexivity |].
  eapply parseExtractedFields_null_mapping; vm_compute; reflexivity.
Qed.

(** C10. There is a parseable reply with both keys present and [null] under
    the extracted-values key on which the interpreter raises a TypeError,
    which is none of the categorized client errors; the shape check tests the
    presence of the two keys only, so this happens for every such reply. *)
Theorem parseExtractedFields_TypeError_on_null :
  (exists (reply : JSString) (parsed : JSValue),
      JSON.parse reply = Some parsed
      /\ hasNamed (str "botResponse") parsed = true
      /\ hasNamed (str "extractedFields") parsed = true
      /\ getNamed (str "extractedFields") parsed = VNull
      /\ forall (engine : Engine) (form : FormDefinition),
           parseExtractedFields reply form = Throw ThrownTypeError
           /\ forall e : ClientError,
                parseExtractedFields reply form <> Throw (ThrownClientError e))
  /\ (forall (engine : Engine) (form : FormDefinition) (reply : JSString)
             (parsed : JSValue),
         JSON.parse reply = Some parsed ->
         hasNamed (str "botResponse") parsed = true ->
         hasNamed (str "extractedFields") parsed = true ->
         getNamed (str "extractedFields") parsed = VNull ->
         parseExtractedFields reply form = Throw ThrownTypeError).
Proof.
  split.
  - exists (qstr "{'botResponse': 'hi', 'extractedFields': null}").
    exists (VObject [(str "botResponse", VString (str "hi"));
                     (str "extractedFields", VNull)]).
    split; [vm_compute; reflexivity |].
    do 3 (split; [reflexivity |]).
    intros engine form. split.
    + eapply parseExtractedFields_null_mapping; vm_compute; reflexivity.
    + intros e H.
      erewrite parseExtractedFields_null_mapping in H by (vm_compute; reflexivity).
      discriminate.
  - intros. eapply parseExtractedFields_null_mapping; eassumption.
Qed.

(* ================================================================== *)
(** * Validation of the extracted values *)

Lemma Map_get_fieldMap_known (form : FormDefinition) (name : JSString) :
  Set_has (map FormField.name (FormDefinition.fields form)) name = true ->
  exists fieldDef, Map_get (fieldMap form) name = Some fieldDef.
Proof.
  rewrite Set_has_In, in_map_iff. intros (f & Hn & Hin).
  unfold Map_get, fieldMap.
  destruct (find (fun e => String_eqb (fst e) name)
                 (rev (map (fun f0 => (FormField.name f0, f0)) (FormDefinition.fields form))))
    as [[n fd] |] eqn:E; [simpl; eauto |].
  exfalso.
  assert (Hin' : In (FormField.name f, f)
                    (rev (map (fun f0 => (FormField.name f0, f0)) (FormDefinition.fields form)))).
  { apply -> in_rev. apply in_map_iff. eauto. }
  pose proof (find_none _ _ E _ Hin') as Hn'. simpl in Hn'.
  rewrite Hn, String_eqb_refl in Hn'. discriminate.
Qed.

(** Under the data model's invariant that names are unique within a form, the
    definition the map holds for a name is the field that bears it. *)
Lemma Map_get_fieldMap_unique (form : FormDefinition) (name : JSString) (fd : FormField) :
  NoDup (map FormField.name (FormDefinition.fields form)) ->
  (Map_get (fieldMap form) name = Some fd <->
   In fd (FormDefinition.fields form) /\ FormField.name fd = name).
Proof.
  intro ND. unfold Map_get, fieldMap. split.
  - destruct (find _ _) as [[n f] |] eqn:E; [| discriminate].
    simpl. intro H. injection H as ->.
    apply find_some in E as [Hin Hn]. simpl in Hn. apply String_eqb_eq in Hn.
    apply in_rev in Hin. apply in_map_iff in Hin as (g & Hg & Hin).
    injection Hg as <- ->. auto.
  - intros [Hin Hn].
    destruct (find _ _) as [[n f] |] eqn:E.
    + simpl. f_equal.
      apply find_some in E as [Hin' Hn']. simpl in Hn'. apply String_eqb_eq in Hn'.
      apply in_rev in Hin'. apply in_map_iff in Hin' as (g & Hg & Hin').
      injection Hg as <- ->. subst name.
      clear - ND Hin Hin' Hn'. revert ND Hin Hin'.
      induction (FormDefinition.fields form) as [| h l IH]; simpl; [tauto |].
      intros ND [-> | Hin] [-> | Hin']; try reflexivity.
      * inversion ND as [| ? ? Hnot _]. exfalso. apply Hnot.
        rewrite <- Hn'. apply in_map. exact Hin'.
      * inversion ND as [| ? ? Hnot _]. exfalso. apply Hnot.
        rewrite Hn'. apply in_map. exact Hin.
      * inversion ND. auto.
    + exfalso.
      assert (Hin' : In (FormField.name fd, fd)
                (rev (map (fun f0 => (FormField.name f0, f0)) (FormDefinition.fields form)))).
      { apply -> in_rev. apply in_map_iff. eauto. }
      pose proof (find_none _ _ E _ Hin') as Hn'. simpl in Hn'.
      rewrite Hn, String_eqb_refl in Hn'. discriminate.
Qed.

Lemma validateExtracted_first_failure (engine : Engine) (form : FormDefinition)
  (before after : list (JSString * JSValue)) (fieldName : JSString)
  (value : JSValue) (fieldDef : FormField) (reason : JSString) :
  (forall n v, In (n, v) before ->
     exists fd, Map_get (fieldMap form) n = Some fd
                /\ validateField fd v = Return Valid) ->
  Map_get (fieldMap form) fieldName = Some fieldDef ->
  validateField fieldDef value = Return (Invalid reason) ->
  validateExtracted form (fieldMap form) (before ++ (fieldName, value) :: after)
  = Throw (ThrownClientError (validationError reason fieldName value form)).
Proof.
  intros Hbefore Hget Hinvalid.
  induction before as [| [n v] before IH]; simpl.
  - rewrite Hget, Hinvalid. reflexivity.
  - destruct (Hbefore n v) as (fd & -> & ->); [left; reflexivity |].
    cbn [bind].
    apply IH. intros n' v' Hin. apply Hbefore. right. exact Hin.
Qed.

(** A session that has collected nothing gets its messages. *)
Lemma messages_without_collected (engine : Engine) (form : FormDefinition)
  (session : Session) (userMessage : JSString) :
  Session.fields session = [] ->
  exists msgs, messages form session userMessage = Return msgs.
Proof.
  intro H. unfold messages, buildSystemPrompt. rewrite H. cbn [bind]. eauto.
Qed.

(** An entry whose conversion raises ends the loop with that TypeError, when
    the entries before it validate. *)
Lemma validateExtracted_first_raise (engine : Engine) (form : FormDefinition)
  (before after : list (JSString * JSValue)) (fieldName : JSString)
  (value : JSValue) (fieldDef : FormField) (e : Thrown) :
  (forall n v, In (n, v) before ->
     exists fd, Map_get (fieldMap form) n = Some fd
                /\ validateField fd v = Return Valid) ->
  Map_get (fieldMap form) fieldName = Some fieldDef ->
  validateField fieldDef value = Throw e ->
  validateExtracted form (fieldMap form) (before ++ (fieldName, value) :: after)
  = Throw e.
Proof.
  intros Hbefore Hget Hraise.
  induction before as [| [n v] before IH]; simpl.
  - rewrite Hget, Hraise. reflexivity.
  - destruct (Hbefore n v) as (fd & -> & ->); [left; reflexivity |].
    cbn [bind].
    apply IH. intros n' v' Hin. apply Hbefore. right. exact Hin.
Qed.

Lemma parseExtractedFields_known_names (engine : Engine) (llmResponse : JSString)
  (form : FormDefinition) (response : ParsedResponse)
  (es : list (JSString * JSValue)) :
  parseExtractedFields llmResponse form = Return response ->
  Object.entries (ParsedResponse.extractedFields response) = Some es ->
  forall n v, In (n, v) es ->
    Set_has (map FormField.name (FormDefinition.fields form)) n = true.
Proof.
  rewrite parseExtractedFields_outcomes.
  destruct (JSON.parse llmResponse) as [parsed |]; [| discriminate].
  destruct (_ && _)%bool; [| discriminate].
  destruct (Object.keys _) as [names |] eqn:Ek; [| discriminate].
  destruct (find _ names) eqn:Ef; [discriminate |].
  intro H. injection H as <-. simpl. intros Hes n v Hin.
  rewrite (entries_keys _ Hes) in Ek. injection Ek as <-.
  pose proof (find_none _ _ Ef n) as Hn.
  apply negb_false_iff. apply Hn. apply in_map_iff. exists (n, v). auto.
Qed.

(** C4.  First, for every turn in which the model answered, its reply was
    interpreted, and the entries of the extracted values (in enumeration
    order) begin with values that validate, followed by a value that fails
    the validator of its field: the orchestrator returns no result; it throws
    one client error, with code VALIDATION_ERROR, whose message is the reason
    given by the validator for that first failing entry and whose context
    holds that entry's field name, its raw value and the form identifier.
    Later entries, failing or not, play no part.

    Second, the turn on the signup form in which the model replies
    [{"botResponse": "hi", "extractedFields": {"age": {"toString": 1},
    "email": "not-an-email"}}]: the reply is interpreted, the value under
    [email] fails the validator of its field with "Invalid email format", and
    yet the orchestrator surfaces no client error at all: the numeric
    conversion of the value under [age] raises a TypeError, which ends the
    turn. *)
Theorem runLlmStep_fails_fast_on_first_invalid_value :
  (forall (engine : Engine) (S : Type) (form : FormDefinition) (session : Session)
          (userMessage : JSString) (llmClient : LlmClient S) (w : World S)
          (msgs : list LlmMessage) (llmResponse : LlmResponse) (s' : S)
          (response : ParsedResponse)
          (before after : list (JSString * JSValue)) (fieldName : JSString)
          (value : JSValue) (fieldDef : FormField) (reason : JSString),
      messages form session userMessage = Return msgs ->
      complete llmClient msgs (clientState w) = (Return llmResponse, s') ->
      parseExtractedFields (LlmResponse.content llmResponse) form = Return response ->
      Object.entries (ParsedResponse.extractedFields response)
      = Some (before ++ (fieldName, value) :: after) ->
      (forall n v fd, In (n, v) before -> Map_get (fieldMap form) n = Some fd ->
                      validateField fd v = Return Valid) ->
      Map_get (fieldMap form) fieldName = Some fieldDef ->
      validateField fieldDef value = Return (Invalid reason) ->
      fst (runLlmStep form session userMessage llmClient w)
      = Throw (ThrownClientError
                 (ClientError.mk reason 400 (str "VALIDATION_ERROR")
                    [(str "fieldName", VString fieldName);
                     (str "value", value);
                     (str "formId", VString (FormDefinition.id form))])))
  /\ (forall (engine : Engine) (userMessage : JSString) (w : World unit),
        let reply :=
          qstr "{'botResponse': 'hi', 'extractedFields': {'age': {'toString': 1}, 'email': 'not-an-email'}}" in
        let age := VObject [(str "toString", VNumber (number_of_Z 1))] in
        let email := VString (str "not-an-email") in
        parseExtractedFields reply signupForm
        = Return (ParsedResponse.mk (VString (str "hi"))
                    (VObject [(str "age", age); (str "email", email)]))
        /\ Map_get (fieldMap signupForm) (str "email") = Some emailField
        /\ validateField emailField email
           = Return (Invalid (str "Invalid email format"))
        /\ Map_get (fieldMap signupForm) (str "age") = Some ageField
        /\ validateField ageField age = Throw ThrownTypeError
        /\ fst (runLlmStep signupForm newSession userMessage (constantClient reply) w)
           = Throw ThrownTypeError
        /\ forall e : ClientError,
             fst (runLlmStep signupForm newSession userMessage (constantClient reply) w)
             <> Throw (ThrownClientError e)).
Proof.
  split.
  - intros engine S form session userMessage llmClient w msgs llmResponse s' response
           before after fieldName value fieldDef reason
           Hmsgs Hclient Hparse Hentries Hbefore Hget Hinvalid.
    unfold runLlmStep. rewrite Hmsgs, Hclient. cbn [fst bind].
    unfold afterCompletion. rewrite Hparse. cbn [bind].
    unfold entriesOf. rewrite Hentries. cbn [bind].
    fold (fieldMap form).
    erewrite validateExtracted_first_failure;
      [reflexivity | | exact Hget | exact Hinvalid].
    intros n v Hin.
    destruct (Map_get_fieldMap_known form n) as (fd & Hfd).
    { eapply parseExtractedFields_known_names; [exact Hparse | exact Hentries |].
      apply in_or_app. left. exact Hin. }
    exists fd. split; [exact Hfd | eapply Hbefore; eassumption].
  - intros engine userMessage w reply age email.
    assert (Hparse : parseExtractedFields reply signupForm
                     = Return (ParsedResponse.mk (VString (str "hi"))
                                 (VObject [(str "age", age); (str "email", email)]))).
    { vm_compute. reflexivity. }
    assert (Hage : validateField ageField age = Throw ThrownTypeError).
    { reflexivity. }
    assert (Hrun : fst (runLlmStep signupForm newSession userMessage
                          (constantClient reply) w) = Throw ThrownTypeError).
    { unfold runLlmStep.
      destruct (@messages_without_collected engine signupForm newSession userMessage eq_refl)
        as [msgs ->].
      cbn [constantClient complete fst bind].
      unfold afterCompletion. cbn [LlmResponse.content]. rewrite Hparse.
      reflexivity. }
    repeat split; try assumption; try reflexivity.
    intros e He. rewrite Hrun in He. discriminate.
Qed.

(* ================================================================== *)
(** * No hidden state *)

Lemma hypotheticalFields_clock (form : FormDefinition) (now1 now2 : Z)
  (es : list (JSString * JSValue)) :
  match hypotheticalFields form now1 es, hypotheticalFields form now2 es with
  | Return a, Return b => map SessionField.fieldId a = map SessionField.fieldId b
  | Throw e1, Throw e2 => e1 = e2
  | _, _ => False
  end.
Proof.
  induction es as [| [name value] es IH]; simpl; [reflexivity |].
  destruct (findByName form name) as [f |]; [| reflexivity].
  destruct (hypotheticalFields form now1 es), (hypotheticalFields form now2 es);
    simpl; try contradiction; congruence.
Qed.

(** The clock read for [collectedAt] does not reach the result. *)
Lemma afterCompletion_clock (engine : Engine) (form : FormDefinition)
  (session : Session) (now1 now2 : Z) (llmResponse : LlmResponse) :
  afterCompletion form session now1 llmResponse
  = afterCompletion form session now2 llmResponse.
Proof.
  unfold afterCompletion.
  destruct (parseExtractedFields _ form) as [response | e]; [| reflexivity].
  cbn [bind].
  destruct (entriesOf _) as [es | e]; [| reflexivity]. cbn [bind].
  destruct (validateExtracted _ _ es) as [[] | e]; [| reflexivity]. cbn [bind].
  destruct (isFormComplete _ _ _) as [done | e]; [| reflexivity]. cbn [bind].
  pose proof (hypotheticalFields_clock form now1 now2 es) as H.
  destruct (hypotheticalFields form now1 es) as [a | e1],
           (hypotheticalFields form now2 es) as [b | e2];
    try contradiction; cbn [bind]; [| congruence].
  unfold determineNextField. cbn [Session.fields].
  rewrite !map_app, H. reflexivity.
Qed.

(** C8. With a deterministic model client, the outcome of an invocation (the
    result with its reply text, extracted-field map, completion flag and
    next-field name, or the error) is the same in every world: whatever the
    state the client is in and whatever the clock reads.  In particular a
    second invocation with the same form, session and message, run in the
    world the first one left behind, has the outcome of the first. *)
Theorem runLlmStep_no_hidden_state :
  forall (engine : Engine) (S : Type) (form : FormDefinition) (session : Session)
         (userMessage : JSString) (llmClient : LlmClient S),
    deterministic llmClient ->
    (forall w1 w2 : World S,
        fst (runLlmStep form session userMessage llmClient w1)
        = fst (runLlmStep form session userMessage llmClient w2))
    /\ (forall (w : World S) (later : Z),
          let first := runLlmStep form session userMessage llmClient w in
          let w' := {| clientState := clientState (snd first); clock := later |} in
          fst (runLlmStep form session userMessage llmClient w') = fst first).
Proof.
  intros engine S form session userMessage llmClient Hdet.
  assert (Hany : forall w1 w2 : World S,
             fst (runLlmStep form session userMessage llmClient w1)
             = fst (runLlmStep form session userMessage llmClient w2)).
  { intros w1 w2. unfold runLlmStep.
    destruct (messages form session userMessage) as [msgs | e]; [| reflexivity].
    pose proof (Hdet msgs (clientState w1) (clientState w2)) as H.
    destruct (complete llmClient msgs (clientState w1)) as [r1 s1].
    destruct (complete llmClient msgs (clientState w2)) as [r2 s2].
    simpl in H. subst r2. cbn [fst].
    destruct r1 as [llmResponse | e]; [| reflexivity]. cbn [bind].
    apply afterCompletion_clock. }
  split; [exact Hany |].
  intros w later first w'. apply Hany.
Qed.

(* ================================================================== *)
(** * The calendar model *)

(** [YearFromTime] is the year the day of [t] falls in. *)
Lemma YearFromTime_spec (t : Z) :
  (DayFromYear (YearFromTime t) <= Day t < DayFromYear (YearFromTime t + 1))%Z.
Proof.
  unfold YearFromTime. set (d := Day t).
  set (y := (1970 + 400 * d / 146097)%Z).
  assert (Hy : (146097 * (y - 1970) <= 400 * d < 146097 * (y - 1970) + 146097)%Z).
  { unfold y. pose proof (Z.div_mod (400 * d) 146097 ltac:(lia)).
    pose proof (Z.mod_pos_bound (400 * d) 146097 ltac:(lia)). lia. }
  clearbody y. clearbody d.
  destruct (Z.ltb_spec d (DayFromYear y));
    [| destruct (Z.leb_spec (DayFromYear (y + 1)) d)];
    unfold DayFromYear in *;
    repeat match goal with
           | |- context [(?a / ?b)%Z] =>
               let q := fresh "q" in
               let r := fresh "r" in
               pose proof (Z.div_mod a b ltac:(lia));
               pose proof (Z.mod_pos_bound a b ltac:(lia));
               set (q := (a / b)%Z) in *; set (r := (a mod b)%Z) in *;
               clearbody q r
           end;
    repeat match goal with
           | H : context [(?a / ?b)%Z] |- _ =>
               let q := fresh "q" in
               let r := fresh "r" in
               pose proof (Z.div_mod a b ltac:(lia));
               pose proof (Z.mod_pos_bound a b ltac:(lia));
               set (q := (a / b)%Z) in *; set (r := (a mod b)%Z) in *;
               clearbody q r
           end;
    lia.
Qed.

(** Midnight UTC of 15 January 2024, and the calendar fields read back. *)
Lemma MakeDay_2024_01_15 :
  (MakeDay 2024 0 15 * msPerDay)%Z = 1705276800000%Z
  /\ YearFromTime 1705276800000 = 2024%Z
  /\ MonthFromTime 1705276800000 = 0%Z
  /\ DateFromTime 1705276800000 = 15%Z.
Proof. repeat split. Qed.

(* ================================================================== *)
(** * The statements at sample inputs *)

(** The completion scenario (one of two required fields collected, the model
    extracts the other), the empty form and the form with optional fields
    only are complete. *)
Lemma isFormComplete_iff_required_in_union_witness :
  isFormComplete contactForm sessionWithName
    (VObject [(str "email", VString (str "john@example.com"))]) = Return true
  /\ isFormComplete emptyForm newSession (VObject []) = Return true
  /\ isFormComplete optionalForm newSession (VObject []) = Return true.
Proof.
  split; [| split].
  - destruct (isFormComplete_iff_required_in_union contactForm sessionWithName
                [(str "email", VString (str "john@example.com"))])
      as (_ & Hiff & _ & _ & _).
    apply Hiff. intros f Hin Hreq. destruct Hin as [<- | [<- | [<- | []]]].
    + right. exists (str "email"), (plainField "f-email" "email" EMAIL true 1).
      repeat split. left. reflexivity.
    + left. left. reflexivity.
    + discriminate Hreq.
  - destruct (isFormComplete_iff_required_in_union emptyForm newSession [])
      as (_ & _ & Hempty & _ & _).
    apply Hempty. reflexivity.
  - destruct (isFormComplete_iff_required_in_union optionalForm newSession [])
      as (_ & _ & _ & Hoptional & _).
    apply Hoptional. intros f [<- | []]. reflexivity.
Defined.

(** A turn on the contact form in which the model extracts the name: the
    form is not complete and the next field is the email. *)
Lemma runLlmStep_nextField_witness :
  let reply :=
    qstr "{'botResponse': 'Thanks John! What is your email?', 'extractedFields': {'name': 'John'}}" in
  let result :=
    OrchestratorResult.mk (VString (str "Thanks John! What is your email?"))
      (VObject [(str "name", VString (str "John"))]) false (Some (str "email")) in
  fst (@runLlmStep sampleEngine unit contactForm newSession (str "My name is John")
         (constantClient reply) sampleWorld) = Return result
  /\ exists names : list JSString,
       Object.keys (OrchestratorResult.extractedFields result) = Some names
       /\ (OrchestratorResult.isComplete result = false ->
           exists (sorted before after : list FormField) (f : FormField),
             inDisplayOrder (FormDefinition.fields contactForm) sorted
             /\ sorted = before ++ f :: after
             /\ stillMissing contactForm newSession names f
             /\ (forall g, In g before -> ~ stillMissing contactForm newSession names g)
             /\ OrchestratorResult.nextField result = Some (FormField.name f))
       /\ (OrchestratorResult.isComplete result = true ->
           OrchestratorResult.nextField result = None).
Proof.
  intros reply result.
  assert (H : fst (@runLlmStep sampleEngine unit contactForm newSession
                     (str "My name is John") (constantClient reply) sampleWorld)
              = Return result) by (vm_compute; reflexivity).
  split; [exact H |].
  exact (@runLlmStep_nextField sampleEngine unit contactForm newSession
           (str "My name is John") (constantClient reply) sampleWorld result H).
Defined.

(** A turn in which the second of three extracted values is not an email. *)
Lemma runLlmStep_fails_fast_on_first_invalid_value_witness :
  let reply :=
    qstr "{'botResponse': 'Done', 'extractedFields': {'name': 'John', 'email': 'not-an-email', 'notes': null}}" in
  fst (@runLlmStep sampleEngine unit contactForm newSession (str "hello")
         (constantClient reply) sampleWorld)
  = Throw (ThrownClientError
             (ClientError.mk (str "Invalid email format") 400 (str "VALIDATION_ERROR")
                [(str "fieldName", VString (str "email"));
                 (str "value", VString (str "not-an-email"));
                 (str "formId", VString (str "form1"))])).
Proof.
  intro reply.
  destruct (@messages_without_collected sampleEngine contactForm newSession
              (str "hello") eq_refl) as [msgs Hmsgs].
  apply (proj1 runLlmStep_fails_fast_on_first_invalid_value sampleEngine unit
           contactForm newSession (str "hello") (constantClient reply) sampleWorld
           msgs (LlmResponse.mk reply) tt
           (ParsedResponse.mk (VString (str "Done"))
              (VObject [(str "name", VString (str "John"));
                        (str "email", VString (str "not-an-email"));
                        (str "notes", VNull)]))
           [(str "name", VString (str "John"))]
           [(str "notes", VNull)]
           (str "email") (VString (str "not-an-email"))
           (plainField "f-email" "email" EMAIL true 1)
           (str "Invalid email format")).
  - exact Hmsgs.
  - reflexivity.
  - vm_compute. reflexivity.
  - reflexivity.
  - intros n v fd [E | []] Hget. injection E as <- <-.
    vm_compute in Hget. injection Hget as <-. reflexivity.
  - vm_compute. reflexivity.
  - vm_compute. reflexivity.
Defined.

(** On the sample engine, which reads date-only strings as UTC midnight and
    lets the day roll over. *)
Lemma validateDate_iso_parts_witness :
  @validateDate sampleEngine (IsString (str "2024-01-15")) = Valid
  /\ @validateDate sampleEngine (IsString (str "not-a-date"))
     = Invalid (str "Invalid date format")
  /\ @validateDate sampleEngine (IsString (str "2024-02-30"))
     = Invalid (str "Invalid date format")
  /\ (@validateDate sampleEngine (IsString (str "2024-03-01")) = Valid <->
      exists t : Z,
        @new_Date sampleEngine (str "2024-03-01") = Some t
        /\ YearFromTime t = 2024%Z
        /\ (MonthFromTime t + 1)%Z = 3%Z
        /\ DateFromTime t = 1%Z).
Proof.
  destruct (validateDate_iso_parts sampleEngine) as (Hshape & Hnone & Hfeb & Hnot & Hjan).
  split; [apply Hjan; reflexivity |].
  split; [apply Hnot; reflexivity |].
  split; [exact Hfeb |].
  exact (proj1 (Hshape 50 48 50 52 48 51 48 49 [] eq_refl)%N).
Defined.

(** A client that always answers with the same text is deterministic. *)
Lemma runLlmStep_no_hidden_state_witness :
  let reply :=
    qstr "{'botResponse': 'Thanks John! What is your email?', 'extractedFields': {'name': 'John'}}" in
  let llmClient := constantClient reply in
  deterministic llmClient
  /\ fst (@runLlmStep sampleEngine unit contactForm newSession (str "My name is John")
            llmClient sampleWorld)
     = fst (@runLlmStep sampleEngine unit contactForm newSession (str "My name is John")
              llmClient {| clientState := tt; clock := 1705276860000 |}).
Proof.
  intros reply llmClient.
  assert (Hdet : deterministic llmClient) by (intros msgs s1 s2; reflexivity).
  split; [exact Hdet |].
  exact (proj1 (@runLlmStep_no_hidden_state sampleEngine unit contactForm newSession
                  (str "My name is John") llmClient Hdet)
           sampleWorld {| clientState := tt; clock := 1705276860000 |}).
Defined.

(** The age field, bounded by 18 and 120, accepts "abc". *)
Lemma validateField_NUMBER_non_numeric_string_witness :
  FormField.type ageField = NUMBER
  /\ StringToNumber (str "abc") = NaN
  /\ @validateField sampleEngine ageField (VString (str "abc")) = Return Valid.
Proof.
  split; [reflexivity |]. split; [reflexivity |].
  exact (proj1 (@validateField_NUMBER_non_numeric_string sampleEngine ageField
                  (str "abc") eq_refl eq_refl)).
Defined.

(* ================================================================== *)
(** * Further properties of the validators *)

Lemma phoneChar_spec (c : N) : phoneChar c = true <-> phoneCharacter c.
Proof.
  unfold phoneChar, phoneCharacter.
  rewrite !orb_true_iff, !N.eqb_eq. tauto.
Qed.

Lemma filter_nonempty_In {A : Type} (p : A -> bool) (l : list A) :
  (1 <= List.length (filter p l))%nat -> exists x, In x l /\ p x = true.
Proof.
  destruct (filter p l) as [| x r] eqn:E; simpl; [lia |].
  intros _. exists x. apply filter_In. rewrite E. left. reflexivity.
Qed.

(** X1. The phone validator succeeds exactly when the value holds at least
    ten digits and nothing but digits, white space, [+], [-] and
    parentheses; every other string fails with "Invalid phone format". *)
Theorem validatePhone_exact :
  forall value : JSString,
    (validatePhone value = Valid <->
     (MIN_PHONE_DIGITS <= List.length (filter isDigit value))%nat
     /\ Forall phoneCharacter value)
    /\ (validatePhone value = Valid
        \/ validatePhone value = Invalid (str "Invalid phone format")).
Proof.
  intro value.
  assert (Hre : RegExp.test_anchored PHONE_REGEX value = true <->
                value <> [] /\ Forall phoneCharacter value).
  { rewrite RegExpFacts.test_anchored_spec. unfold PHONE_REGEX.
    rewrite RegExpFacts.matches_Plus_Class.
    split; intros [H1 H2]; (split; [exact H1 |]);
      eapply Forall_impl; try exact H2; intros c Hc; apply phoneChar_spec; exact Hc. }
  unfold validatePhone. split.
  - destruct (isEmpty value || isEmpty (trim value)) eqn:E.
    + split; [discriminate |]. intros [Hd _]. exfalso.
      destruct (filter_nonempty_In isDigit value) as (c & Hin & Hc).
      { unfold MIN_PHONE_DIGITS in Hd. lia. }
      apply orb_true_iff in E as [E | E]; apply isEmpty_true in E.
      * subst. destruct Hin.
      * revert E. eapply trim_not_empty; [exact Hin | apply isDigit_not_space; exact Hc].
    + destruct (Nat.ltb_spec (List.length (filter isDigit value)) MIN_PHONE_DIGITS) as [Hlt | Hge].
      * split; [discriminate | intros [Hd _]; lia].
      * destruct (RegExp.test_anchored PHONE_REGEX value) eqn:Et; simpl.
        -- destruct Hre as [Hre _]. specialize (Hre eq_refl). tauto.
        -- split; [discriminate |]. intros [_ Hf]. exfalso.
           assert (Hne : value <> []).
           { apply orb_false_iff in E as [E _]. apply isEmpty_false. exact E. }
           destruct Hre as [_ Hre]. discriminate Hre. auto.
  - destruct (isEmpty value || isEmpty (trim value)); [auto |].
    destruct (_ <? _)%nat; [auto |].
    destruct (RegExp.test_anchored PHONE_REGEX value); simpl; auto.
Qed.

Lemma plain_count_at (s : JSString) :
  Forall plainChar s -> count_occ N.eq_dec s (ch "@") = 0%nat.
Proof.
  induction 1 as [| c s [_ Hc] _ IH]; [reflexivity |].
  rewrite count_occ_cons_neq by exact Hc. exact IH.
Qed.

Lemma plain_no_space (s : JSString) :
  Forall plainChar s -> Forall (fun c => isWhiteSpace c = false) s.
Proof. intro H. eapply Forall_impl; [| exact H]. intros c [Hc _]. exact Hc. Qed.

(** X2. An accepted email holds exactly one [@], no white space, a local
    part before the [@], and at least five characters. *)
Theorem validateEmail_accepted_structure :
  forall value : JSString,
    validateEmail value = Valid ->
    count_occ N.eq_dec value (ch "@") = 1%nat
    /\ Forall (fun c => isWhiteSpace c = false) value
    /\ (exists c rest, value = c :: rest /\ c <> ch "@")
    /\ (5 <= List.length value)%nat.
Proof.
  intros value H. unfold validateEmail in H.
  destruct (isEmpty value || isEmpty (trim value)); [discriminate |].
  destruct (RegExp.test_anchored EMAIL_REGEX value) eqn:E; [| discriminate].
  apply RegExpFacts.test_anchored_spec, EMAIL_REGEX_shape in E.
  destruct E as (a & b & c & -> & Ha & Hb & Hc & Fa & Fb & Fc).
  repeat split.
  - rewrite !count_occ_app, (plain_count_at Fa), (plain_count_at Fb), (plain_count_at Fc).
    reflexivity.
  - repeat (apply Forall_app; split); try (apply plain_no_space; assumption);
      repeat constructor.
  - destruct a as [| x a]; [contradiction |]. exists x, (a ++ [ch "@"] ++ b ++ [ch "."] ++ c).
    split; [reflexivity |]. inversion Fa as [| ? ? [_ Hx] _]. exact Hx.
  - rewrite !length_app. simpl.
    destruct a; [contradiction |]. destruct b; [contradiction |].
    destruct c; [contradiction |]. simpl. lia.
Qed.

Lemma num_lt_irrefl (x : number) : num_lt x x = false.
Proof.
  unfold num_lt, SFltb. destruct x as [s | s | | s m e]; simpl; try reflexivity.
  - destruct s; reflexivity.
  - rewrite Z.compare_refl.
    assert (E : Pos.compare_cont Eq m m = Eq) by apply Pos.compare_refl.
    destruct s; rewrite E; reflexivity.
Qed.

(** X3. The bounds of the number validator are inclusive (a value equal to
    both bounds passes, infinities included), a NaN bound rejects nothing,
    and a value below the minimum is reported as such whatever the maximum. *)
Theorem validateNumber_bound_edges :
  forall (engine : Engine) (x lo : number) (hi : option number),
    validateNumber x (Bounds.mk (Some x) (Some x)) = Valid
    /\ validateNumber x (Bounds.mk (Some NaN) (Some NaN)) = Valid
    /\ validateNumber x (Bounds.mk (Some lo) hi)
       = (if num_lt x lo
          then Invalid (str "Number must be at least " ++ Number_toString lo)
          else validateNumber x (Bounds.mk None hi)).
Proof.
  intros engine x lo hi. split; [| split].
  - unfold validateNumber, num_gt. cbn [Bounds.min Bounds.max].
    rewrite num_lt_irrefl. fold (num_lt x x). rewrite num_lt_irrefl. reflexivity.
  - unfold validateNumber, num_gt, num_lt. cbn [Bounds.min Bounds.max].
    destruct x; reflexivity.
  - unfold validateNumber. cbn [Bounds.min Bounds.max].
    destruct (num_lt x lo); reflexivity.
Qed.

(* ================================================================== *)
(** * Further properties of the dispatcher *)

Lemma validateEmail_reason (value reason : JSString) :
  validateEmail value = Invalid reason -> reason = str "Invalid email format".
Proof.
  unfold validateEmail.
  destruct (_ || _)%bool; [congruence |].
  destruct (negb _); [congruence | discriminate].
Qed.

Lemma validatePhone_reason (value reason : JSString) :
  validatePhone value = Invalid reason -> reason = str "Invalid phone format".
Proof.
  unfold validatePhone.
  destruct (_ || _)%bool; [congruence |].
  destruct (_ <? _)%nat; [congruence |].
  destruct (negb _); [congruence | discriminate].
Qed.

Lemma validateIsoDateParts_reason (dateString : JSString) (dateObj : option Z)
  (reason : JSString) :
  validateIsoDateParts dateString dateObj = Invalid reason ->
  reason = str "Invalid date format".
Proof.
  unfold validateIsoDateParts.
  destruct (falsy _); [congruence |].
  destruct (_ || _)%bool; [congruence |].
  destruct (_ || _)%bool; [congruence | discriminate].
Qed.

Lemma validateDate_reason (engine : Engine) (value : DateOrString) (reason : JSString) :
  validateDate value = Invalid reason -> reason = str "Invalid date format".
Proof.
  unfold validateDate.
  destruct (match value with IsDate _ => false | IsString s => _ end); [congruence |].
  destruct (isNaN _); [congruence |].
  destruct value as [d | s]; [discriminate |].
  destruct (RegExp.test_prefix isoFormat s); [| discriminate].
  apply validateIsoDateParts_reason.
Qed.

Lemma existsb_String_eqb (value : JSString) (options : list JSString) :
  existsb (String_eqb value) options = true <-> In value options.
Proof.
  rewrite existsb_exists. split.
  - intros (o & Hin & E). apply String_eqb_eq in E. subst. exact Hin.
  - intro Hin. exists value. split; [exact Hin | apply String_eqb_refl].
Qed.

Lemma validateField_present (engine : Engine) (field : FormField) (value : JSValue) :
  value <> VNull -> value <> VUndefined ->
  validateField field value =
  match FormField.type field with
  | EMAIL => s <- orTypeError (ToString value) ;; Return (validateEmail s)
  | PHONE => s <- orTypeError (ToString value) ;; Return (validatePhone s)
  | NUMBER =>
      n <- match value with
           | VNumber n => Return n
           | _ => orTypeError (ToNumber value)
           end ;;
      Return (validateNumber n
                (Bounds.mk (fst (numberBounds field)) (snd (numberBounds field))))
  | DATE => Return (validateDateField (validators := validators_ts) value)
  | ENUM => s <- orTypeError (ToString value) ;;
            Return (validateEnum s (enumOptions field))
  | TEXT | LONG_TEXT => Return Valid
  end.
Proof.
  intros H1 H2. unfold validateField, validateFieldWith.
  rewrite checkRequired_present by assumption.
  unfold validateNumberField, validateEnumField, numberBounds, enumOptions.
  destruct (FormField.type field); try reflexivity;
    destruct (FormField.validation field); reflexivity.
Qed.

Lemma Return_inj {A : Type} (a b : A) : Return a = Return b -> a = b.
Proof. intro H. injection H as H. exact H. Qed.

Lemma absent_dec (value : JSValue) :
  (value = VNull \/ value = VUndefined) \/ (value <> VNull /\ value <> VUndefined).
Proof. destruct value; auto; right; split; discriminate. Qed.

(** The dispatcher raises nothing but the TypeError of a conversion: on a
    present value that has no conversion to a string, for a field whose type
    asks for a string or a number. *)
Lemma validateField_Throw (engine : Engine) (field : FormField) (value : JSValue)
  (e : Thrown) :
  validateField field value = Throw e ->
  e = ThrownTypeError
  /\ value <> VNull /\ value <> VUndefined
  /\ In (FormField.type field) [EMAIL; PHONE; NUMBER; ENUM]
  /\ ToString value = None.
Proof.
  intro H. destruct (absent_dec value) as [Ha | [H1 H2]].
  - unfold validateField, validateFieldWith in H.
    rewrite (checkRequired_absent field Ha) in H. discriminate.
  - rewrite validateField_present in H by assumption.
    destruct (FormField.type field); try discriminate;
      cbn [In]; try (destruct (ToString value) eqn:Es;
                     cbn [orTypeError bind] in H; [discriminate |];
                     injection H as <-; auto 10).
    destruct value as [| | b | n | s | tv | elems | props];
      try destruct b; try destruct tv;
      cbn [ToNumber orTypeError bind] in H; try discriminate;
      destruct (ToString _) eqn:Es; cbn [orTypeError bind option_map] in H;
      try discriminate; injection H as <-; auto 10.
Qed.

Lemma validateField_raises (engine : Engine) (field : FormField) (value : JSValue) :
  value <> VNull -> value <> VUndefined ->
  In (FormField.type field) [EMAIL; PHONE; NUMBER; ENUM] ->
  ToString value = None ->
  validateField field value = Throw ThrownTypeError.
Proof.
  intros H1 H2 Ht Hs. rewrite validateField_present by assumption.
  destruct Ht as [<- | [<- | [<- | [<- | []]]]]; try (rewrite Hs; reflexivity).
  destruct value as [| | b | n | s | tv | elems | props];
    try destruct b; try discriminate Hs;
    cbn [ToNumber]; rewrite Hs; reflexivity.
Qed.

(** X4. An ENUM field accepts a string exactly when it is one of the
    declared options (compared code unit by code unit), and otherwise fails
    with "Value must be one of: " followed by the options joined by ", "; a
    field that declares no options rejects every string. *)
Theorem validateField_ENUM_string :
  forall (engine : Engine) (field : FormField) (s : JSString),
    FormField.type field = ENUM ->
    (validateField field (VString s) = Return Valid <-> In s (enumOptions field))
    /\ (validateField field (VString s) = Return Valid
        \/ validateField field (VString s)
           = Return (Invalid (str "Value must be one of: "
                              ++ join (str ", ") (enumOptions field))))
    /\ (enumOptions field = [] ->
        validateField field (VString s)
        = Return (Invalid (str "Value must be one of: "))).
Proof.
  intros engine field s Ht.
  rewrite validateField_present by discriminate. rewrite Ht.
  cbn [ToString orTypeError bind]. unfold validateEnum.
  pose proof (existsb_String_eqb s (enumOptions field)) as Hin.
  destruct (existsb (String_eqb s) (enumOptions field)); cbn [negb].
  - destruct Hin as [Hin _]. specialize (Hin eq_refl).
    split; [tauto |]. split; [auto |].
    intro E. rewrite E in Hin. destruct Hin.
  - split.
    + split; [discriminate |]. intro H. apply Hin in H. discriminate.
    + split; [auto |]. intro E. rewrite E. reflexivity.
Qed.

(** X5. Whenever the dispatcher returns a failure, its reason is either
    "Field is required", for an absent value on a required field, or, for a
    present value, the reason that belongs to the field's type; a TEXT or
    LONG_TEXT field never fails on a present value. *)
Theorem validateField_failure_reasons :
  forall (engine : Engine) (field : FormField) (value : JSValue) (reason : JSString),
    validateField field value = Return (Invalid reason) ->
    (reason = str "Field is required"
     /\ FormField.required field = true
     /\ (value = VNull \/ value = VUndefined))
    \/ (value <> VNull /\ value <> VUndefined /\ typeReason field reason).
Proof.
  intros engine field value reason H.
  destruct (absent_dec value) as [Ha | [H1 H2]].
  - left. unfold validateField, validateFieldWith in H.
    rewrite (checkRequired_absent field Ha) in H.
    destruct (FormField.required field); [| discriminate].
    injection H as <-. auto.
  - right. split; [exact H1 |]. split; [exact H2 |].
    rewrite validateField_present in H by assumption.
    unfold typeReason. destruct (FormField.type field);
      try (apply bind_Return in H as (converted & _ & H));
      apply Return_inj in H.
    + discriminate.
    + apply validateEmail_reason in H. exact H.
    + apply validatePhone_reason in H. exact H.
    + unfold validateNumber in H. cbn [Bounds.min Bounds.max] in H.
      destruct (fst (numberBounds field)) as [lo |] eqn:Elo.
      * destruct (num_lt _ lo).
        -- injection H as <-. left. eauto.
        -- destruct (snd (numberBounds field)) as [hi |] eqn:Ehi; [| discriminate].
           destruct (num_gt _ hi); [| discriminate].
           injection H as <-. right. eauto.
      * destruct (snd (numberBounds field)) as [hi |] eqn:Ehi; [| discriminate].
        destruct (num_gt _ hi); [| discriminate].
        injection H as <-. right. eauto.
    + unfold validateDateField in H.
      destruct value; try (injection H as <-; reflexivity);
        eapply validateDate_reason; exact H.
    + unfold validateEnum in H. destruct (negb _); [| discriminate].
      injection H as <-. reflexivity.
    + discriminate.
Qed.

(** X6. The dispatcher returns "Field is required" exactly for an absent
    value on a required field: no type validator produces that reason, and a
    present value, the empty string included, is never reported as missing. *)
Theorem validateField_required_reason_iff :
  forall (engine : Engine) (field : FormField) (value : JSValue),
    validateField field value = Return (Invalid (str "Field is required"))
    <-> (FormField.required field = true /\ (value = VNull \/ value = VUndefined)).
Proof.
  intros engine field value. split.
  - intro H. destruct (absent_dec value) as [Ha | [H1 H2]].
    + unfold validateField, validateFieldWith in H.
      rewrite (checkRequired_absent field Ha) in H.
      destruct (FormField.required field); [auto | discriminate].
    + exfalso. rewrite validateField_present in H by assumption.
      destruct (FormField.type field);
        try (apply bind_Return in H as (converted & _ & H));
        apply Return_inj in H.
      * discriminate.
      * apply validateEmail_reason in H. discriminate.
      * apply validatePhone_reason in H. discriminate.
      * unfold validateNumber in H. cbn [Bounds.min Bounds.max] in H.
        repeat match type of H with
               | match ?x with _ => _ end = _ => destruct x
               | (if ?b then _ else _) = _ => destruct b
               end; discriminate.
      * unfold validateDateField in H.
        destruct value; try discriminate; cbn [importedDate validators_ts] in H;
          apply validateDate_reason in H; discriminate.
      * unfold validateEnum in H. destruct (negb _); discriminate.
      * discriminate.
  - intros [Hreq Ha]. unfold validateField, validateFieldWith.
    rewrite (checkRequired_absent field Ha), Hreq. reflexivity.
Qed.

(** X7. The dispatcher looks at a field's type, its required flag, its
    bounds when the type is NUMBER and its options when the type is ENUM, and
    at nothing else: two fields that agree on these validate every value
    alike (the same result, or the same exception), whatever their
    identifiers, names, labels, order, help text, pattern and remaining
    rules. *)
Theorem validateField_depends_on :
  forall (engine : Engine) (field1 field2 : FormField) (value : JSValue),
    FormField.type field1 = FormField.type field2 ->
    FormField.required field1 = FormField.required field2 ->
    (FormField.type field1 = NUMBER -> numberBounds field1 = numberBounds field2) ->
    (FormField.type field1 = ENUM -> enumOptions field1 = enumOptions field2) ->
    validateField field1 value = validateField field2 value.
Proof.
  intros engine field1 field2 value Ht Hr Hn He.
  destruct (absent_dec value) as [Ha | [H1 H2]].
  - unfold validateField, validateFieldWith.
    rewrite (checkRequired_absent field1 Ha), (checkRequired_absent field2 Ha), Hr.
    reflexivity.
  - rewrite !validateField_present by assumption. rewrite <- Ht.
    destruct (FormField.type field1); try reflexivity.
    + rewrite (Hn eq_refl). reflexivity.
    + rewrite (He eq_refl). reflexivity.
Qed.

Lemma ToString_object (engine : Engine) (props : list (JSString * JSValue)) :
  ToString (VObject props) = None <-> In (str "toString") (map fst props).
Proof.
  cbn [ToString].
  destruct (existsb (fun p => String_eqb (fst p) (str "toString")) props) eqn:E.
  - split; [intros _ | reflexivity].
    apply existsb_exists in E as (p & Hin & Hp). apply String_eqb_eq in Hp.
    rewrite <- Hp. apply in_map. exact Hin.
  - split; [discriminate |]. intro Hin. exfalso.
    apply in_map_iff in Hin as (p & Hp & Hin).
    assert (Ht : existsb (fun p => String_eqb (fst p) (str "toString")) props = true).
    { apply existsb_exists. exists p. split; [exact Hin |].
      apply String_eqb_eq. exact Hp. }
    congruence.
Qed.

(** X22. The dispatcher does not return for every value: it raises a
    TypeError, and nothing else, exactly on a present value that has no
    conversion to a string, for a field whose type is EMAIL, PHONE, NUMBER or
    ENUM.  Such a value is an object that has an own property named
    [toString], or an array; a string, a number, a boolean and a Date always
    convert, and TEXT, LONG_TEXT and DATE fields never raise. *)
Theorem validateField_raises_iff :
  forall (engine : Engine) (field : FormField) (value : JSValue),
    (validateField field value = Throw ThrownTypeError <->
     value <> VNull /\ value <> VUndefined
     /\ In (FormField.type field) [EMAIL; PHONE; NUMBER; ENUM]
     /\ ToString value = None)
    /\ (forall e : Thrown, validateField field value = Throw e -> e = ThrownTypeError)
    /\ (forall props : list (JSString * JSValue),
          ToString (VObject props) = None <-> In (str "toString") (map fst props))
    /\ (ToString value = None ->
        (exists elems, value = VArray elems)
        \/ (exists props, value = VObject props
                          /\ In (str "toString") (map fst props))).
Proof.
  intros engine field value. split; [| split; [| split]].
  - split.
    + intro H. apply validateField_Throw in H as (_ & H). exact H.
    + intros (H1 & H2 & Ht & Hs). apply validateField_raises; assumption.
  - intros e H. apply validateField_Throw in H as (He & _). exact He.
  - intro props. apply ToString_object.
  - destruct value as [| | b | n | s | tv | elems | props]; try destruct b;
      try discriminate.
    + eauto.
    + intro H. apply ToString_object in H. eauto.
Qed.

(* ================================================================== *)
(** * Further properties of the date validator *)

Lemma DayFromYear_succ (y : Z) :
  (DayFromYear (y + 1) = DayFromYear y + DaysInYear y)%Z.
Proof.
  unfold DayFromYear, DaysInYear.
  destruct (Z.eqb_spec (y mod 4) 0); destruct (Z.eqb_spec (y mod 100) 0);
    destruct (Z.eqb_spec (y mod 400) 0); cbn [andb orb negb];
    Z.to_euclidean_division_equations; lia.
Qed.

Lemma DayWithinYear_range (t : Z) :
  (0 <= DayWithinYear t < DaysInYear (YearFromTime t))%Z.
Proof.
  unfold DayWithinYear. pose proof (YearFromTime_spec t) as H.
  rewrite DayFromYear_succ in H. lia.
Qed.

(** The month and the date of a time value denote a day of the calendar. *)
Lemma calendar_range (t : Z) :
  (0 <= MonthFromTime t <= 11
   /\ 1 <= DateFromTime t <= daysInMonth (YearFromTime t) (MonthFromTime t + 1))%Z.
Proof.
  pose proof (DayWithinYear_range t) as Hd.
  unfold DateFromTime, MonthFromTime, daysInMonth, InLeapYear in *.
  set (d := DayWithinYear t) in *. clearbody d.
  unfold DaysInYear in *.
  destruct ((YearFromTime t mod 4 =? 0)%Z
            && (negb (YearFromTime t mod 100 =? 0)%Z || (YearFromTime t mod 400 =? 0)%Z));
    cbn [Z.eqb Pos.eqb] in *;
    repeat match goal with
           | |- context [(?a <? ?b)%Z] => destruct (Z.ltb_spec a b)
           end; cbn; lia.
Qed.

(** X8. Outside the shape YYYY-MM-DD..., the date validator performs no
    calendar check: a [Date] object is accepted exactly when its time value
    is not NaN, a string that is not of that shape exactly when it is not
    blank and the engine parses it, and a blank string is refused on every
    engine. *)
Theorem validateDate_outside_iso_shape :
  forall engine : Engine,
    (forall d : option Z,
        validateDate (IsDate d) = if isNaN d then Invalid (str "Invalid date format") else Valid)
    /\ (forall s : JSString,
          ~ isoShaped s ->
          (validateDate (IsString s) = Valid <->
           trim s <> [] /\ exists t : Z, new_Date s = Some t))
    /\ (forall s : JSString,
          trim s = [] -> validateDate (IsString s) = Invalid (str "Invalid date format")).
Proof.
  intro engine. split; [| split].
  - intro d. unfold validateDate. destruct d; reflexivity.
  - intros s Hshape. unfold validateDate.
    destruct (isEmpty s) eqn:E0.
    + apply isEmpty_true in E0. subst. cbn [orb].
      split; [discriminate | intros [H _]; contradiction].
    + destruct (isEmpty (trim s)) eqn:E1; cbn [orb].
      * apply isEmpty_true in E1. split; [discriminate | intros [H _]; contradiction].
      * apply isEmpty_false in E1.
        destruct (new_Date s) as [t |] eqn:Ed; cbn [isNaN getTime].
        -- destruct (RegExp.test_prefix isoFormat s) eqn:Ei.
           ++ apply isoFormat_shaped in Ei. contradiction.
           ++ split; [intros _; split; [exact E1 | eauto] | reflexivity].
        -- split; [discriminate | intros [_ [t Ht]]; discriminate].
  - intros s Ht. unfold validateDate.
    rewrite (proj2 (isEmpty_true (trim s)) Ht), orb_true_r. reflexivity.
Qed.

(** X9. On every engine, an accepted string of the shape YYYY-MM-DD... names
    a day of the calendar: its month digits read 1 to 12 and its day digits
    read a day of that month of that year (29 February in leap years only);
    any other such string is refused, however the engine parses it. *)
Theorem validateDate_accepts_calendar_dates_only :
  forall (engine : Engine) (y1 y2 y3 y4 m1 m2 d1 d2 : N) (rest : JSString),
    forallb isDigit [y1; y2; y3; y4; m1; m2; d1; d2] = true ->
    validateDate (IsString ([y1; y2; y3; y4; ch "-"; m1; m2; ch "-"; d1; d2] ++ rest)) = Valid ->
    (1 <= isoMonth m1 m2 <= 12)%Z
    /\ (1 <= isoDay d1 d2 rest <= daysInMonth (isoYear y1 y2 y3 y4) (isoMonth m1 m2))%Z.
Proof.
  intros engine y1 y2 y3 y4 m1 m2 d1 d2 rest Hdigits H.
  rewrite validateDate_shaped in H by assumption.
  destruct (new_Date _) as [t |]; [| discriminate].
  destruct (YearFromTime t =? _)%Z eqn:E1; [| discriminate].
  destruct (MonthFromTime t + 1 =? _)%Z eqn:E2; [| discriminate].
  destruct (DateFromTime t =? _)%Z eqn:E3; [| discriminate].
  apply Z.eqb_eq in E1, E2, E3.
  pose proof (calendar_range t) as Hr.
  rewrite E1, E2, E3 in Hr. lia.
Qed.

(* ================================================================== *)
(** * Further properties of the response interpreter *)

Lemma hasNamed_In (k : JSString) (props : list (JSString * JSValue)) :
  hasNamed k (VObject props) = true <-> In k (map fst props).
Proof.
  simpl. rewrite existsb_exists, in_map_iff. split.
  - intros (e & Hin & E). apply String_eqb_eq in E. eauto.
  - intros (e & E & Hin). exists e. split; [exact Hin |]. apply String_eqb_eq. exact E.
Qed.

Lemma find_unknown_None (form : FormDefinition) (names : list JSString) :
  find (fun n => negb (Set_has (map FormField.name (FormDefinition.fields form)) n)) names
  = None
  <-> forall n, In n names -> In n (map FormField.name (FormDefinition.fields form)).
Proof.
  split.
  - intros H n Hin. pose proof (find_none _ _ H n Hin) as Hn.
    apply negb_false_iff in Hn. apply Set_has_In. exact Hn.
  - intro H. destruct (find _ names) as [n |] eqn:E; [| reflexivity].
    apply find_some in E as [Hin Hn]. apply negb_true_iff in Hn.
    apply H, Set_has_In in Hin. congruence.
Qed.

(** X10. The interpreter succeeds exactly when the text parses to an object
    that has both keys, the keys of the value under [extractedFields] can be
    enumerated, and each of them is the name of a field of the form; what it
    returns is the two values of the parsed object, whatever their types. *)
Theorem parseExtractedFields_success_iff :
  forall (engine : Engine) (llmResponse : JSString) (form : FormDefinition)
         (response : ParsedResponse),
    parseExtractedFields llmResponse form = Return response
    <-> exists (props : list (JSString * JSValue)) (names : list JSString),
          JSON.parse llmResponse = Some (VObject props)
          /\ In (str "botResponse") (map fst props)
          /\ In (str "extractedFields") (map fst props)
          /\ response = ParsedResponse.mk (getNamed (str "botResponse") (VObject props))
                          (getNamed (str "extractedFields") (VObject props))
          /\ Object.keys (ParsedResponse.extractedFields response) = Some names
          /\ forall n, In n names -> In n (map FormField.name (FormDefinition.fields form)).
Proof.
  intros engine llmResponse form response.
  rewrite parseExtractedFields_outcomes. split.
  - destruct (JSON.parse llmResponse) as [parsed |]; [| discriminate].
    destruct (hasNamed (str "botResponse") parsed) eqn:Hb; [| discriminate].
    destruct (hasNamed (str "extractedFields") parsed) eqn:He; [| discriminate].
    cbn [andb].
    destruct (Object.keys _) as [names |] eqn:Ek; [| discriminate].
    destruct (find _ names) eqn:Ef; [discriminate |].
    intro H. injection H as <-.
    destruct parsed as [| | | | | | | props]; try discriminate.
    exists props, names. apply hasNamed_In in Hb, He.
    repeat split; auto. apply find_unknown_None. exact Ef.
  - intros (props & names & -> & Hb & He & -> & Ek & Hall).
    apply hasNamed_In in Hb, He. rewrite Hb, He. cbn [andb].
    cbn [ParsedResponse.extractedFields] in Ek. rewrite Ek.
    rewrite (proj2 (find_unknown_None form names) Hall). reflexivity.
Qed.

(** X11. When the keys of the extracted values are enumerated and one of
    them is not the name of a field, the interpreter fails with "Field not
    in form definition", code UNKNOWN_FIELD, naming the first such key in
    enumeration order together with the form identifier. *)
Theorem parseExtractedFields_first_unknown_key :
  forall (engine : Engine) (llmResponse : JSString) (form : FormDefinition)
         (props : list (JSString * JSValue)) (known rest : list JSString)
         (unknown : JSString),
    JSON.parse llmResponse = Some (VObject props) ->
    In (str "botResponse") (map fst props) ->
    In (str "extractedFields") (map fst props) ->
    Object.keys (getNamed (str "extractedFields") (VObject props))
    = Some (known ++ unknown :: rest) ->
    (forall n, In n known -> In n (map FormField.name (FormDefinition.fields form))) ->
    ~ In unknown (map FormField.name (FormDefinition.fields form)) ->
    parseExtractedFields llmResponse form
    = Throw (ThrownClientError
               (ClientError.mk (str "Field not in form definition") 400
                  (str "UNKNOWN_FIELD")
                  [(str "fieldName", VString unknown);
                   (str "formId", VString (FormDefinition.id form))])).
Proof.
  intros engine llmResponse form props known rest unknown Hp Hb He Hk Hknown Hunknown.
  rewrite parseExtractedFields_outcomes, Hp.
  apply hasNamed_In in Hb, He. rewrite Hb, He. cbn [andb]. rewrite Hk.
  assert (E : find (fun n => negb (Set_has (map FormField.name (FormDefinition.fields form)) n))
                   (known ++ unknown :: rest) = Some unknown).
  { clear Hk. induction known as [| k known IH]; simpl.
    - destruct (Set_has _ unknown) eqn:E; [| reflexivity].
      apply Set_has_In in E. contradiction.
    - rewrite (proj2 (Set_has_In _ k)) by (apply Hknown; left; reflexivity).
      simpl. apply IH. intros n Hn. apply Hknown. right. exact Hn. }
  rewrite E. reflexivity.
Qed.

(** X12. A reply that parses to anything but an object holding both keys (an
    array, a string, a number, a boolean, [null], or an object that lacks
    one of them) fails with "LLM response missing required fields
    (botResponse, extractedFields)", code INVALID_LLM_RESPONSE, for every
    form; the form is not consulted. *)
Theorem parseExtractedFields_missing_keys :
  forall (engine : Engine) (llmResponse : JSString) (form : FormDefinition)
         (parsed : JSValue),
    JSON.parse llmResponse = Some parsed ->
    match parsed with
    | VObject props =>
        ~ (In (str "botResponse") (map fst props)
           /\ In (str "extractedFields") (map fst props))
    | _ => True
    end ->
    parseExtractedFields llmResponse form
    = Throw (ThrownClientError
               (ClientError.mk
                  (str "LLM response missing required fields (botResponse, extractedFields)")
                  400 (str "INVALID_LLM_RESPONSE")
                  [(str "response", VString llmResponse)])).
Proof.
  intros engine llmResponse form parsed Hp Hshape.
  rewrite parseExtractedFields_outcomes, Hp.
  destruct parsed as [| | | | | | | props]; try reflexivity.
  destruct (hasNamed (str "botResponse") (VObject props)) eqn:Hb; [| reflexivity].
  destruct (hasNamed (str "extractedFields") (VObject props)) eqn:He; [| reflexivity].
  exfalso. apply Hshape. split; apply hasNamed_In; assumption.
Qed.

(* ================================================================== *)
(** * Further properties of the turn *)

Lemma Map_get_fieldMap_In (form : FormDefinition) (name : JSString) (fd : FormField) :
  Map_get (fieldMap form) name = Some fd ->
  In fd (FormDefinition.fields form) /\ FormField.name fd = name.
Proof.
  unfold Map_get, fieldMap.
  destruct (find _ _) as [[n f] |] eqn:E; [| discriminate].
  simpl. intro H. injection H as ->.
  apply find_some in E as [Hin Hn]. simpl in Hn. apply String_eqb_eq in Hn.
  apply in_rev in Hin. apply in_map_iff in Hin as (g & Hg & Hin).
  injection Hg as <- ->. auto.
Qed.

Lemma findByName_known (form : FormDefinition) (name : JSString) :
  In name (map FormField.name (FormDefinition.fields form)) ->
  exists f, findByName form name = Some f.
Proof.
  intro H. unfold findByName.
  destruct (find _ _) as [f |] eqn:E; [eauto |].
  apply in_map_iff in H as (g & Hg & Hin).
  pose proof (find_none _ _ E g Hin) as Hn. simpl in Hn.
  rewrite Hg, String_eqb_refl in Hn. discriminate.
Qed.

(** What the validation loop does on entries whose names the map knows. *)
Lemma validateExtracted_outcome (engine : Engine) (form : FormDefinition)
  (es : list (JSString * JSValue)) :
  (forall n v, In (n, v) es -> exists fd, Map_get (fieldMap form) n = Some fd) ->
  (validateExtracted form (fieldMap form) es = Return tt
   /\ forall n v, In (n, v) es ->
        exists fd, Map_get (fieldMap form) n = Some fd
                   /\ validateField fd v = Return Valid)
  \/ (exists before n v after fd reason,
        es = before ++ (n, v) :: after
        /\ Map_get (fieldMap form) n = Some fd
        /\ validateField fd v = Return (Invalid reason)
        /\ validateExtracted form (fieldMap form) es
           = Throw (ThrownClientError (validationError reason n v form)))
  \/ (exists before n v after fd e,
        es = before ++ (n, v) :: after
        /\ Map_get (fieldMap form) n = Some fd
        /\ validateField fd v = Throw e
        /\ validateExtracted form (fieldMap form) es = Throw e).
Proof.
  induction es as [| [n v] es IH]; intro Hknown.
  - left. split; [reflexivity | intros n v []].
  - destruct (Hknown n v) as (fd & Hfd); [left; reflexivity |].
    simpl. rewrite Hfd.
    destruct (validateField fd v) as [[| reason] | e] eqn:Ev; cbn [bind].
    + destruct IH
        as [[Hret Hall]
           | [(before & n' & v' & after & fd' & reason & -> & H1 & H2 & H3)
             | (before & n' & v' & after & fd' & e & -> & H1 & H2 & H3)]].
      { intros n' v' Hin. apply (Hknown n' v'). right. exact Hin. }
      * left. split; [exact Hret |].
        intros n' v' [E | Hin]; [injection E as <- <-; eauto | auto].
      * right. left. exists ((n, v) :: before), n', v', after, fd', reason. auto.
      * right. right. exists ((n, v) :: before), n', v', after, fd', e. auto.
    + right. left. exists [], n, v, es, fd, reason. auto.
    + right. right. exists [], n, v, es, fd, e. auto.
Qed.

Lemma hypotheticalFields_known (form : FormDefinition) (now : Z)
  (es : list (JSString * JSValue)) :
  (forall n v, In (n, v) es -> In n (map FormField.name (FormDefinition.fields form))) ->
  exists added, hypotheticalFields form now es = Return added.
Proof.
  induction es as [| [n v] es IH]; intro Hknown; simpl; [eauto |].
  destruct (findByName_known form n) as (f & ->).
  { apply (Hknown n v). left. reflexivity. }
  destruct IH as (added & ->); [| simpl; eauto].
  intros n' v' Hin. apply (Hknown n' v'). right. exact Hin.
Qed.

Lemma parseExtractedFields_Return_keys (engine : Engine) (llmResponse : JSString)
  (form : FormDefinition) (response : ParsedResponse) :
  parseExtractedFields llmResponse form = Return response ->
  exists names, Object.keys (ParsedResponse.extractedFields response) = Some names.
Proof.
  rewrite parseExtractedFields_outcomes.
  destruct (JSON.parse llmResponse) as [parsed |]; [| discriminate].
  destruct (_ && _)%bool; [| discriminate].
  destruct (Object.keys _) as [names |] eqn:Ek; [| discriminate].
  destruct (find _ names); [discriminate |].
  intro H. injection H as <-. eauto.
Qed.

(** Every way a turn can go once the model client has answered. *)
Lemma afterCompletion_outcome (engine : Engine) (form : FormDefinition)
  (session : Session) (now : Z) (llmResponse : LlmResponse) :
  let text := LlmResponse.content llmResponse in
  let outcome := afterCompletion form session now llmResponse in
  (exists e, parseExtractedFields text form = Throw e /\ outcome = Throw e)
  \/ exists response es,
       parseExtractedFields text form = Return response
       /\ Object.entries (ParsedResponse.extractedFields response) = Some es
       /\ ((exists before n v after fd reason,
              es = before ++ (n, v) :: after
              /\ Map_get (fieldMap form) n = Some fd
              /\ validateField fd v = Return (Invalid reason)
              /\ outcome = Throw (ThrownClientError (validationError reason n v form)))
           \/ (exists before n v after fd e,
                 es = before ++ (n, v) :: after
                 /\ Map_get (fieldMap form) n = Some fd
                 /\ validateField fd v = Throw e
                 /\ outcome = Throw e)
           \/ ((forall n v, In (n, v) es ->
                  exists fd, Map_get (fieldMap form) n = Some fd
                             /\ validateField fd v = Return Valid)
               /\ exists result, outcome = Return result)).
Proof.
  intros text outcome. unfold outcome, afterCompletion. fold text.
  destruct (parseExtractedFields text form) as [response | e] eqn:Hparse;
    [| left; eauto].
  right. cbn [bind].
  assert (Hk : exists names, Object.keys (ParsedResponse.extractedFields response) = Some names).
  { apply parseExtractedFields_Return_keys in Hparse. exact Hparse. }
  destruct Hk as (names & Hk). unfold Object.keys in Hk.
  destruct (Object.entries (ParsedResponse.extractedFields response)) as [es |] eqn:Hes;
    [| discriminate].
  exists response, es. split; [reflexivity |]. split; [exact Hes |].
  assert (Hnames : forall n v, In (n, v) es ->
             In n (map FormField.name (FormDefinition.fields form))).
  { intros n v Hin. apply Set_has_In.
    eapply parseExtractedFields_known_names; eassumption. }
  unfold entriesOf. rewrite Hes. cbn [bind].
  destruct (validateExtracted_outcome engine form es)
    as [[Hret Hall]
       | [(before & n & v & after & fd & reason & E & H1 & H2 & H3)
         | (before & n & v & after & fd & e & E & H1 & H2 & H3)]].
  { intros n v Hin. apply Map_get_fieldMap_known. apply Set_has_In. eauto. }
  - right. right. split; [exact Hall |]. rewrite Hret. cbn [bind].
    unfold isFormComplete. rewrite (entries_keys _ Hes). cbn [bind].
    destruct (hypotheticalFields_known form now es Hnames) as (added & ->).
    cbn [bind]. eauto.
  - left. exists before, n, v, after, fd, reason. rewrite H3. cbn [bind]. auto.
  - right. left. exists before, n, v, after, fd, e. rewrite H3. cbn [bind]. auto.
Qed.

(** X13. Every result the orchestrator returns carries extracted values that
    are all accounted for: each key is the name of a field of the form, and
    each value passed the validator of the field definition held for its
    name. *)
Theorem runLlmStep_result_is_validated :
  forall (engine : Engine) (S : Type) (form : FormDefinition) (session : Session)
         (userMessage : JSString) (llmClient : LlmClient S) (w : World S)
         (result : OrchestratorResult),
    fst (runLlmStep form session userMessage llmClient w) = Return result ->
    exists es : list (JSString * JSValue),
      Object.entries (OrchestratorResult.extractedFields result) = Some es
      /\ forall n v, In (n, v) es ->
           exists fd : FormField,
             In fd (FormDefinition.fields form)
             /\ FormField.name fd = n
             /\ Map_get (fieldMap form) n = Some fd
             /\ validateField fd v = Return Valid.
Proof.
  intros engine S form session userMessage llmClient w result H.
  apply runLlmStep_Return in H as (llmResponse & H).
  pose proof (afterCompletion_Return _ _ _ _ _ H) as (response & es & Hp & Hes & _ & Hres).
  destruct (afterCompletion_outcome engine form session (clock w) llmResponse)
    as [(e & He & _) | (response' & es' & Hp' & Hes' & Hcase)].
  - rewrite Hp in He. discriminate.
  - rewrite Hp in Hp'. injection Hp' as <-. rewrite Hes in Hes'. injection Hes' as <-.
    destruct Hcase as [(before & n & v & after & fd & reason & _ & _ & _ & Hthrow)
                      | [(before & n & v & after & fd & e & _ & _ & _ & Hthrow)
                        | [Hall _]]].
    + rewrite H in Hthrow. discriminate.
    + rewrite H in Hthrow. discriminate.
    + exists es. split.
      * cbv zeta in Hres. rewrite Hres. exact Hes.
      * intros n v Hin. destruct (Hall n v Hin) as (fd & Hfd & Hv).
        exists fd. destruct (Map_get_fieldMap_In form n Hfd). auto.
Qed.

Lemma mapM_Throw {A B : Type} (f : A -> Completion B) (xs : list A) (e : Thrown) :
  mapM f xs = Throw e -> exists x, In x xs /\ f x = Throw e.
Proof.
  induction xs as [| x xs IH]; simpl; [discriminate |].
  destruct (f x) as [y | e'] eqn:Ex; cbn [bind].
  - destruct (mapM f xs) as [ys | e'']; cbn [bind]; [discriminate |].
    intro H. destruct (IH H) as (x' & Hin & Hx'). eauto.
  - intro H. injection H as ->. eauto.
Qed.

Lemma mapM_Return {A B : Type} (f : A -> Completion B) (xs : list A) (ys : list B) :
  mapM f xs = Return ys ->
  forall x, In x xs -> exists y, f x = Return y /\ In y ys.
Proof.
  revert ys. induction xs as [| x xs IH]; simpl; intros ys H x' Hin; [destruct Hin |].
  apply bind_Return in H as (y & Hy & H).
  apply bind_Return in H as (ys' & Hys & H). injection H as <-.
  destruct Hin as [<- | Hin].
  - exists y. split; [exact Hy | left; reflexivity].
  - destruct (IH ys' Hys x' Hin) as (y' & Hy' & Hin'). exists y'. split; [exact Hy' |].
    right. exact Hin'.
Qed.

(** The text the prompt shows for a collected value. *)
Lemma collectedText_Throw (engine : Engine) (sf : SessionField) (e : Thrown) :
  match SessionField.value sf with
  | VNull => Return (str "null")
  | v => orTypeError (ToString v)
  end = Throw e ->
  e = ThrownTypeError /\ SessionField.value sf <> VNull
  /\ ToString (SessionField.value sf) = None.
Proof.
  destruct (SessionField.value sf) as [| | b | n | s | tv | elems | props];
    try destruct b; try discriminate;
    destruct (ToString _) eqn:Es; cbn [orTypeError]; try discriminate;
    intro H; injection H as <-; repeat split; discriminate.
Qed.

Lemma collectedText_Return (engine : Engine) (sf : SessionField) (text : JSString) :
  match SessionField.value sf with
  | VNull => Return (str "null")
  | v => orTypeError (ToString v)
  end = Return text ->
  ToString (SessionField.value sf) = Some text.
Proof.
  destruct (SessionField.value sf) as [| | b | n | s | tv | elems | props];
    try (intro H; apply Return_inj in H; subst text; reflexivity);
    unfold orTypeError; destruct (ToString _) as [t |]; intro H;
    try discriminate; apply Return_inj in H; subst t; reflexivity.
Qed.

(** The prompt builder raises nothing but the TypeError of a conversion, and
    it does exactly when the session holds a collected value, other than
    [null], that has no conversion to a string. *)
Lemma buildSystemPrompt_Throw (engine : Engine) (form : FormDefinition)
  (session : Session) :
  (forall e, buildSystemPrompt form session = Throw e -> e = ThrownTypeError)
  /\ (buildSystemPrompt form session = Throw ThrownTypeError <->
      exists sf, In sf (Session.fields session)
                 /\ SessionField.value sf <> VNull
                 /\ ToString (SessionField.value sf) = None).
Proof.
  unfold buildSystemPrompt. cbv zeta.
  set (line := fun sf : SessionField => bind _ _).
  assert (Hline : forall sf e, line sf = Throw e ->
            e = ThrownTypeError /\ SessionField.value sf <> VNull
            /\ ToString (SessionField.value sf) = None).
  { intros sf e H. unfold line in H.
    destruct (match SessionField.value sf with VNull => _ | _ => _ end) eqn:Ev;
      cbn [bind] in H; [discriminate |].
    injection H as ->. apply collectedText_Throw in Ev. exact Ev. }
  assert (Hconv : forall sf, SessionField.value sf <> VNull ->
            ToString (SessionField.value sf) = None -> line sf = Throw ThrownTypeError).
  { intros sf Hn Hs. unfold line.
    destruct (SessionField.value sf); try contradiction; rewrite Hs; reflexivity. }
  destruct (Session.fields session) as [| sf0 fs] eqn:Efs.
  - cbn [bind]. split; [discriminate |]. split; [discriminate |].
    intros (sf & [] & _).
  - destruct (mapM line (sf0 :: fs)) as [collected | e0] eqn:Em; cbn [bind].
    + split; [discriminate |]. split; [discriminate |].
      intros (sf & Hin & Hn & Hs). exfalso.
      destruct (mapM_Return _ _ Em sf Hin) as (y & Hy & _).
      rewrite (Hconv sf Hn Hs) in Hy. discriminate.
    + destruct (mapM_Throw _ _ Em) as (sf & Hin & Hsf).
      destruct (Hline _ _ Hsf) as (-> & Hn & Hs).
      split; [intros e H; injection H as <-; reflexivity |].
      split; [eauto | reflexivity].
Qed.

Lemma messages_outcome (engine : Engine) (form : FormDefinition) (session : Session)
  (userMessage : JSString) :
  match buildSystemPrompt form session with
  | Return prompt =>
      messages form session userMessage
      = Return (LlmMessage.mk system prompt
                :: buildConversationHistory session ++ [LlmMessage.mk user userMessage])
  | Throw e => messages form session userMessage = Throw e
  end.
Proof. unfold messages. destruct (buildSystemPrompt form session); reflexivity. Qed.

(** X14. The orchestrator raises a TypeError from four places only.  Before
    the model client is called: the prompt builder, on a collected value
    other than [null] that has no conversion to a string (the world is then
    left as it was).  In the call: the client, when it rejects with one.
    After the client has answered: the interpreter, when the reply is an
    object with both keys whose extracted-values value has no enumerable
    keys; and the validation of an extracted value that has no conversion to
    a string, for a field whose type asks for a string or a number.  The
    look-ups made without a check (the field definition of each name, the
    identifier of each named field) never miss. *)
Theorem runLlmStep_TypeError_origin :
  forall (engine : Engine) (S : Type) (form : FormDefinition) (session : Session)
         (userMessage : JSString) (llmClient : LlmClient S) (w : World S),
    fst (runLlmStep form session userMessage llmClient w) = Throw ThrownTypeError ->
    (messages form session userMessage = Throw ThrownTypeError
     /\ snd (runLlmStep form session userMessage llmClient w) = w
     /\ exists sf, In sf (Session.fields session)
                   /\ SessionField.value sf <> VNull
                   /\ ToString (SessionField.value sf) = None)
    \/ exists msgs : list LlmMessage,
         messages form session userMessage = Return msgs
         /\ ((exists s', complete llmClient msgs (clientState w)
                         = (Throw ThrownTypeError, s'))
             \/ exists (llmResponse : LlmResponse) (s' : S),
                  complete llmClient msgs (clientState w) = (Return llmResponse, s')
                  /\ ((exists props : list (JSString * JSValue),
                         JSON.parse (LlmResponse.content llmResponse)
                         = Some (VObject props)
                         /\ In (str "botResponse") (map fst props)
                         /\ In (str "extractedFields") (map fst props)
                         /\ Object.keys (getNamed (str "extractedFields") (VObject props))
                            = None)
                      \/ (exists (response : ParsedResponse)
                                 (es : list (JSString * JSValue))
                                 (n : JSString) (v : JSValue) (fd : FormField),
                            parseExtractedFields (LlmResponse.content llmResponse) form
                            = Return response
                            /\ Object.entries (ParsedResponse.extractedFields response)
                               = Some es
                            /\ In (n, v) es
                            /\ Map_get (fieldMap form) n = Some fd
                            /\ In (FormField.type fd) [EMAIL; PHONE; NUMBER; ENUM]
                            /\ v <> VNull /\ v <> VUndefined
                            /\ ToString v = None))).
Proof.
  intros engine S form session userMessage llmClient w H.
  pose proof (messages_outcome engine form session userMessage) as Hm.
  unfold runLlmStep in *.
  destruct (messages form session userMessage) as [msgs | e0].
  - right. exists msgs. split; [reflexivity |].
    destruct (complete llmClient msgs (clientState w)) as [settled s'].
    cbn [fst] in H.
    destruct settled as [llmResponse | e1]; cbn [bind] in H.
    2:{ left. injection H as ->. eauto. }
    right. exists llmResponse, s'. split; [reflexivity |].
    destruct (afterCompletion_outcome engine form session (clock w) llmResponse)
      as [(e & He & Hout) | (response & es & Hp & Hes & Hcase)].
    + left. rewrite H in Hout. injection Hout as <-.
      rewrite parseExtractedFields_outcomes in He.
      destruct (JSON.parse _) as [parsed |]; [| discriminate].
      destruct (hasNamed (str "botResponse") parsed) eqn:Hb; [| discriminate].
      destruct (hasNamed (str "extractedFields") parsed) eqn:Hx; [| discriminate].
      cbn [andb] in He.
      destruct parsed as [| | | | | | | props]; try discriminate.
      exists props. apply hasNamed_In in Hb, Hx.
      destruct (Object.keys _); [| auto].
      destruct (find _ _); discriminate.
    + right.
      destruct Hcase as [(before & n & v & after & fd & reason & _ & _ & _ & Hthrow)
                        | [(before & n & v & after & fd & e & E & Hfd & Hv & Hthrow)
                          | [_ (result & Hret)]]].
      * rewrite H in Hthrow. discriminate.
      * rewrite H in Hthrow. injection Hthrow as <-.
        apply validateField_Throw in Hv as (_ & Hn & Hu & Ht & Hs).
        exists response, es, n, v, fd. repeat split; try assumption.
        rewrite E. apply in_or_app. right. left. reflexivity.
      * rewrite H in Hret. discriminate.
  - left. cbn [fst snd] in *. injection H as ->.
    split; [reflexivity |]. split; [reflexivity |].
    destruct (buildSystemPrompt form session) as [prompt | e] eqn:Eb; [discriminate |].
    injection Hm as <-.
    apply (proj2 (buildSystemPrompt_Throw engine form session)). exact Eb.
Qed.

(** X15. Once the messages are built and the model client has answered,
    every client error the orchestrator throws carries status 400 and is one of four: invalid JSON
    or missing keys (code INVALID_LLM_RESPONSE), unknown field (code
    UNKNOWN_FIELD, naming a key that is no field name), or a validation error
    (code VALIDATION_ERROR) whose message is the reason the validator gave
    for an extracted value. *)
Theorem runLlmStep_client_errors :
  forall (engine : Engine) (S : Type) (form : FormDefinition) (session : Session)
         (userMessage : JSString) (llmClient : LlmClient S) (w : World S)
         (msgs : list LlmMessage) (llmResponse : LlmResponse) (s' : S)
         (e : ClientError),
    messages form session userMessage = Return msgs ->
    complete llmClient msgs (clientState w) = (Return llmResponse, s') ->
    fst (runLlmStep form session userMessage llmClient w) = Throw (ThrownClientError e) ->
    ClientError.statusCode e = 400%Z
    /\ (e = invalidJsonError (LlmResponse.content llmResponse)
        \/ e = missingKeysError (LlmResponse.content llmResponse)
        \/ (exists unknown,
              e = unknownFieldError unknown form
              /\ ~ In unknown (map FormField.name (FormDefinition.fields form)))
        \/ (exists reason n v fd,
              e = validationError reason n v form
              /\ Map_get (fieldMap form) n = Some fd
              /\ validateField fd v = Return (Invalid reason))).
Proof.
  intros engine S form session userMessage llmClient w msgs llmResponse s' e Hm Hc H.
  unfold runLlmStep in H. rewrite Hm, Hc in H. cbn [fst bind] in H.
  assert (Hcases :
            e = invalidJsonError (LlmResponse.content llmResponse)
            \/ e = missingKeysError (LlmResponse.content llmResponse)
            \/ (exists unknown,
                  e = unknownFieldError unknown form
                  /\ ~ In unknown (map FormField.name (FormDefinition.fields form)))
            \/ (exists reason n v fd,
                  e = validationError reason n v form
                  /\ Map_get (fieldMap form) n = Some fd
                  /\ validateField fd v = Return (Invalid reason))).
  { destruct (afterCompletion_outcome engine form session (clock w) llmResponse)
      as [(e' & He & Hout) | (response & es & _ & _ & Hcase)].
    - rewrite H in Hout. injection Hout as <-.
      rewrite parseExtractedFields_outcomes in He.
      destruct (JSON.parse _) as [parsed |].
      + destruct (_ && _)%bool.
        * destruct (Object.keys _) as [names |]; [| discriminate].
          destruct (find _ names) as [unknown |] eqn:Ef; [| discriminate].
          injection He as <-. right. right. left. exists unknown.
          split; [reflexivity |].
          apply find_some in Ef as [_ Hn]. apply negb_true_iff in Hn.
          intro Hin. apply Set_has_In in Hin. congruence.
        * injection He as <-. auto.
      + injection He as <-. auto.
    - destruct Hcase as [(before & n & v & after & fd & reason & _ & H1 & H2 & Hthrow)
                        | [(before & n & v & after & fd & e' & _ & _ & H2 & Hthrow)
                          | [_ (result & Hret)]]].
      + rewrite H in Hthrow. injection Hthrow as ->.
        right. right. right. exists reason, n, v, fd. auto.
      + rewrite H in Hthrow. injection Hthrow as <-.
        apply validateField_Throw in H2 as (Habs & _). discriminate.
      + rewrite H in Hret. discriminate. }
  split; [| exact Hcases].
  destruct Hcases as [-> | [-> | [(u & -> & _) | (r & n & v & fd & -> & _)]]];
    reflexivity.
Qed.

(* ================================================================== *)
(** * Further properties of completion and of the next field *)

Lemma determineNextField_find (form : FormDefinition) (session : Session) :
  determineNextField form session
  = option_map FormField.name
      (find (fun f =>
               FormField.required f
               && negb (Set_has (map SessionField.fieldId (Session.fields session))
                                (FormField.id f)))
            (sortByOrder (FormDefinition.fields form))).
Proof. reflexivity. Qed.

(** X16. [determineNextField] returns [null] exactly when every required
    field of the form has its identifier among the session's collected
    fields, which is exactly when [isFormComplete] holds of the session with
    nothing newly extracted. *)
Theorem determineNextField_null_iff_complete :
  forall (form : FormDefinition) (session : Session),
    (determineNextField form session = None <->
     forall f, In f (FormDefinition.fields form) -> FormField.required f = true ->
               In (FormField.id f) (map SessionField.fieldId (Session.fields session)))
    /\ (determineNextField form session = None <->
        isFormComplete form session (VObject []) = Return true).
Proof.
  intros form session.
  assert (H1 : determineNextField form session = None <->
               forall f, In f (FormDefinition.fields form) -> FormField.required f = true ->
                 In (FormField.id f) (map SessionField.fieldId (Session.fields session))).
  { rewrite determineNextField_find. split.
    - intros H f Hin Hreq.
      destruct (find _ _) as [g |] eqn:E; [discriminate |].
      assert (Hin' : In f (sortByOrder (FormDefinition.fields form))).
      { eapply Permutation_in; [symmetry; apply sortByOrder_perm | exact Hin]. }
      pose proof (find_none _ _ E f Hin') as Hn. simpl in Hn.
      rewrite Hreq in Hn. apply negb_false_iff in Hn. apply Set_has_In. exact Hn.
    - intro H. destruct (find _ _) as [g |] eqn:E; [| reflexivity].
      apply find_some in E as [Hin Hg]. apply andb_true_iff in Hg as [Hreq Hn].
      apply negb_true_iff in Hn.
      assert (Hin' : In g (FormDefinition.fields form)).
      { eapply Permutation_in; [apply sortByOrder_perm | exact Hin]. }
      apply (H g Hin'), Set_has_In in Hreq. congruence. }
  split; [exact H1 |]. rewrite H1.
  unfold isFormComplete.
  change (Object.keys (VObject [])) with (Some (@nil JSString)).
  cbv beta iota zeta. unfold idsOfNames. cbn [flat_map]. rewrite app_nil_r.
  split.
  - intro H. f_equal. apply forallb_forall. intros f Hin.
    apply filter_In in Hin as [Hin Hreq]. apply Set_has_In. auto.
  - intro H. injection H as H. rewrite forallb_forall in H.
    intros f Hin Hreq. apply Set_has_In. apply H. apply filter_In. auto.
Qed.

Lemma filter_length_lt {A : Type} (p q : A -> bool) (l : list A) (a : A) :
  (forall x, q x = true -> p x = true) ->
  In a l -> p a = true -> q a = false ->
  (List.length (filter q l) < List.length (filter p l))%nat.
Proof.
  intros Himp Hin Hp Hq.
  assert (Hle : forall l', (List.length (filter q l') <= List.length (filter p l'))%nat).
  { induction l' as [| x l' IH]; simpl; [lia |].
    destruct (q x) eqn:Eq.
    - rewrite (Himp x Eq). simpl. lia.
    - destruct (p x); simpl; lia. }
  induction l as [| x l IH]; [destruct Hin |].
  simpl. destruct Hin as [-> | Hin].
  - rewrite Hp, Hq. simpl. specialize (Hle l). lia.
  - specialize (IH Hin). destruct (q x) eqn:Eq.
    + rewrite (Himp x Eq). simpl. lia.
    + destruct (p x); simpl; lia.
Qed.

(** X17. Asking for the next field makes progress: when the names are
    unique within the form and [determineNextField] returns a name, that
    name designates a required field that is not collected yet, and once a
    value for it is appended to the session, strictly fewer required fields
    are missing. *)
Theorem determineNextField_progress :
  forall (form : FormDefinition) (session : Session) (next : JSString),
    NoDup (map FormField.name (FormDefinition.fields form)) ->
    determineNextField form session = Some next ->
    exists f : FormField,
      findByName form next = Some f
      /\ In f (missingFields form session)
      /\ forall (value : JSValue) (at_ : option Z),
           (List.length (missingFields form
                           (collect session (SessionField.mk (FormField.id f) value at_)))
            < List.length (missingFields form session))%nat.
Proof.
  intros form session next ND H.
  rewrite determineNextField_find in H.
  destruct (find _ _) as [f |] eqn:E; [| discriminate].
  injection H as <-. apply find_some in E as [Hin Hf].
  assert (Hin' : In f (FormDefinition.fields form)).
  { eapply Permutation_in; [apply sortByOrder_perm | exact Hin]. }
  exists f. split; [apply (findByName_unique form (FormField.name f) f ND); auto |].
  split; [apply filter_In; auto |].
  intros value at_. unfold missingFields.
  apply filter_length_lt with (a := f); auto.
  - intros x Hx. apply andb_true_iff in Hx as [Hr Hn].
    rewrite Hr. cbn [andb]. apply negb_true_iff in Hn. apply negb_true_iff.
    destruct (Set_has (map SessionField.fieldId (Session.fields session)) (FormField.id x))
      eqn:Es; [| reflexivity].
    apply Set_has_In in Es.
    assert (Hs : Set_has (map SessionField.fieldId
                            (Session.fields
                               (collect session (SessionField.mk (FormField.id f) value at_))))
                         (FormField.id x) = true).
    { apply Set_has_In. cbn [collect Session.fields]. rewrite map_app.
      apply in_or_app. left. exact Es. }
    congruence.
  - apply andb_false_iff. right. apply negb_false_iff. apply Set_has_In.
    cbn [collect Session.fields]. rewrite map_app. apply in_or_app. right.
    left. reflexivity.
Qed.

(** X18. Completion is monotone: a form judged complete stays complete when
    the session collects more field identifiers and when more names are
    extracted. *)
Theorem isFormComplete_monotone :
  forall (form : FormDefinition) (session session' : Session)
         (extracted extracted' : list (JSString * JSValue)),
    incl (map SessionField.fieldId (Session.fields session))
         (map SessionField.fieldId (Session.fields session')) ->
    incl (map fst extracted) (map fst extracted') ->
    isFormComplete form session (VObject extracted) = Return true ->
    isFormComplete form session' (VObject extracted') = Return true.
Proof.
  intros form session session' extracted extracted' Hs He.
  unfold isFormComplete.
  change (Object.keys (VObject extracted)) with (Some (map fst extracted)).
  change (Object.keys (VObject extracted')) with (Some (map fst extracted')).
  cbv beta iota zeta. intro H. injection H as H. f_equal.
  rewrite forallb_forall in *. intros f Hin.
  specialize (H f Hin). apply Set_has_union in H. apply Set_has_union.
  destruct H as [H | (name & g & Hname & Hfind & Hid)].
  - left. apply Hs. exact H.
  - right. exists name, g. repeat split; auto.
Qed.

Lemma orderLe_trans : Relations_1.Transitive orderLe.
Proof. intros a b c. unfold orderLe. lia. Qed.

(** Two sorted arrangements of the same fields coincide when no two fields
    share an [order]. *)
Lemma sorted_perm_unique (l1 l2 : list FormField) :
  Sorted orderLe l1 -> Sorted orderLe l2 -> Permutation l1 l2 ->
  NoDup (map FormField.order l1) -> l1 = l2.
Proof.
  intros S1 S2. apply (Sorted_StronglySorted orderLe_trans) in S1, S2.
  revert l2 S2. induction S1 as [| a l1 S1 IH Ha]; intros l2 S2 HP ND.
  - apply Permutation_nil in HP. subst. reflexivity.
  - destruct l2 as [| b l2]; [apply Permutation_sym, Permutation_nil in HP; discriminate |].
    inversion S2 as [| ? ? S2' Hb]; subst.
    inversion ND as [| ? ? Hnot ND']; subst.
    rewrite Forall_forall in Ha, Hb.
    assert (E : a = b).
    { assert (Hb1 : In b (a :: l1)).
      { eapply Permutation_in; [symmetry; exact HP | left; reflexivity]. }
      destruct Hb1 as [E | Hb1]; [exact E |].
      assert (Ha2 : In a (b :: l2)).
      { eapply Permutation_in; [exact HP | left; reflexivity]. }
      destruct Ha2 as [E | Ha2]; [symmetry; exact E |].
      exfalso. apply Hnot.
      pose proof (Ha b Hb1) as L1. pose proof (Hb a Ha2) as L2. unfold orderLe in *.
      replace (FormField.order a) with (FormField.order b) by lia.
      apply in_map. exact Hb1. }
    subst b. f_equal. apply IH; [exact S2' | | exact ND'].
    eapply Permutation_cons_inv. exact HP.
Qed.

(** X19. When no two fields of a form share an [order], the order in which
    the fields are declared is immaterial: two forms with the same fields in
    different positions get the same next field for every session. *)
Theorem determineNextField_declaration_order_irrelevant :
  forall (form1 form2 : FormDefinition) (session : Session),
    Permutation (FormDefinition.fields form1) (FormDefinition.fields form2) ->
    NoDup (map FormField.order (FormDefinition.fields form1)) ->
    determineNextField form1 session = determineNextField form2 session.
Proof.
  intros form1 form2 session HP ND.
  rewrite !determineNextField_find.
  rewrite (sorted_perm_unique (l1 := sortByOrder (FormDefinition.fields form1))
             (l2 := sortByOrder (FormDefinition.fields form2))); [reflexivity | | | |].
  - apply sortByOrder_sorted.
  - apply sortByOrder_sorted.
  - rewrite !sortByOrder_perm. exact HP.
  - eapply Permutation_NoDup; [| exact ND].
    apply Permutation_map. symmetry. apply sortByOrder_perm.
Qed.

(* ================================================================== *)
(** * Further properties of the messages sent to the model *)

Lemma isInfix_refl (a : JSString) : isInfix a a.
Proof. exists [], []. rewrite app_nil_r. reflexivity. Qed.

Lemma isInfix_app_l (a s t : JSString) : isInfix a s -> isInfix a (s ++ t).
Proof.
  intros (p & q & ->). exists p, (q ++ t). rewrite <- !app_assoc. reflexivity.
Qed.

Lemma isInfix_app_r (a s t : JSString) : isInfix a t -> isInfix a (s ++ t).
Proof.
  intros (p & q & ->). exists (s ++ p), q. rewrite <- !app_assoc. reflexivity.
Qed.

Lemma isInfix_join (sep x : JSString) (parts : list JSString) :
  In x parts -> isInfix x (join sep parts).
Proof.
  induction parts as [| p parts IH]; [intros [] |].
  intros [-> | Hin].
  - destruct parts; simpl; [apply isInfix_refl | apply isInfix_app_l, isInfix_refl].
  - specialize (IH Hin). destruct parts as [| p' parts]; [destruct Hin |].
    change (join sep (p :: p' :: parts)) with (p ++ sep ++ join sep (p' :: parts)).
    apply isInfix_app_r, isInfix_app_r. exact IH.
Qed.

(** X20. Whenever the prompt builder returns a prompt, the prompt names
    every field of the form, with its programmatic name, its type and its
    required marker, and shows every collected field of the session with its
    identifier and its value converted to a string.  It returns a prompt
    exactly when every collected value has such a conversion; otherwise it
    raises the TypeError of the conversion and there is no prompt. *)
Theorem buildSystemPrompt_mentions :
  forall (engine : Engine) (form : FormDefinition) (session : Session),
    (forall prompt : JSString,
        buildSystemPrompt form session = Return prompt ->
        (forall field, In field (FormDefinition.fields form) ->
           isInfix (str "- " ++ FormField.label field ++ fieldDescriptor field) prompt)
        /\ (forall sf, In sf (Session.fields session) ->
              exists text : JSString,
                ToString (SessionField.value sf) = Some text
                /\ isInfix (str "- " ++ SessionField.fieldId sf ++ str ": " ++ text)
                           prompt))
    /\ ((exists prompt : JSString, buildSystemPrompt form session = Return prompt)
        <-> forall sf, In sf (Session.fields session) ->
                       ToString (SessionField.value sf) <> None)
    /\ (forall e : Thrown,
          buildSystemPrompt form session = Throw e ->
          e = ThrownTypeError
          /\ exists sf, In sf (Session.fields session)
                        /\ ToString (SessionField.value sf) = None).
Proof.
  intros engine form session.
  pose proof (buildSystemPrompt_Throw engine form session) as [Hone Hiff].
  split; [| split].
  - intros prompt H. unfold buildSystemPrompt in H. cbv zeta in H.
    apply bind_Return in H as (collectedInfo & Hc & H).
    apply Return_inj in H. subst prompt.
    split.
    + intros field Hin.
      do 8 apply isInfix_app_r. apply isInfix_app_l.
      set (line := fun f : FormField => _).
      assert (Hl : isInfix (str "- " ++ FormField.label field ++ fieldDescriptor field)
                           (line field)).
      { unfold line, fieldDescriptor. exists [], (whenTruthy (FormField.description field)
                                             (fun d => str ": " ++ d)).
        rewrite <- !app_assoc. reflexivity. }
      destruct Hl as (p & q & Hl).
      assert (Hj : isInfix (line field) (join nl (map line (FormDefinition.fields form)))).
      { apply isInfix_join. apply in_map. exact Hin. }
      destruct Hj as (p' & q' & ->). rewrite Hl.
      exists (p' ++ p), (q ++ q'). rewrite <- !app_assoc. reflexivity.
    + intros sf Hin.
      destruct (Session.fields session) as [| sf0 fs] eqn:E; [destruct Hin |].
      apply bind_Return in Hc as (collected & Hm & Hc).
      apply Return_inj in Hc. subst collectedInfo.
      destruct (mapM_Return _ _ Hm sf Hin) as (y & Hy & Hiny).
      apply bind_Return in Hy as (text & Htext & Hy).
      apply Return_inj in Hy. subst y.
      exists text. split.
      * apply collectedText_Return. exact Htext.
      * do 9 apply isInfix_app_r. apply isInfix_app_l.
        do 4 apply isInfix_app_r.
        apply isInfix_join. exact Hiny.
  - split.
    + intros [prompt Hp] sf Hin Hs.
      assert (Hn : SessionField.value sf <> VNull).
      { intro E. rewrite E in Hs. discriminate. }
      assert (Ht : buildSystemPrompt form session = Throw ThrownTypeError)
        by (apply Hiff; eauto).
      rewrite Hp in Ht. discriminate.
    + intro Hall.
      destruct (buildSystemPrompt form session) as [prompt | e] eqn:Eb; [eauto |].
      exfalso. rewrite (Hone e eq_refl) in Hiff.
      destruct (proj1 Hiff eq_refl) as (sf & Hin & _ & Hs).
      exact (Hall sf Hin Hs).
  - intros e He. pose proof (Hone e He) as ->. split; [reflexivity |].
    destruct (proj1 Hiff He) as (sf & Hin & _ & Hs). eauto.
Qed.

(** X21. The messages built for the model are the system prompt, then one
    message per turn of the session in the original order with its content
    unchanged and the role of its author, then the user message unchanged;
    the system role is used for the first message only.  There are no
    messages when there is no prompt. *)
Theorem messages_structure :
  forall (engine : Engine) (form : FormDefinition) (session : Session)
         (userMessage : JSString),
    exists history : list LlmMessage,
      messages form session userMessage
      = (prompt <- buildSystemPrompt form session ;;
         Return (LlmMessage.mk system prompt
                 :: history ++ [LlmMessage.mk user userMessage]))
      /\ List.length history = List.length (Session.turns session)
      /\ (forall i turn,
            nth_error (Session.turns session) i = Some turn ->
            exists m, nth_error history i = Some m
                      /\ LlmMessage.content m = SessionTurn.content turn
                      /\ LlmMessage.role m
                         = match SessionTurn.role turn with
                           | USER => user
                           | ASSISTANT => assistant
                           end)
      /\ Forall (fun m => LlmMessage.role m <> system)
                (history ++ [LlmMessage.mk user userMessage]).
Proof.
  intros engine form session userMessage.
  exists (buildConversationHistory session). unfold buildConversationHistory.
  split; [reflexivity |]. split; [apply length_map |]. split.
  - intros i turn Hi. rewrite nth_error_map, Hi. simpl. eauto.
  - apply Forall_app. split.
    + apply Forall_forall. intros m Hm. apply in_map_iff in Hm as (turn & <- & _).
      simpl. destruct (SessionTurn.role turn); discriminate.
    + repeat constructor. discriminate.
Qed.

(* ================================================================== *)
(** * The further statements at sample inputs *)

Lemma validateEmail_accepted_structure_witness :
  validateEmail (str "user@example.com") = Valid
  /\ count_occ N.eq_dec (str "user@example.com") (ch "@") = 1%nat
  /\ (5 <= List.length (str "user@example.com"))%nat.
Proof.
  assert (H : validateEmail (str "user@example.com") = Valid) by reflexivity.
  destruct (validateEmail_accepted_structure (str "user@example.com") H)
    as (Hcount & _ & _ & Hlen).
  auto.
Defined.

Lemma validateField_ENUM_string_witness :
  FormField.type sizeField = ENUM
  /\ @validateField sampleEngine sizeField (VString (str "M")) = Return Valid
  /\ (@validateField sampleEngine sizeField (VString (str "XXL")) = Return Valid
      \/ @validateField sampleEngine sizeField (VString (str "XXL"))
         = Return (Invalid (str "Value must be one of: S, M, L, XL"))).
Proof.
  split; [reflexivity |]. split.
  - destruct (@validateField_ENUM_string sampleEngine sizeField (str "M") eq_refl)
      as (Hiff & _ & _).
    apply Hiff. right. left. reflexivity.
  - exact (proj1 (proj2 (@validateField_ENUM_string sampleEngine sizeField (str "XXL")
                           eq_refl))).
Defined.

Lemma validateField_failure_reasons_witness :
  @validateField sampleEngine ageField (VNumber (number_of_Z 17))
  = Return (Invalid (str "Number must be at least 18"))
  /\ ((str "Number must be at least 18" = str "Field is required"
       /\ FormField.required ageField = true
       /\ (VNumber (number_of_Z 17) = VNull \/ VNumber (number_of_Z 17) = VUndefined))
      \/ (VNumber (number_of_Z 17) <> VNull
          /\ VNumber (number_of_Z 17) <> VUndefined
          /\ @typeReason sampleEngine ageField (str "Number must be at least 18"))).
Proof.
  assert (H : @validateField sampleEngine ageField (VNumber (number_of_Z 17))
              = Return (Invalid (str "Number must be at least 18")))
    by (vm_compute; reflexivity).
  split; [exact H |].
  exact (@validateField_failure_reasons sampleEngine ageField (VNumber (number_of_Z 17))
           (str "Number must be at least 18") H).
Defined.

Lemma validateField_depends_on_witness :
  @validateField sampleEngine (plainField "f-email" "email" EMAIL true 1)
    (VString (str "user@example.com"))
  = @validateField sampleEngine
      (FormField.mk (str "other-id") (str "contact") (str "Contact e-mail") EMAIL true
         (Some (ValidationRule.mk (Some (number_of_Z 3)) None (Some (str "^x$")) None))
         7 (Some (str "Where we can reach you")))
      (VString (str "user@example.com")).
Proof.
  apply validateField_depends_on;
    [reflexivity | reflexivity | intro H; discriminate H | intro H; discriminate H].
Defined.

Lemma validateDate_accepts_calendar_dates_only_witness :
  @validateDate sampleEngine (IsString (str "2024-02-29")) = Valid
  /\ (1 <= isoMonth 48 50 <= 12)%Z
  /\ (1 <= isoDay 50 57 [] <= daysInMonth (isoYear 50 48 50 52) (isoMonth 48 50))%Z.
Proof.
  assert (H : @validateDate sampleEngine (IsString (str "2024-02-29")) = Valid)
    by (vm_compute; reflexivity).
  split; [exact H |].
  exact (@validateDate_accepts_calendar_dates_only sampleEngine
           50 48 50 52 48 50 50 57 [] eq_refl H)%N.
Defined.

Lemma parseExtractedFields_first_unknown_key_witness :
  @parseExtractedFields sampleEngine
    (qstr "{'botResponse': 'Thanks!', 'extractedFields': {'name': 'John', 'unknownField': 'value', 'other': 1}}")
    contactForm
  = Throw (ThrownClientError
             (ClientError.mk (str "Field not in form definition") 400 (str "UNKNOWN_FIELD")
                [(str "fieldName", VString (str "unknownField"));
                 (str "formId", VString (str "form1"))])).
Proof.
  apply (@parseExtractedFields_first_unknown_key sampleEngine _ contactForm
           [(str "botResponse", VString (str "Thanks!"));
            (str "extractedFields",
             VObject [(str "name", VString (str "John"));
                      (str "unknownField", VString (str "value"));
                      (str "other", VNumber (number_of_Z 1))])]
           [str "name"] [str "other"] (str "unknownField")).
  - vm_compute. reflexivity.
  - left. reflexivity.
  - right. left. reflexivity.
  - reflexivity.
  - intros n [<- | []]. right. left. reflexivity.
  - intros [H | [H | [H | []]]]; discriminate H.
Defined.

Lemma parseExtractedFields_missing_keys_witness :
  @parseExtractedFields sampleEngine (qstr "['botResponse', 'extractedFields']") contactForm
  = Throw (ThrownClientError
             (ClientError.mk
                (str "LLM response missing required fields (botResponse, extractedFields)")
                400 (str "INVALID_LLM_RESPONSE")
                [(str "response", VString (qstr "['botResponse', 'extractedFields']"))])).
Proof.
  apply (@parseExtractedFields_missing_keys sampleEngine _ contactForm
           (VArray [VString (str "botResponse"); VString (str "extractedFields")])).
  - vm_compute. reflexivity.
  - exact I.
Defined.

Lemma runLlmStep_result_is_validated_witness :
  let reply :=
    qstr "{'botResponse': 'Done', 'extractedFields': {'email': 'john@example.com'}}" in
  let result :=
    OrchestratorResult.mk (VString (str "Done"))
      (VObject [(str "email", VString (str "john@example.com"))]) true None in
  fst (@runLlmStep sampleEngine unit contactForm sessionWithName (str "john@example.com")
         (constantClient reply) sampleWorld) = Return result
  /\ exists es : list (JSString * JSValue),
       Object.entries (OrchestratorResult.extractedFields result) = Some es
       /\ forall n v, In (n, v) es ->
            exists fd : FormField,
              In fd (FormDefinition.fields contactForm)
              /\ FormField.name fd = n
              /\ Map_get (fieldMap contactForm) n = Some fd
              /\ @validateField sampleEngine fd v = Return Valid.
Proof.
  intros reply result.
  assert (H : fst (@runLlmStep sampleEngine unit contactForm sessionWithName
                     (str "john@example.com") (constantClient reply) sampleWorld)
              = Return result) by (vm_compute; reflexivity).
  split; [exact H |].
  exact (@runLlmStep_result_is_validated sampleEngine unit contactForm sessionWithName
           (str "john@example.com") (constantClient reply) sampleWorld result H).
Defined.

(** A turn in which the model extracts an object with a [toString] key for
    the email field. *)
Lemma runLlmStep_TypeError_origin_witness :
  let reply :=
    qstr "{'botResponse': 'hi', 'extractedFields': {'email': {'toString': 1}}}" in
  let llmClient := constantClient reply in
  fst (@runLlmStep sampleEngine unit contactForm newSession (str "hello")
         llmClient sampleWorld) = Throw ThrownTypeError
  /\ ((@messages sampleEngine contactForm newSession (str "hello")
       = Throw ThrownTypeError
       /\ snd (@runLlmStep sampleEngine unit contactForm newSession (str "hello")
                 llmClient sampleWorld) = sampleWorld
       /\ exists sf, In sf (Session.fields newSession)
                     /\ SessionField.value sf <> VNull
                     /\ @ToString sampleEngine (SessionField.value sf) = None)
      \/ exists msgs : list LlmMessage,
           @messages sampleEngine contactForm newSession (str "hello") = Return msgs
           /\ ((exists s', complete llmClient msgs (clientState sampleWorld)
                           = (Throw ThrownTypeError, s'))
               \/ exists (llmResponse : LlmResponse) (s' : unit),
                    complete llmClient msgs (clientState sampleWorld)
                    = (Return llmResponse, s')
                    /\ ((exists props : list (JSString * JSValue),
                           JSON.parse (LlmResponse.content llmResponse)
                           = Some (VObject props)
                           /\ In (str "botResponse") (map fst props)
                           /\ In (str "extractedFields") (map fst props)
                           /\ Object.keys (getNamed (str "extractedFields")
                                             (VObject props))
                              = None)
                        \/ (exists (response : ParsedResponse)
                                   (es : list (JSString * JSValue))
                                   (n : JSString) (v : JSValue) (fd : FormField),
                              @parseExtractedFields sampleEngine
                                (LlmResponse.content llmResponse) contactForm
                              = Return response
                              /\ Object.entries (ParsedResponse.extractedFields response)
                                 = Some es
                              /\ In (n, v) es
                              /\ Map_get (fieldMap contactForm) n = Some fd
                              /\ In (FormField.type fd) [EMAIL; PHONE; NUMBER; ENUM]
                              /\ v <> VNull /\ v <> VUndefined
                              /\ @ToString sampleEngine v = None)))).
Proof.
  intros reply llmClient.
  assert (H : fst (@runLlmStep sampleEngine unit contactForm newSession (str "hello")
                     llmClient sampleWorld) = Throw ThrownTypeError)
    by (vm_compute; reflexivity).
  split; [exact H |].
  exact (@runLlmStep_TypeError_origin sampleEngine unit contactForm newSession
           (str "hello") llmClient sampleWorld H).
Defined.

Lemma runLlmStep_client_errors_witness :
  let reply := str "Not valid JSON at all" in
  fst (@runLlmStep sampleEngine unit contactForm newSession (str "hello")
         (constantClient reply) sampleWorld)
  = Throw (ThrownClientError (@invalidJsonError sampleEngine reply))
  /\ ClientError.statusCode (@invalidJsonError sampleEngine reply) = 400%Z.
Proof.
  intro reply.
  assert (H : fst (@runLlmStep sampleEngine unit contactForm newSession (str "hello")
                     (constantClient reply) sampleWorld)
              = Throw (ThrownClientError (@invalidJsonError sampleEngine reply)))
    by (vm_compute; reflexivity).
  split; [exact H |].
  destruct (@messages_without_collected sampleEngine contactForm newSession
              (str "hello") eq_refl) as [msgs Hmsgs].
  exact (proj1 (@runLlmStep_client_errors sampleEngine unit contactForm newSession
                  (str "hello") (constantClient reply) sampleWorld msgs
                  (LlmResponse.mk reply) tt (@invalidJsonError sampleEngine reply)
                  Hmsgs eq_refl H)).
Defined.

Lemma determineNextField_progress_witness :
  NoDup (map FormField.name (FormDefinition.fields contactForm))
  /\ determineNextField contactForm newSession = Some (str "name")
  /\ exists f : FormField,
       findByName contactForm (str "name") = Some f
       /\ In f (missingFields contactForm newSession)
       /\ forall (value : JSValue) (at_ : option Z),
            (List.length (missingFields contactForm
                            (collect newSession (SessionField.mk (FormField.id f) value at_)))
             < List.length (missingFields contactForm newSession))%nat.
Proof.
  assert (ND : NoDup (map FormField.name (FormDefinition.fields contactForm))).
  { repeat constructor; simpl; intros H;
      repeat (destruct H as [H | H]; [discriminate H |]); exact H. }
  assert (H : determineNextField contactForm newSession = Some (str "name"))
    by reflexivity.
  split; [exact ND |]. split; [exact H |].
  exact (determineNextField_progress contactForm newSession ND H).
Defined.

Lemma isFormComplete_monotone_witness :
  isFormComplete contactForm sessionWithName
    (VObject [(str "email", VString (str "john@example.com"))]) = Return true
  /\ isFormComplete contactForm
       (collect sessionWithName (SessionField.mk (str "f-notes") (VString (str "none")) None))
       (VObject [(str "notes", VNull); (str "email", VString (str "john@example.com"))])
     = Return true.
Proof.
  assert (H : isFormComplete contactForm sessionWithName
                (VObject [(str "email", VString (str "john@example.com"))]) = Return true)
    by reflexivity.
  split; [exact H |].
  apply (@isFormComplete_monotone contactForm sessionWithName
           (collect sessionWithName
              (SessionField.mk (str "f-notes") (VString (str "none")) None))
           [(str "email", VString (str "john@example.com"))]
           [(str "notes", VNull); (str "email", VString (str "john@example.com"))]).
  - intros x Hx. cbn [collect Session.fields]. rewrite map_app.
    apply in_or_app. left. exact Hx.
  - intros x Hx. right. exact Hx.
  - exact H.
Defined.

Lemma determineNextField_declaration_order_irrelevant_witness :
  Permutation (FormDefinition.fields contactForm) (FormDefinition.fields contactFormReordered)
  /\ determineNextField contactForm sessionWithName
     = determineNextField contactFormReordered sessionWithName.
Proof.
  assert (HP : Permutation (FormDefinition.fields contactForm)
                 (FormDefinition.fields contactFormReordered)).
  { cbn [contactForm contactFormReordered FormDefinition.fields].
    eapply perm_trans; [apply perm_swap |].
    eapply perm_trans; [apply perm_skip, perm_swap |].
    apply perm_swap. }
  split; [exact HP |].
  apply (determineNextField_declaration_order_irrelevant contactForm contactFormReordered
           sessionWithName HP).
  repeat constructor; simpl; intros H;
    repeat (destruct H as [H | H]; [discriminate H |]); exact H.
Defined.
